(** * Algoritmos-ETL: the data-quality and alignment engine

    A shallow embedding of [data_cleaner.py], [data_unifier.py] and the
    transformation part of [etl_pipeline.py], with the properties of the
    specification proved (or refuted) on it.

    Modelling conventions.
    - A row is a Python [dict] with the keys Date, Open, High, Low, Close and
      Volume.  Each key is in one of three states: missing from the dict,
      bound to [None], or bound to a value ([cell]).  [d.get(k)] cannot tell
      the first two apart, [d[k]] can.
    - The rows handed to the cleaner are mutable objects:
      [clean_with_forward_fill] writes into them and [remove_invalid_rows]
      returns a list that shares them.  They live in a store indexed by
      references; a Python list of rows is a list of references, and the
      same reference may sit at several positions.  The functions run in a
      state-and-exception monad over the store.
    - The lists the functions receive are only read (length, indexing,
      iteration), and the lists they build are theirs until they return
      them: lists are plain values.
    - Objects that nobody writes to once they are built (the [dict(row)]
      copies, the placeholder rows, the rows of the master table) are plain
      values.
    - A dict keyed by symbol is a finite map where the loop over it only
      reads: what such a loop builds is a set, one entry per symbol, or a
      list of keys that is sorted before use, so the order of the visits
      does not show.  The cleaning loop of [run_etl] writes into the
      records, and with a record shared by two symbols the order of the
      visits shows in the store; there the dict comes as the list of its
      items in insertion order, which is the order Python visits them in.
    - The dict of a master-table row is an association list in insertion
      order: its key order is the column order.
    - Python numbers are kept abstract ([PyNumber]): the code only ever
      compares them with [<] and [>].
    - Python strings are byte strings in UTF-8; comparing them bytewise is
      comparing them by code points, which is what [sorted] does on [str]. *)

From stdpp Require Import base option list gmap sets strings sorting.

(** ** Python values *)

(** The state of one key of a dict. *)
Inductive cell (A : Type) : Type :=
  | Absent            (* the key is not in the dict *)
  | Null              (* the key is bound to None *)
  | Val (a : A).      (* the key is bound to a value *)
Arguments Absent {A}.
Arguments Null {A}.
Arguments Val {A} a.

(** Exceptions the modelled code can raise.  [InvalidRef] has no Python
    counterpart: it is a read through a reference that the store does not
    hold, which well-formed inputs exclude. *)
Inductive exn := KeyError | IndexError | InvalidRef.

Inductive result (A : Type) : Type :=
  | Ok (a : A)
  | Raise (e : exn).
Arguments Ok {A} a.
Arguments Raise {A} e.

#[export] Instance result_ret : MRet result := λ A a, Ok a.
#[export] Instance result_bind : MBind result := λ A B f m,
  match m with
  | Ok a => f a
  | Raise e => Raise e
  end.

(** [d.get(k)]: [None] when the key is missing or bound to [None]. *)
Definition cell_get {A} (c : cell A) : option A :=
  match c with
  | Val a => Some a
  | Absent | Null => None
  end.

(** [d[k]]: raises [KeyError] when the key is missing. *)
Definition cell_getitem {A} (c : cell A) : result (option A) :=
  match c with
  | Val a => Ok (Some a)
  | Null => Ok None
  | Absent => Raise KeyError
  end.

(** [l[i]] on a list, for [i] a natural number. *)
Definition list_getitem {A} (l : list A) (i : nat) : result A :=
  match l !! i with
  | Some x => Ok x
  | None => Raise IndexError
  end.

(** [d[k]] on a dict used as a map. *)
Definition map_getitem {A} (d : gmap string A) (k : string) : result A :=
  match d !! k with
  | Some x => Ok x
  | None => Raise KeyError
  end.

(** The keys of a dict used as a map, in its iteration order. *)
Definition keys {A} (d : gmap string A) : list string := (map_to_list d).*1.

(** [sorted] on a collection of strings.  Sorting by a total order has one
    result ([sorted_spec_unique] below), so the algorithm does not matter. *)
Definition sorted (l : list string) : list string := merge_sort String.le l.

(** Python numbers: some type with the comparison [<]. *)
Class PyNumber := { num : Type; num_lt : num → num → bool }.

(** [a > b] on numbers is [b < a]. *)
Definition num_gt `{PyNumber} (a b : num) : bool := num_lt b a.

Definition loc := positive.

Section engine.
Context `{PyNumber}.

(** ** Rows *)

Record row := Row {
  Date : cell string;
  Open : cell num;
  High : cell num;
  Low : cell num;
  Close : cell num;
  Volume : cell num
}.

(** [row["Close"] = v] *)
Definition set_Close (v : num) (r : row) : row :=
  {| Date := Date r; Open := Open r; High := High r; Low := Low r;
     Close := Val v; Volume := Volume r |}.

Inductive numeric_key := KOpen | KHigh | KLow | KClose | KVolume.

Definition _NUMERIC_KEYS : list numeric_key :=
  [KOpen; KHigh; KLow; KClose; KVolume].

Definition row_cell (key : numeric_key) (r : row) : cell num :=
  match key with
  | KOpen => Open r
  | KHigh => High r
  | KLow => Low r
  | KClose => Close r
  | KVolume => Volume r
  end.

(** ** The store and its monad *)

Abbreviation heap := (gmap loc row).

Definition M (A : Type) : Type := heap → result (A * heap).

#[export] Instance M_ret : MRet M := λ A a h, Ok (a, h).
#[export] Instance M_bind : MBind M := λ A B f m h,
  match m h with
  | Ok (a, h') => f a h'
  | Raise e => Raise e
  end.

Definition lift {A} (r : result A) : M A := λ h,
  match r with
  | Ok a => Ok (a, h)
  | Raise e => Raise e
  end.

Definition load (ref : loc) : M row := λ h,
  match h !! ref with
  | Some r => Ok (r, h)
  | None => Raise InvalidRef
  end.

Definition store (ref : loc) (r : row) : M unit := λ h, Ok ((), <[ref := r]> h).

(** [for x in xs: body], threading the variables the body assigns to. *)
Fixpoint for_each {T : Type → Type} `{MBind T, MRet T} {A St : Type}
    (xs : list A) (body : A → St → T St) (s : St) : T St :=
  match xs with
  | [] => mret s
  | x :: xs => s' ← body x s; for_each xs body s'
  end.

(** [range(n)] *)
Definition range (n : nat) : list nat := seq 0 n.

(** ** data_cleaner.py *)

Definition detect_missing_values (asset_data : list loc) : M (nat * list nat) :=
  match asset_data with
  | [] => mret (0, [])
  | _ =>
    '(count, positions, _) ←
      for_each (range (length asset_data))
        (λ i '(count, positions, seen_positions),
           ref ← lift (list_getitem asset_data i);
           row ← load ref;
           mret (foldl
             (λ '(count, positions, seen_positions) key,
                match cell_get (row_cell key row) with
                | None =>
                  if decide (i ∈ seen_positions)
                  then (S count, positions, seen_positions)
                  else (S count, positions ++ [i], {[i]} ∪ seen_positions)
                | Some _ => (count, positions, seen_positions)
                end)
             (count, positions, seen_positions) _NUMERIC_KEYS))
        (0, [], (∅ : gset nat));
    mret (count, positions)
  end.

(** One entry of the list [detect_inconsistencies] returns:
    [{"index": i, "type": ..., "row": dict(row)}]. *)
Record anomaly := Anomaly {
  a_index : nat;
  a_type : string;
  a_row : row
}.

Definition detect_inconsistencies (asset_data : list loc) : M (list anomaly) :=
  for_each (range (length asset_data))
    (λ i anomalies,
       ref ← lift (list_getitem asset_data i);
       row ← load ref;
       let low := cell_get (Low row) in
       let high := cell_get (High row) in
       let open_ := cell_get (Open row) in
       let close := cell_get (Close row) in
       match low, high with
       | Some low, Some high =>
         let anomalies :=
           if num_lt high low
           then anomalies ++ [Anomaly i "High_less_than_Low" row]
           else anomalies in
         let anomalies :=
           match close with
           | Some close =>
             if num_lt close low || num_gt close high
             then anomalies ++ [Anomaly i "Close_outside_Low_High_range" row]
             else anomalies
           | None => anomalies
           end in
         let anomalies :=
           match open_ with
           | Some open_ =>
             if num_lt open_ low || num_gt open_ high
             then anomalies ++ [Anomaly i "Open_outside_Low_High_range" row]
             else anomalies
           | None => anomalies
           end in
         mret anomalies
       | _, _ => mret anomalies
       end)
    [].

Definition clean_with_forward_fill (asset_data : list loc) : M (list loc) :=
  match asset_data with
  | [] => mret asset_data
  | _ =>
    _ ← for_each (range (length asset_data))
        (λ i (last_valid : option num),
           ref ← lift (list_getitem asset_data i);
           row ← load ref;
           match cell_get (Close row) with
           | Some _ => lift (cell_getitem (Close row))
           | None =>
             match last_valid with
             | Some v => _ ← store ref (set_Close v row); mret last_valid
             | None => mret last_valid
             end
           end)
        None;
    mret asset_data
  end.

Definition remove_invalid_rows (asset_data : list loc) : M (list loc) :=
  for_each (range (length asset_data))
    (λ i result,
       ref ← lift (list_getitem asset_data i);
       row ← load ref;
       match cell_get (Close row) with
       | Some _ => mret (result ++ [ref])
       | None => mret result
       end)
    [].

(** ** data_unifier.py *)

Definition build_master_calendar (all_assets_data : gmap string (list loc))
    : M (list string) :=
  all_dates ←
    for_each (map_to_list all_assets_data)
      (λ '(symbol, rows) (all_dates : gset string),
         for_each rows
           (λ ref (all_dates : gset string),
              row ← load ref;
              match cell_get (Date row) with
              | Some d => mret ({[d]} ∪ all_dates)
              | None => mret all_dates
              end)
           all_dates)
      ∅;
  mret (sorted (elements all_dates)).

Definition placeholder (date : string) : row :=
  {| Date := Val date; Open := Null; High := Null; Low := Null;
     Close := Null; Volume := Null |}.

Definition align_assets_to_calendar (all_assets_data : gmap string (list loc))
    (master_calendar : list string) : M (gmap string (list row)) :=
  for_each (map_to_list all_assets_data)
    (λ '(symbol, rows) (aligned : gmap string (list row)),
       date_to_row ←
         for_each rows
           (λ ref (date_to_row : gmap string row),
              row ← load ref;
              match cell_get (Date row) with
              | Some d => mret (<[d := row]> date_to_row)
              | None => mret date_to_row
              end)
           ∅;
       let aligned_list :=
         foldl (λ aligned_list date,
                  match date_to_row !! date with
                  | Some r => aligned_list ++ [r]
                  | None => aligned_list ++ [placeholder date]
                  end)
               [] master_calendar in
       mret (<[symbol := aligned_list]> aligned))
    ∅.

(** The values a row of the master table holds. *)
Inductive value :=
  | VNone
  | VStr (s : string)
  | VNum (x : num).

Definition value_of_str (o : option string) : value :=
  match o with
  | Some s => VStr s
  | None => VNone
  end.

Definition value_of_num (o : option num) : value :=
  match o with
  | Some x => VNum x
  | None => VNone
  end.

(** A row of the master table is a dict whose key order is the column order:
    an association list in insertion order. *)
Definition pydict := list (string * value).

(** [d[k] = v]: overwrite in place when the key is there, append otherwise. *)
Fixpoint dict_set (k : string) (v : value) (d : pydict) : pydict :=
  match d with
  | [] => [(k, v)]
  | (k', v') :: d =>
    if decide (k' = k) then (k', v) :: d else (k', v') :: dict_set k v d
  end.

Fixpoint dict_lookup (k : string) (d : pydict) : option value :=
  match d with
  | [] => None
  | (k', v') :: d => if decide (k' = k) then Some v' else dict_lookup k d
  end.

Definition close_column (symbol : string) : string := symbol +:+ "_Close".

Definition build_master_dataset (aligned_data : gmap string (list row))
    : result (list pydict) :=
  let symbols := sorted (keys aligned_data) in
  match symbols with
  | [] => Ok []
  | symbol0 :: _ =>
    first ← map_getitem aligned_data symbol0;
    let n := length first in
    for_each (range n)
      (λ i master,
         rows0 ← map_getitem aligned_data symbol0;
         row0 ← list_getitem rows0 i;
         date ← cell_getitem (Date row0);
         row ← for_each symbols
           (λ symbol (row : pydict),
              rows ← map_getitem aligned_data symbol;
              r ← list_getitem rows i;
              mret (dict_set (close_column symbol)
                             (value_of_num (cell_get (Close r))) row))
           [("Date", value_of_str date)];
         mret (master ++ [row]))
      []
  end.

(** ** etl_pipeline.py: the transformation steps of [run_etl]

    The part of [run_etl] between the download and the export, as a function
    of the downloaded data: the items of the downloaded dict in insertion
    order, the order in which the cleaning loop visits them.  The per-asset
    reports are computed and dropped: they reach only the printed summary. *)

Record etl := Etl {
  cleaned_data : gmap string (list loc);
  master_calendar : list string;
  aligned_data : gmap string (list row);
  master_dataset : list pydict
}.

Definition run_etl (all_assets_data : list (string * list loc)) : M etl :=
  let all_assets_data := filter (λ kv, kv.2 ≠ []) all_assets_data in
  cleaned_data ←
    for_each all_assets_data
      (λ '(symbol, asset_data) (cleaned_data : gmap string (list loc)),
         _ ← detect_missing_values asset_data;
         _ ← detect_inconsistencies asset_data;
         _ ← clean_with_forward_fill asset_data;
         cleaned ← remove_invalid_rows asset_data;
         mret (<[symbol := cleaned]> cleaned_data))
      ∅;
  master_calendar ← build_master_calendar cleaned_data;
  aligned_data ← align_assets_to_calendar cleaned_data master_calendar;
  master_dataset ← lift (build_master_dataset aligned_data);
  mret (Etl cleaned_data master_calendar aligned_data master_dataset).

(** ** What the claims talk about *)

(** The list [l] of references holds the rows [rows] in the store [h]. *)
Definition series_in (h : heap) (l : list loc) (rows : list row) : Prop :=
  Forall2 (λ ref r, h !! ref = Some r) l rows.

(** Every series of the universe is held by the store. *)
Definition universe_in (h : heap) (u : gmap string (list loc)) : Prop :=
  ∀ symbol l, u !! symbol = Some l → ∃ rows, series_in h l rows.

(** [items] are the items of the dict [u], each once, in the order of some
    sequence of insertions. *)
Definition items_of (u : gmap string (list loc))
    (items : list (string * list loc)) : Prop :=
  items ≡ₚ map_to_list u.

(** A key reads as [None]: it is missing or bound to [None]. *)
Definition is_null {A} (c : cell A) : bool :=
  match cell_get c with
  | None => true
  | Some _ => false
  end.

(** The number of null cells among Open, High, Low, Close and Volume. *)
Definition null_cells (r : row) : nat :=
  Nat.b2n (is_null (Open r)) + Nat.b2n (is_null (High r)) +
  Nat.b2n (is_null (Low r)) + Nat.b2n (is_null (Close r)) +
  Nat.b2n (is_null (Volume r)).

(** A key is missing from the dict; a key is bound to [None]. *)
Definition is_absent {A} (c : cell A) : bool :=
  match c with
  | Absent => true
  | Null | Val _ => false
  end.

Definition is_none {A} (c : cell A) : bool :=
  match c with
  | Null => true
  | Absent | Val _ => false
  end.

(** The number of missing keys, and of keys bound to [None], among Open,
    High, Low, Close and Volume. *)
Definition absent_cells (r : row) : nat :=
  Nat.b2n (is_absent (Open r)) + Nat.b2n (is_absent (High r)) +
  Nat.b2n (is_absent (Low r)) + Nat.b2n (is_absent (Close r)) +
  Nat.b2n (is_absent (Volume r)).

Definition none_cells (r : row) : nat :=
  Nat.b2n (is_none (Open r)) + Nat.b2n (is_none (High r)) +
  Nat.b2n (is_none (Low r)) + Nat.b2n (is_none (Close r)) +
  Nat.b2n (is_none (Volume r)).

(** A sequence of dates is strictly increasing. *)
Definition strictly_increasing (l : list string) : Prop :=
  ∀ i j x y, i < j → l !! i = Some x → l !! j = Some y → String.ltb x y = true.

(** Position [i] of [rows] has a null cell. *)
Definition has_null_at (rows : list row) (i : nat) : bool :=
  match rows !! i with
  | Some r => negb (null_cells r =? 0)
  | None => false
  end.

(** The three checks of the specification on one record.  Each presupposes
    that Low and High are both non-null. *)
Definition high_below_low (r : row) : bool :=
  match cell_get (Low r), cell_get (High r) with
  | Some low, Some high => num_lt high low
  | _, _ => false
  end.

(** The value of cell [x] is non-null and lies outside [Low, High]. *)
Definition out_of_range (x : cell num) (r : row) : bool :=
  match cell_get (Low r), cell_get (High r), cell_get x with
  | Some low, Some high, Some v => num_lt v low || num_gt v high
  | _, _, _ => false
  end.

(** The anomalies the specification asks for at position [i]: the checks
    are independent and reported in this order. *)
Definition expected_anomalies (i : nat) (r : row) : list anomaly :=
  (if high_below_low r
   then [Anomaly i "High_less_than_Low" r] else []) ++
  (if out_of_range (Close r) r
   then [Anomaly i "Close_outside_Low_High_range" r] else []) ++
  (if out_of_range (Open r) r
   then [Anomaly i "Open_outside_Low_High_range" r] else []).

(** The last non-null Close among [rows], if there is one: the value of
    [last_valid] once the loop of [clean_with_forward_fill] has gone over
    [rows]. *)
Definition last_valid_close (rows : list row) : option num :=
  foldl (λ last_valid r,
           match cell_get (Close r) with
           | Some v => Some v
           | None => last_valid
           end)
        None rows.

(** Forward fill of one record, given the last valid Close before it. *)
Definition fill (last_valid : option num) (r : row) : row :=
  match cell_get (Close r), last_valid with
  | None, Some v => set_Close v r
  | _, _ => r
  end.

(** Forward fill of a series. *)
Definition forward_filled (rows : list row) : list row :=
  imap (λ i r, fill (last_valid_close (take i rows)) r) rows.

(** The non-null dates of the records of a series, in order. *)
Definition dates_of (rows : list row) : list string :=
  omap (λ r, cell_get (Date r)) rows.

(** The record of [rows] that the lookup table of
    [align_assets_to_calendar] keeps for [date]: the last one with that
    date. *)
Definition record_at (rows : list row) (date : string) : option row :=
  last (filter (λ r, cell_get (Date r) = Some date) rows).

(** A series aligned to a calendar. *)
Definition aligned_series (rows : list row) (calendar : list string)
    : list row :=
  (λ date, default (placeholder date) (record_at rows date)) <$> calendar.

(** A series is aligned to a calendar: one record per date of the calendar,
    in order, carrying that date. *)
Definition aligned_to (calendar : list string) (rows : list row) : Prop :=
  Forall2 (λ date r, Date r = Val date) calendar rows.

(** What [aligned_data[symbol][i].get("Close")] reads. *)
Definition close_at (aligned_data : gmap string (list row)) (symbol : string)
    (i : nat) : value :=
  match aligned_data !! symbol with
  | Some rows =>
    match rows !! i with
    | Some r => value_of_num (cell_get (Close r))
    | None => VNone
    end
  | None => VNone
  end.

(** The same record with every missing numeric key bound to [None]. *)
Definition null_if_absent {A} (c : cell A) : cell A :=
  match c with
  | Absent => Null
  | Null => Null
  | Val a => Val a
  end.

Definition with_explicit_nulls (r : row) : row :=
  {| Date := Date r;
     Open := null_if_absent (Open r);
     High := null_if_absent (High r);
     Low := null_if_absent (Low r);
     Close := null_if_absent (Close r);
     Volume := null_if_absent (Volume r) |}.

(** The anomaly with its snapshot taken from the record with explicit
    nulls. *)
Definition explicit_snapshot (a : anomaly) : anomaly :=
  Anomaly (a_index a) (a_type a) (with_explicit_nulls (a_row a)).

End engine.

Abbreviation heap := (gmap loc row).

(** ** Notions for the behaviour of the engine beyond the specification *)

Section engine_notions.
Context `{PyNumber}.

(** The length of the run of null-Close records a series starts with. *)
Fixpoint leading_nulls (rows : list row) : nat :=
  match rows with
  | r :: rows => if is_null (Close r) then S (leading_nulls rows) else 0
  | [] => 0
  end.

(** [sorted(aligned_data.keys())[0]], when there is a key: the symbol whose
    series [build_master_dataset] takes the row count and the dates from. *)
Definition first_symbol (aligned_data : gmap string (list row))
    : option string :=
  head (sorted (keys aligned_data)).

(** What forward fill may do to a store: it creates and deletes no record,
    leaves a record whose Close is non-null as it is, and otherwise at most
    binds Close to a number. *)
Definition only_fills (h h' : gmap loc row) : Prop :=
  (∀ ref, h !! ref = None → h' !! ref = None) ∧
  (∀ ref r, h !! ref = Some r →
     ∃ r', h' !! ref = Some r' ∧
           (is_null (Close r) = false → r' = r) ∧
           (is_null (Close r') = true → r' = r) ∧
           (r' = r ∨ ∃ v, r' = set_Close v r)).

(** No record object is shared: none sits at two positions of a series or
    in the series of two symbols. *)
Definition unshared (u : gmap string (list loc)) : Prop :=
  (∀ symbol l, u !! symbol = Some l → NoDup l) ∧
  (∀ symbol1 symbol2 l1 l2,
     symbol1 ≠ symbol2 → u !! symbol1 = Some l1 → u !! symbol2 = Some l2 →
     ∀ ref, ref ∈ l1 → ref ∉ l2).

End engine_notions.

(** * data_fetcher.py

    The fetcher talks to the network and to the standard library (datetime,
    urllib, json, str).  Both are the environment of the model, a parameter
    of every definition: the functions of the module whose bodies are calls
    into the library only ([_date_to_unix], [_unix_to_date],
    [_build_chart_url]) and the library calls the other functions make are
    fields of [Library]; the answer of the network to a request may depend
    on everything that happened before, so it is a function of the history.
    What is modelled from the source is the control flow around them: the
    retry loop, the walk through the decoded response, the padding, the
    construction of the records as new objects of the store, the per-asset
    error handling. *)

(** ** Exceptions

    The exceptions of the engine, those the fetcher raises or inspects by
    class, and any other subclass of [Exception] a library call may raise.
    What is not an [Exception] (an interrupt from the keyboard, say) is not
    modelled. *)
Inductive error :=
  | Builtin (e : exn)
  | ValueError (msg : string)
  | RuntimeError (msg : string)
  | TypeError (msg : string)
  | JSONDecodeError (msg : string)
  | OtherError (name : string).

Inductive outcome (A : Type) :=
  | Returns (a : A)
  | Raises (e : error).
Arguments Returns {A} a.
Arguments Raises {A} e.

(** A number of seconds. *)
Abbreviation seconds := QArith_base.Q.

(** [n] seconds, for an integer [n]. *)
Definition secs (n : Z) : seconds := QArith_base.Qmake n 1.

(** [delay < 0]: the denominator of a rational is positive. *)
Definition negative (delay : seconds) : bool :=
  (QArith_base.Qnum delay <? 0)%Z.

(** What the process does to the outside. *)
Inductive event :=
  | Get (url : string) (timeout_seconds : seconds)
  | Sleep (delay : seconds).

(** [needle in s] on strings. *)
Fixpoint contains (needle s : string) : bool :=
  String.prefix needle s ||
  match s with
  | EmptyString => false
  | String _ s => contains needle s
  end.

(** [x if x is not None else None] as the value of a key. *)
Definition cell_of {A} (o : option A) : cell A :=
  match o with
  | Some a => Val a
  | None => Null
  end.

(** [pad_to], the helper of [_parse_chart_json]. *)
Definition pad_to {A} (lst : list A) (length : nat) (fill : A)
    : result (list A) :=
  for_each (range length)
    (λ i out,
       x ← (if decide (i < List.length lst) then list_getitem lst i
            else mret fill);
       mret (out ++ [x]))
    [].

Section fetcher.
Context `{PyNumber}.

(** ** The decoded response

    The response of the Chart API in the shape [_parse_chart_json] expects:
    objects where it calls [.get], lists where it indexes or takes the
    length, integers in the list of timestamps, numbers or null in the lists
    of values.  A field is [None] when the key is missing or bound to null,
    as [.get] reads it.  A body that is valid JSON of another shape (a list
    at the top level, on which [.get] raises [AttributeError]; a string in a
    list of values, which the parser passes on) has no decoded response
    here: every statement on the parser is about the bodies that do not
    decode and those that decode to this shape. *)
Record quote_json := QuoteJson {
  j_open : option (list (option num));
  j_high : option (list (option num));
  j_low : option (list (option num));
  j_close : option (list (option num));
  j_volume : option (list (option num))
}.

Record indicators_json := IndicatorsJson {
  j_quote : option (list quote_json)
}.

Record result_json := ResultJson {
  j_timestamp : option (list Z);
  j_indicators : option indicators_json
}.

Record chart_json := ChartJson {
  j_result : option (list result_json)
}.

Record response_json := ResponseJson {
  j_chart : option chart_json
}.

(** ** The environment *)
Class Library := {
  (** [datetime.strptime(date_str, "%Y-%m-%d")] and [int(dt.timestamp())] *)
  _date_to_unix : string → outcome Z;
  (** [datetime.fromtimestamp(timestamp, tz=timezone.utc)] and
      [strftime("%Y-%m-%d")] *)
  _unix_to_date : Z → outcome string;
  (** [urllib.parse.urlencode], [urllib.parse.quote] and [str.format] *)
  _build_chart_url : string → Z → Z → string;
  (** [urllib.request.urlopen] and the four handlers of [_do_http_get]:
      what a request returns or raises after the given history *)
  http_response : list event → string → seconds → outcome string;
  (** [json.loads(raw_bytes.decode("utf-8"))], where it raises or returns a
      response of the expected shape *)
  json_loads : string → outcome response_json;
  (** [int(x)] on a number *)
  int : num → outcome num;
  (** [str.lower] *)
  lower : string → string;
  (** The message of the last [RuntimeError]: [str.format] on the count, the
      minimum and the list of errors *)
  too_few_message : nat → Z → list (string * error) → string
}.

Context `{Library}.

(** ** The world and its monad

    The history of requests and pauses, and the store of the records.  An
    exception leaves the world as it is at the point of the raise. *)
Record world := World {
  w_trace : list event;
  w_heap : gmap loc row
}.

Definition F (A : Type) : Type := world → outcome A * world.

#[export] Instance F_ret : MRet F := λ A a w, (Returns a, w).
#[export] Instance F_bind : MBind F := λ A B f m w,
  match m w with
  | (Returns a, w') => f a w'
  | (Raises e, w') => (Raises e, w')
  end.

Definition raise {A} (e : error) : F A := λ w, (Raises e, w).

(** [try: m except Exception as e: ...], before the handler runs. *)
Definition try_except {A} (m : F A) : F (outcome A) := λ w,
  match m w with
  | (r, w') => (Returns r, w')
  end.

(** A call into the library. *)
Definition library {A} (o : outcome A) : F A := λ w, (o, w).

(** An operation on built-in values. *)
Definition builtin {A} (r : result A) : F A :=
  match r with
  | Ok a => mret a
  | Raise e => raise (Builtin e)
  end.

(** [time.sleep(seconds)]: a negative length is refused with a
    [ValueError], before any pause. *)
Definition sleep (delay : seconds) : F unit := λ w,
  if negative delay
  then (Raises (ValueError "sleep length must be non-negative"), w)
  else (Returns (), World (w_trace w ++ [Sleep delay]) (w_heap w)).

(** A dict display: a new object of the store. *)
Definition alloc (r : row) : F loc := λ w,
  let ref := fresh (dom (w_heap w)) in
  (Returns ref, World (w_trace w) (<[ref := r]> (w_heap w))).

(** ** The requests *)

Definition _do_http_get (url : string) (timeout_seconds : seconds) : F string :=
  λ w, (http_response (w_trace w) url timeout_seconds,
        World (w_trace w ++ [Get url timeout_seconds]) (w_heap w)).

(** ["timed out" in err_msg or "timeout" in err_msg] for
    [err_msg = str(e).lower()]. *)
Definition is_timeout (msg : string) : bool :=
  let err_msg := lower msg in
  contains "timed out" err_msg || contains "timeout" err_msg.

(** The loop of [_do_http_get_with_retry] over the attempts that are left,
    and the [raise last_err] after it: raising [None] is a [TypeError]. *)
Fixpoint retry_loop (url : string) (timeout_seconds : seconds)
    (max_attempts : Z) (retry_delay : seconds) (attempts : list nat)
    (last_err : option error) : F string :=
  match attempts with
  | [] =>
    match last_err with
    | Some e => raise e
    | None => raise (TypeError "exceptions must derive from BaseException")
    end
  | attempt :: attempts =>
    r ← try_except (_do_http_get url timeout_seconds);
    match r with
    | Returns body => mret body
    | Raises (RuntimeError msg) =>
      if is_timeout msg && bool_decide (Z.of_nat attempt < max_attempts - 1)%Z
      then
        _ ← sleep retry_delay;
        retry_loop url timeout_seconds max_attempts retry_delay attempts
                   (Some (RuntimeError msg))
      else raise (RuntimeError msg)
    | Raises e => raise e
    end
  end.

Definition _do_http_get_with_retry (url : string) (timeout_seconds : seconds)
    (max_attempts : Z) (retry_delay : seconds) : F string :=
  retry_loop url timeout_seconds max_attempts retry_delay
             (range (Z.to_nat max_attempts)) None.

(** The events of [k] attempts that end in a retry: each is a request
    followed by a pause. *)
Definition retries (url : string) (timeout_seconds retry_delay : seconds)
    (k : nat) : list event :=
  concat (replicate k [Get url timeout_seconds; Sleep retry_delay]).

(** ** The parser *)

(** The last loop of [_parse_chart_json]: one new record per timestamp. *)
Definition chart_rows (timestamps : list Z)
    (opens highs lows closes volumes : list (option num)) : F (list loc) :=
  for_each (range (length timestamps))
    (λ i rows,
       timestamp ← builtin (list_getitem timestamps i);
       date ← library (_unix_to_date timestamp);
       open ← builtin (list_getitem opens i);
       high ← builtin (list_getitem highs i);
       low ← builtin (list_getitem lows i);
       close ← builtin (list_getitem closes i);
       volume ← builtin (list_getitem volumes i);
       volume ← match volume with
                | Some v => v ← library (int v); mret (Some v)
                | None => mret None
                end;
       ref ← alloc (Row (Val date) (cell_of open) (cell_of high)
                        (cell_of low) (cell_of close) (cell_of volume));
       mret (rows ++ [ref]))
    [].

Definition _parse_chart_json (raw_bytes : string) : F (list loc) :=
  r ← try_except (library (json_loads raw_bytes));
  data ← match r with
         | Returns data => mret data
         | Raises (JSONDecodeError e) =>
           raise (ValueError ("JSON decode error: " +:+ e))
         | Raises e => raise e
         end;
  chart ← match j_chart data with
          | None => raise (ValueError "Missing 'chart' in response")
          | Some chart => mret chart
          end;
  result_list ← match j_result chart with
                | None | Some [] =>
                  raise (ValueError "Empty or missing 'result' in chart")
                | Some result_list => mret result_list
                end;
  result ← builtin (list_getitem result_list 0);
  timestamps ← match j_timestamp result with
               | None => raise (ValueError "Missing 'timestamp' in result")
               | Some timestamps => mret timestamps
               end;
  quote ← match j_indicators result with
          | None => raise (ValueError "Missing 'indicators' in result")
          | Some quote => mret quote
          end;
  quote_list ← match j_quote quote with
               | None | Some [] =>
                 raise (ValueError "Missing 'quote' in indicators")
               | Some quote_list => mret quote_list
               end;
  quote0 ← builtin (list_getitem quote_list 0);
  let opens := default [] (j_open quote0) in
  let highs := default [] (j_high quote0) in
  let lows := default [] (j_low quote0) in
  let closes := default [] (j_close quote0) in
  let volumes := default [] (j_volume quote0) in
  let n := length timestamps in
  opens ← builtin (pad_to opens n None);
  highs ← builtin (pad_to highs n None);
  lows ← builtin (pad_to lows n None);
  closes ← builtin (pad_to closes n None);
  volumes ← builtin (pad_to volumes n None);
  chart_rows timestamps opens highs lows closes volumes.

(** ** What the parser is to return *)

(** The first element of a non-empty list under a key. *)
Definition first_of {A} (o : option (list A)) : option A := o ≫= head.

(** The timestamps and the quote object [_parse_chart_json] reads: the
    first result of the chart and the first quote of its indicators. *)
Definition chart_series (data : response_json)
    : option (list Z * quote_json) :=
  chart ← j_chart data;
  result ← first_of (j_result chart);
  timestamps ← j_timestamp result;
  quote ← j_indicators result;
  quote0 ← first_of (j_quote quote);
  Some (timestamps, quote0).

(** The messages of the [ValueError]s the parser raises by itself on a
    decoded response. *)
Definition missing_component_messages : list string :=
  ["Missing 'chart' in response";
   "Empty or missing 'result' in chart";
   "Missing 'timestamp' in result";
   "Missing 'indicators' in result";
   "Missing 'quote' in indicators"].

(** The value at position [i] of a list of the response, null where the
    list is missing or shorter. *)
Definition value_at (o : option (list (option num))) (i : nat) : option num :=
  mjoin (default [] o !! i).

(** The record [_parse_chart_json] builds for position [i]. *)
Definition parsed_at (timestamps : list Z) (quote0 : quote_json) (i : nat)
    (r : row) : Prop :=
  (∃ timestamp date,
     timestamps !! i = Some timestamp ∧
     _unix_to_date timestamp = Returns date ∧ Date r = Val date) ∧
  Open r = cell_of (value_at (j_open quote0) i) ∧
  High r = cell_of (value_at (j_high quote0) i) ∧
  Low r = cell_of (value_at (j_low quote0) i) ∧
  Close r = cell_of (value_at (j_close quote0) i) ∧
  match value_at (j_volume quote0) i with
  | Some v => ∃ v', int v = Returns v' ∧ Volume r = Val v'
  | None => Volume r = Null
  end.

(** A record whose six keys are all present. *)
Definition complete (r : row) : Prop :=
  Date r ≠ Absent ∧ Open r ≠ Absent ∧ High r ≠ Absent ∧ Low r ≠ Absent ∧
  Close r ≠ Absent ∧ Volume r ≠ Absent.

(** ** One asset, several assets *)

Definition fetch_asset_data (symbol start_date end_date : string)
    (delay_seconds : seconds) : F (list loc) :=
  period1 ← library (_date_to_unix start_date);
  period2 ← library (_date_to_unix end_date);
  let url := _build_chart_url symbol period1 period2 in
  raw ← _do_http_get_with_retry url (secs 90) 3 (secs 2);
  _ ← sleep delay_seconds;
  _parse_chart_json raw.

(** The list of errors keeps each exception where the source keeps its
    [str]; the list reaches only the message of the last [RuntimeError]. *)
Definition fetch_multiple_assets (symbols : list string)
    (start_date end_date : string) (delay_seconds : seconds)
    (min_success : Z) : F (gmap string (list loc)) :=
  '(result, errors) ←
    for_each symbols
      (λ sym '(result, errors),
         r ← try_except (fetch_asset_data sym start_date end_date
                                          delay_seconds);
         match r with
         | Returns rows => mret (<[sym := rows]> result, errors)
         | Raises e => mret (<[sym := []]> result, errors ++ [(sym, e)])
         end)
      ((∅ : gmap string (list loc)), ([] : list (string * error)));
  let successful := length (filter (λ v, v ≠ []) (map_to_list result).*2) in
  if decide (Z.of_nat successful < min_success)%Z
  then raise (RuntimeError (too_few_message successful min_success errors))
  else mret result.

End fetcher.

(** * Concrete data

    Numbers are integers here; the dates and prices are those of the
    scenarios of the specification. *)

#[export] Instance Z_number : PyNumber := {| num := Z; num_lt := Z.ltb |}.

Definition price (z : Z) : cell num := Val z.

(** open=5, high=10, low=6, close=8 *)
Definition open_below_low : row :=
  Row (Val "2024-01-02") (price 5) (price 10) (price 6) (price 8) (price 100).

(** A record whose Close is [None]. *)
Definition no_close (date : string) : row :=
  Row (Val date) (price 7) (price 9) (price 6) Null (price 100).

(** A record with the given Close and the other prices in order. *)
Definition quote (date : string) (close : Z) : row :=
  Row (Val date) (price close) (price close) (price close) (price close)
      (price 100).

(** A record with no Low key, a High bound to [None] and no Volume key. *)
Definition sparse : row :=
  Row (Val "2024-01-03") (price 5) Null Absent (price 8) Absent.

(** Asset A has closes 10 and 12 on days 1 and 3; asset B has close 20 on
    day 1 and none on day 2; asset C has one record, without Close. *)
Definition example_store : heap :=
  {[ 1%positive := quote "2024-01-01" 10;
     2%positive := quote "2024-01-03" 12;
     3%positive := quote "2024-01-01" 20;
     4%positive := no_close "2024-01-02";
     5%positive := no_close "2024-01-01" ]}.

Definition example_universe : gmap string (list loc) :=
  {[ "A" := [1; 2]%positive; "B" := [3; 4]%positive; "C" := [5%positive] ]}.

(** The same universe as downloaded: A, then B, then C. *)
Definition example_items : list (string * list loc) :=
  [("A", [1; 2]%positive); ("B", [3; 4]%positive); ("C", [5%positive])].

Definition example_calendar : list string :=
  ["2024-01-01"; "2024-01-02"; "2024-01-03"].

(** A store for the detectors. *)
Definition detector_store : heap :=
  {[ 1%positive := open_below_low;
     2%positive := no_close "2024-01-03";
     3%positive := sparse ]}.

Definition detector_series : list loc := [1; 2; 3]%positive.

Definition detector_rows : list row :=
  [open_below_low; no_close "2024-01-03"; sparse].

(** Three records, the first and the last with a missing Close. *)
Definition shared_store : heap :=
  {[ 1%positive := no_close "2024-01-01";
     2%positive := quote "2024-01-02" 5;
     3%positive := no_close "2024-01-03" ]}.

(** Assets A and B of [example_universe] once cleaned and aligned. *)
Definition example_aligned : gmap string (list row) :=
  {[ "A" := [quote "2024-01-01" 10; placeholder "2024-01-02";
             quote "2024-01-03" 12];
     "B" := [quote "2024-01-01" 20;
             set_Close 20%Z (no_close "2024-01-02");
             placeholder "2024-01-03"] ]}.

(** What a computation returns. *)
Definition returned {A} (r : result (A * heap)) : option A :=
  match r with
  | Ok (a, _) => Some a
  | Raise _ => None
  end.

(** ** Data with uneven series, undated and repeated records *)

(** A record with no Date key. *)
Definition undated : row :=
  Row Absent (price 3) (price 4) (price 2) (price 3) (price 100).

(** Asset A has one record, asset B two. *)
Definition uneven_aligned : gmap string (list row) :=
  {[ "A" := [quote "2024-01-01" 10];
     "B" := [quote "2024-01-01" 20; quote "2024-01-02" 21] ]}.

(** Asset A has two records, asset B one. *)
Definition short_aligned : gmap string (list row) :=
  {[ "A" := [quote "2024-01-01" 10; quote "2024-01-02" 11];
     "B" := [quote "2024-01-01" 20] ]}.

(** The second record of asset A has no Date key. *)
Definition undated_aligned : gmap string (list row) :=
  {[ "A" := [quote "2024-01-01" 10; undated];
     "B" := [quote "2024-01-01" 20; quote "2024-01-02" 21] ]}.

(** Two records of one asset with the same date. *)
Definition repeated_store : heap :=
  {[ 1%positive := quote "2024-01-01" 10;
     2%positive := quote "2024-01-01" 11 ]}.

Definition repeated_universe : gmap string (list loc) :=
  {[ "A" := [1; 2]%positive ]}.

(** Two assets whose series share a record object: the second record of X
    is the only record of Y, and X was inserted first. *)
Definition aliased_store : heap :=
  {[ 1%positive := quote "2024-01-01" 5;
     2%positive := no_close "2024-01-02" ]}.

Definition aliased_items : list (string * list loc) :=
  [("X", [1; 2]%positive); ("Y", [2%positive])].

Definition aliased_universe : gmap string (list loc) :=
  {[ "X" := [1; 2]%positive; "Y" := [2%positive] ]}.

(** ** A network, a library and a response

    The URL of a symbol is the symbol and the body of a response is its
    URL.  The first request ever made times out and every later one is
    answered, except for the symbol DOWN, which is not found.  Every body
    but one decodes to the same response: two days, an Open list that is too
    short, no High list, a Low list that is too long, a Close list with a
    null and a Volume list that is too short. *)
Definition example_quote : quote_json :=
  QuoteJson (Some [Some 10%Z]) None
            (Some [Some 9%Z; Some 11%Z; Some 12%Z])
            (Some [None; Some 11%Z]) (Some [Some 100%Z]).

Definition example_timestamps : list Z := [1704067200; 1704153600]%Z.

Definition example_response : response_json :=
  ResponseJson (Some (ChartJson (Some
    [ResultJson (Some example_timestamps)
                (Some (IndicatorsJson (Some [example_quote])))]))).

#[export] Instance example_library : Library := {|
  _date_to_unix := λ date_str,
    if decide (date_str = "2024-01-01") then Returns 1704067200%Z
    else if decide (date_str = "2024-01-31") then Returns 1706659200%Z
    else Raises (ValueError "time data does not match format '%Y-%m-%d'");
  _unix_to_date := λ timestamp,
    if decide (timestamp = 1704067200%Z) then Returns "2024-01-01"
    else if decide (timestamp = 1704153600%Z) then Returns "2024-01-02"
    else Raises (OtherError "OverflowError");
  _build_chart_url := λ symbol period1 period2, symbol;
  http_response := λ history url timeout_seconds,
    if decide (url = "DOWN")
    then Raises (RuntimeError "HTTP error 404: Not Found for URL DOWN")
    else match history with
         | [] => Raises (RuntimeError "URL error: timed out for URL")
         | _ => Returns url
         end;
  json_loads := λ raw,
    if decide (raw = "garbage")
    then Raises (JSONDecodeError "Expecting value: line 1 column 1 (char 0)")
    else Returns example_response;
  int := λ x, Returns x;
  lower := λ s, s;
  too_few_message := λ successful min_success errors, "Solo"
|}.

Definition empty_world : world := World [] ∅.

(** What the download of VOO, DOWN and SPY returns from the empty world, in
    the order of the insertions: two new records for VOO, none for DOWN, two
    new records for SPY. *)
Definition fetched_items : list (string * list loc) :=
  [("VOO", [1; 2]%positive); ("DOWN", []); ("SPY", [3; 4]%positive)].

(** * Proofs *)

Section proofs.
Context `{PyNumber}.

(** ** Loops *)

Lemma for_each_M_inv {A St} (I : nat → St → heap → Prop) (xs : list A)
    (body : A → St → M St) s h :
  I 0 s h →
  (∀ i x s h, xs !! i = Some x → I i s h →
     ∃ s' h', body x s h = Ok (s', h') ∧ I (S i) s' h') →
  ∃ s' h', for_each xs body s h = Ok (s', h') ∧ I (length xs) s' h'.
Proof.
  revert I s h. induction xs as [|x xs IH]; intros I s h H0 Hstep.
  - simpl. eauto.
  - destruct (Hstep 0 x s h eq_refl H0) as (s1 & h1 & Hb & H1).
    destruct (IH (λ i, I (S i)) s1 h1 H1) as (s' & h' & Hf & Hn).
    { intros i y s2 h2 Hy Hi. by apply (Hstep (S i) y). }
    exists s', h'. split; [|done].
    simpl. unfold mbind, M_bind. by rewrite Hb.
Qed.

Lemma for_each_result_inv {A St} (I : nat → St → Prop) (xs : list A)
    (body : A → St → result St) s :
  I 0 s →
  (∀ i x s, xs !! i = Some x → I i s → ∃ s', body x s = Ok s' ∧ I (S i) s') →
  ∃ s', for_each xs body s = Ok s' ∧ I (length xs) s'.
Proof.
  revert I s. induction xs as [|x xs IH]; intros I s H0 Hstep.
  - simpl. eauto.
  - destruct (Hstep 0 x s eq_refl H0) as (s1 & Hb & H1).
    destruct (IH (λ i, I (S i)) s1 H1) as (s' & Hf & Hn).
    { intros i y s2 Hy Hi. by apply (Hstep (S i) y). }
    exists s'. split; [|done].
    simpl. unfold mbind, result_bind. by rewrite Hb.
Qed.

Lemma range_lookup n i x : range n !! i = Some x → x = i ∧ i < n.
Proof. unfold range. intros [-> ?]%lookup_seq. done. Qed.

Lemma range_length n : length (range n) = n.
Proof. apply length_seq. Qed.

Lemma M_bind_Ok {A B} (m : M A) (f : A → M B) h a h' :
  m h = Ok (a, h') → (m ≫= f) h = f a h'.
Proof. intros Hm. unfold mbind, M_bind. by rewrite Hm. Qed.

(** Reading row [i] of a series the store holds. *)
Lemma read_row {B} h l rows i ref r (k : loc → row → M B) :
  series_in h l rows → l !! i = Some ref → rows !! i = Some r →
  (ref ← lift (list_getitem l i); row ← load ref; k ref row) h = k ref r h.
Proof.
  intros Hs Hl Hr.
  assert (h !! ref = Some r) as Hh.
  { eapply Forall2_lookup_lr in Hs; eauto. }
  unfold mbind, M_bind, lift, list_getitem, load. by rewrite Hl, Hh.
Qed.

Lemma series_in_length h l rows : series_in h l rows → length l = length rows.
Proof. apply Forall2_length. Qed.

Lemma series_in_lookup h l rows i :
  series_in h l rows → i < length l →
  ∃ ref r, l !! i = Some ref ∧ rows !! i = Some r ∧ h !! ref = Some r.
Proof.
  intros Hs Hi.
  destruct (lookup_lt_is_Some_2 l i Hi) as [ref Hl].
  destruct (Forall2_lookup_l _ _ _ _ _ Hs Hl) as (r & Hr & Hh).
  eauto.
Qed.

(** ** detect_missing_values *)

(** The inner loop over [_NUMERIC_KEYS] for row [i]. *)
Lemma missing_keys_fold (i : nat) (r : row) ks count positions (seen : gset nat) :
  foldl
    (λ '(count, positions, seen_positions) key,
       match cell_get (row_cell key r) with
       | None =>
         if decide (i ∈ seen_positions)
         then (S count, positions, seen_positions)
         else (S count, positions ++ [i], {[i]} ∪ seen_positions)
       | Some _ => (count, positions, seen_positions)
       end)
    (count, positions, seen) ks
  = let c := length (filter (λ k, is_null (row_cell k r)) ks) in
    (count + c,
     if decide (i ∈ seen) then positions
     else if decide (c = 0) then positions else positions ++ [i],
     if decide (c = 0) then seen else {[i]} ∪ seen).
Proof.
  revert count positions seen.
  induction ks as [|k ks IH]; intros count positions seen; simpl.
  { rewrite Nat.add_0_r. by destruct (decide _). }
  rewrite filter_cons.
  destruct (is_null (row_cell k r)) eqn:En; unfold is_null in En;
    destruct (cell_get (row_cell k r)) as [v|]; try discriminate; simpl.
  - destruct (decide (i ∈ seen)) as [Hin|Hnot]; rewrite IH; simpl.
    + rewrite decide_True by done. f_equal; [f_equal; lia|].
      destruct (decide _); [set_solver|done].
    + rewrite decide_True by set_solver. f_equal; [f_equal; lia|].
      destruct (decide _); set_solver.
  - apply IH.
Qed.

Lemma null_cells_keys (r : row) :
  length (filter (λ k, is_null (row_cell k r)) _NUMERIC_KEYS) = null_cells r.
Proof.
  unfold null_cells, _NUMERIC_KEYS. rewrite !filter_cons, filter_nil. simpl.
  destruct (is_null (Open r)), (is_null (High r)), (is_null (Low r)),
    (is_null (Close r)), (is_null (Volume r)); reflexivity.
Qed.

Lemma detect_missing_values_run h l rows :
  series_in h l rows →
  detect_missing_values l h =
    Ok ((sum_list_with null_cells rows,
         filter (λ i, has_null_at rows i) (seq 0 (length rows))), h).
Proof.
  intros Hs. pose proof (series_in_length _ _ _ Hs) as Hlen.
  unfold detect_missing_values.
  destruct l as [|ref0 l0] eqn:El.
  { destruct rows; [done|discriminate]. }
  rewrite <- El in *. clear El ref0 l0.
  edestruct (for_each_M_inv
    (λ i '(count, positions, seen) h',
       h' = h ∧ count = sum_list_with null_cells (take i rows) ∧
       positions = filter (λ j, has_null_at rows j) (seq 0 i) ∧
       seen = (list_to_set positions : gset nat))
    (range (length l))) as ([[count positions] seen] & h' & Hrun & Hinv).
  3: { unfold mbind at 1, M_bind. rewrite Hrun. simpl.
       rewrite range_length, Hlen, firstn_all in Hinv.
       destruct Hinv as (-> & -> & -> & _). reflexivity. }
  { simpl. done. }
  intros i x [[count positions] seen] h1 [-> Hi]%range_lookup (-> & -> & -> & ->).
  destruct (series_in_lookup _ _ _ _ Hs Hi) as (ref & r & Hl & Hr & Hh).
  rewrite (read_row _ _ _ _ _ _ _ Hs Hl Hr).
  unfold mret, M_ret. rewrite missing_keys_fold, null_cells_keys. cbv zeta.
  eexists (_, _, _), _. split; [reflexivity|]. cbv beta iota.
  split; [done|].
  assert (i ∉ (list_to_set (filter (λ j, has_null_at rows j) (seq 0 i)) : gset nat)) as Hni.
  { rewrite elem_of_list_to_set, list_elem_of_filter, elem_of_seq. lia. }
  rewrite decide_False by done.
  assert (filter (λ j, has_null_at rows j) (seq 0 (S i)) =
          if decide (null_cells r = 0)
          then filter (λ j, has_null_at rows j) (seq 0 i)
          else filter (λ j, has_null_at rows j) (seq 0 i) ++ [i]) as Hpos.
  { rewrite seq_S, filter_app, filter_cons, filter_nil. cbn [plus].
    assert (has_null_at rows i = negb (null_cells r =? 0)) as ->.
    { unfold has_null_at. by rewrite Hr. }
    destruct (decide (null_cells r = 0)) as [Hz|Hz].
    - rewrite Hz. simpl. by rewrite app_nil_r.
    - apply Nat.eqb_neq in Hz. rewrite Hz. simpl. done. }
  rewrite Hpos, (take_S_r _ _ _ Hr), sum_list_with_app. cbn [sum_list_with].
  split; [lia|]. split; [done|].
  destruct (decide _); [done|]. rewrite list_to_set_app_L. simpl. set_solver.
Qed.
Lemma filter_seq_increasing (P : nat → Prop) `{∀ x, Decision (P x)} k n i j x y :
  i < j → filter P (seq k n) !! i = Some x → filter P (seq k n) !! j = Some y →
  x < y.
Proof.
  revert k i j. induction n as [|n IH]; intros k i j Hij Hi Hj; [done|].
  simpl in Hi, Hj. rewrite filter_cons in Hi, Hj.
  destruct (decide (P k)); [|by eapply IH].
  destruct j as [|j]; [lia|]. simpl in Hj.
  destruct i as [|i]; simpl in Hi.
  - injection Hi as <-.
    apply list_elem_of_lookup_2, list_elem_of_filter in Hj as [_ Hy].
    apply elem_of_seq in Hy. lia.
  - eapply (IH (S k) i j); [lia|done..].
Qed.

(** C8: [detect_missing_values] returns [(0, [])] on the empty series;
    otherwise the count is the total number of null cells among Open, High,
    Low, Close and Volume over all records, and the positions are exactly the
    record positions with at least one null cell, each once, in increasing
    order, so there are at most as many as there are records.  The store is
    left as it was. *)
Theorem detect_missing_values_spec (h : heap) (l : list loc) (rows : list row) :
  series_in h l rows →
  ∃ count positions,
    detect_missing_values l h = Ok ((count, positions), h) ∧
    (l = [] → count = 0 ∧ positions = []) ∧
    count = sum_list_with null_cells rows ∧
    (∀ i, i ∈ positions ↔ ∃ r, rows !! i = Some r ∧ 0 < null_cells r) ∧
    (∀ i j x y, i < j → positions !! i = Some x → positions !! j = Some y →
                x < y) ∧
    NoDup positions ∧
    length positions ≤ length l.
Proof.
  intros Hs. pose proof (series_in_length _ _ _ Hs) as Hlen.
  eexists _, _. split; [by apply detect_missing_values_run|].
  split; [|split; [done|split; [|split; [|split]]]].
  - intros ->. destruct rows; [done|discriminate].
  - intros i. rewrite list_elem_of_filter, elem_of_seq. unfold has_null_at.
    split.
    + intros [Hn _]. destruct (rows !! i) as [r|]; [|done].
      exists r. split; [done|].
      destruct (null_cells r); [done|lia].
    + intros (r & Hr & Hn). rewrite Hr. split.
      * destruct (null_cells r); [lia|done].
      * apply lookup_lt_Some in Hr. lia.
  - intros i j x y. apply filter_seq_increasing.
  - apply NoDup_filter, NoDup_seq.
  - rewrite Hlen. etrans; [apply length_filter|]. by rewrite length_seq.
Qed.

(** ** remove_invalid_rows *)

Lemma zip_take_S {A B} (l : list A) (k : list B) i x y :
  l !! i = Some x → k !! i = Some y →
  zip (take (S i) l) (take (S i) k) = zip (take i l) (take i k) ++ [(x, y)].
Proof.
  intros Hl Hk. rewrite (take_S_r _ _ _ Hl), (take_S_r _ _ _ Hk).
  rewrite zip_with_app; [done|].
  rewrite !length_take. apply lookup_lt_Some in Hl, Hk. lia.
Qed.

Lemma remove_invalid_rows_run h l rows :
  series_in h l rows →
  remove_invalid_rows l h =
    Ok ((filter (λ p, is_null (Close p.2) = false) (zip l rows)).*1, h).
Proof.
  intros Hs. pose proof (series_in_length _ _ _ Hs) as Hlen.
  unfold remove_invalid_rows.
  edestruct (for_each_M_inv
    (λ i result h',
       h' = h ∧
       result = (filter (λ p, is_null (Close p.2) = false)
                        (zip (take i l) (take i rows))).*1)
    (range (length l))) as (result & h' & Hrun & Hinv).
  3: { rewrite Hrun. rewrite range_length in Hinv. destruct Hinv as [-> ->].
       rewrite Hlen at 2. by rewrite !firstn_all. }
  { done. }
  intros i x result h1 [-> Hi]%range_lookup [-> ->].
  destruct (series_in_lookup _ _ _ _ Hs Hi) as (ref & r & Hl & Hr & Hh).
  rewrite (read_row _ _ _ _ _ _ _ Hs Hl Hr).
  rewrite (zip_take_S _ _ _ _ _ Hl Hr), filter_app, filter_cons, filter_nil.
  rewrite fmap_app. unfold is_null. simpl.
  destruct (cell_get (Close r)) as [v|]; unfold mret, M_ret.
  - eexists _, _. split; [reflexivity|]. split; [done|].
    by rewrite decide_True.
  - eexists _, _. split; [reflexivity|]. split; [done|].
    rewrite decide_False by done. by rewrite app_nil_r.
Qed.

(** C5: [remove_invalid_rows] returns the records whose Close is not null,
    all of them and only them, in their original order; it writes to no
    record (the store is returned unchanged, and with it the input list);
    every record of the result has a non-null Close. *)
Theorem remove_invalid_rows_spec (h : heap) (l : list loc) (rows : list row) :
  series_in h l rows →
  ∃ result,
    remove_invalid_rows l h = Ok (result, h) ∧
    result = (filter (λ p, is_null (Close p.2) = false) (zip l rows)).*1 ∧
    sublist result l ∧
    (∀ i ref r, l !! i = Some ref → rows !! i = Some r →
                is_null (Close r) = false → ref ∈ result) ∧
    (∀ ref, ref ∈ result →
            ∃ r v, ref ∈ l ∧ h !! ref = Some r ∧ cell_get (Close r) = Some v).
Proof.
  intros Hs. eexists. split; [by apply remove_invalid_rows_run|].
  split; [done|]. split; [|split].
  - rewrite <- (fst_zip l rows) at 2 by (by rewrite (series_in_length _ _ _ Hs)).
    apply fmap_sublist, sublist_filter.
  - intros i ref r Hl Hr Hc. apply list_elem_of_fmap.
    exists (ref, r). split; [done|].
    apply list_elem_of_filter. split; [done|].
    apply list_elem_of_lookup. exists i.
    apply lookup_zip_with_Some. eauto.
  - intros ref ([ref' r] & -> & [Hc Hin]%list_elem_of_filter)%list_elem_of_fmap.
    simpl in *. apply list_elem_of_lookup in Hin as [i Hi].
    apply lookup_zip_with_Some in Hi as (? & ? & [= <- <-] & Hl & Hr).
    pose proof (Forall2_lookup_lr _ _ _ _ _ _ Hs Hl Hr) as Hh.
    unfold is_null in Hc. destruct (cell_get (Close r)) as [v|] eqn:E; [|done].
    exists r, v. split; [|done]. by eapply list_elem_of_lookup_2.
Qed.

(** ** detect_inconsistencies *)

Lemma detect_inconsistencies_run h l rows :
  series_in h l rows →
  detect_inconsistencies l h = Ok (concat (imap expected_anomalies rows), h).
Proof.
  intros Hs. pose proof (series_in_length _ _ _ Hs) as Hlen.
  unfold detect_inconsistencies.
  edestruct (for_each_M_inv
    (λ i anomalies h',
       h' = h ∧ anomalies = concat (imap expected_anomalies (take i rows)))
    (range (length l))) as (anomalies & h' & Hrun & Hinv).
  3: { rewrite Hrun. rewrite range_length, Hlen, firstn_all in Hinv.
       by destruct Hinv as [-> ->]. }
  { done. }
  intros i x anomalies h1 [-> Hi]%range_lookup [-> ->].
  destruct (series_in_lookup _ _ _ _ Hs Hi) as (ref & r & Hl & Hr & Hh).
  rewrite (read_row _ _ _ _ _ _ _ Hs Hl Hr).
  rewrite (take_S_r _ _ _ Hr), imap_app, concat_app. simpl.
  rewrite length_take_le by (apply lookup_lt_Some in Hr; lia).
  rewrite Nat.add_0_r, app_nil_r.
  unfold expected_anomalies, high_below_low, out_of_range, mret, M_ret.
  destruct (cell_get (Low r)) as [low|], (cell_get (High r)) as [high|];
    simpl; try (eexists _, _; split; [reflexivity|];
                split; [done|]; by rewrite app_nil_r).
  eexists _, _. split; [reflexivity|]. split; [done|].
  destruct (num_lt high low), (cell_get (Close r)) as [close|],
    (cell_get (Open r)) as [open_|]; simpl;
    repeat match goal with
           | |- context [if ?b then _ else _] => destruct b; simpl
           end;
    by rewrite <- ?app_assoc, ?app_nil_r.
Qed.
Lemma elem_of_concat_imap {A B} (f : nat → A → list B) (l : list A) (b : B) :
  b ∈ concat (imap f l) ↔ ∃ i a, l !! i = Some a ∧ b ∈ f i a.
Proof.
  revert f. induction l as [|a l IH]; intros f; simpl.
  { rewrite elem_of_nil. naive_solver. }
  rewrite elem_of_app, IH. split.
  - intros [Hb|(i & a' & Hl & Hb)].
    + by exists 0, a.
    + by exists (S i), a'.
  - intros ([|i] & a' & Hl & Hb); simpl in *.
    + left. congruence.
    + right. eauto.
Qed.

Lemma elem_of_if_singleton {A} (b : bool) (x a : A) :
  a ∈ (if b then [x] else []) ↔ b = true ∧ a = x.
Proof.
  destruct b.
  - rewrite list_elem_of_singleton. intuition.
  - rewrite elem_of_nil. intuition discriminate.
Qed.

Lemma elem_of_expected_anomalies i r j ty snap :
  Anomaly j ty snap ∈ expected_anomalies i r ↔
  j = i ∧ snap = r ∧
  ∃ low high, cell_get (Low r) = Some low ∧ cell_get (High r) = Some high ∧
    ((ty = "High_less_than_Low" ∧ num_lt high low = true) ∨
     (ty = "Close_outside_Low_High_range" ∧
      ∃ close, cell_get (Close r) = Some close ∧
               (num_lt close low = true ∨ num_gt close high = true)) ∨
     (ty = "Open_outside_Low_High_range" ∧
      ∃ open_, cell_get (Open r) = Some open_ ∧
               (num_lt open_ low = true ∨ num_gt open_ high = true))).
Proof.
  unfold expected_anomalies. rewrite !elem_of_app, !elem_of_if_singleton.
  unfold high_below_low, out_of_range.
  destruct (cell_get (Low r)) as [low|], (cell_get (High r)) as [high|];
    try (split; [intros [[? _]|[[? _]|[? _]]]; discriminate
                |intros (_ & _ & ? & ? & ? & ? & _); discriminate]).
  split.
  - intros [[Hb [= -> -> ->]]|[[Hb [= -> -> ->]]|[Hb [= -> -> ->]]]];
      (split; [done|split; [done|]]); exists low, high;
      (split; [done|split; [done|]]).
    + by left.
    + right; left. split; [done|].
      destruct (cell_get (Close r)) as [close|]; [|done].
      exists close. split; [done|]. by apply orb_true_iff.
    + right; right. split; [done|].
      destruct (cell_get (Open r)) as [open_|]; [|done].
      exists open_. split; [done|]. by apply orb_true_iff.
  - intros (-> & -> & low' & high' & [= <-] & [= <-] & Hty).
    destruct Hty as [[-> Hlt]|[(-> & close & -> & Hc)|(-> & open_ & -> & Ho)]].
    + by left.
    + right; left. split; [|done]. by apply orb_true_iff.
    + right; right. split; [|done]. by apply orb_true_iff.
Qed.
(** C7: [detect_inconsistencies] looks only at the positions where Low and
    High are both non-null, and reports there, in this order and each on its
    own: High below Low iff [High < Low]; Close out of range iff Close is
    non-null and [Close < Low or Close > High]; Open out of range iff Open is
    non-null and [Open < Low or Open > High].  A position yields zero to
    three anomalies, none when Low or High is null.  A record whose Open is
    below Low and that is otherwise in order (open=5, high=10, low=6,
    close=8) yields the Open anomaly alone.  The store is left as it was. *)
Theorem detect_inconsistencies_spec (h : heap) (l : list loc) (rows : list row) :
  series_in h l rows →
  ∃ anomalies,
    detect_inconsistencies l h = Ok (anomalies, h) ∧
    anomalies = concat (imap expected_anomalies rows) ∧
    (∀ i ty snap,
       Anomaly i ty snap ∈ anomalies ↔
       ∃ r low high,
         rows !! i = Some r ∧ snap = r ∧
         cell_get (Low r) = Some low ∧ cell_get (High r) = Some high ∧
         ((ty = "High_less_than_Low" ∧ num_lt high low = true) ∨
          (ty = "Close_outside_Low_High_range" ∧
           ∃ close, cell_get (Close r) = Some close ∧
                    (num_lt close low = true ∨ num_gt close high = true)) ∨
          (ty = "Open_outside_Low_High_range" ∧
           ∃ open_, cell_get (Open r) = Some open_ ∧
                    (num_lt open_ low = true ∨ num_gt open_ high = true)))) ∧
    (∀ i r, rows !! i = Some r →
       length (expected_anomalies i r) ≤ 3 ∧
       (is_null (Low r) = true ∨ is_null (High r) = true →
        expected_anomalies i r = []) ∧
       (∀ open_ high low close,
          cell_get (Open r) = Some open_ → cell_get (High r) = Some high →
          cell_get (Low r) = Some low → cell_get (Close r) = Some close →
          num_lt high low = false →
          num_lt close low = false → num_gt close high = false →
          num_lt open_ low = true →
          expected_anomalies i r =
            [Anomaly i "Open_outside_Low_High_range" r])).
Proof.
  intros Hs. eexists. split; [by apply detect_inconsistencies_run|].
  split; [done|]. split.
  - intros i ty snap. rewrite elem_of_concat_imap. split.
    + intros (j & r & Hr & Ha).
      apply elem_of_expected_anomalies in Ha as (-> & -> & low & high & ?).
      exists r, low, high. naive_solver.
    + intros (r & low & high & Hr & -> & Hlow & Hhigh & Hty).
      exists i, r. split; [done|].
      apply elem_of_expected_anomalies. naive_solver.
  - intros i r Hr. unfold expected_anomalies, high_below_low, out_of_range, is_null.
    split; [|split].
    + rewrite !length_app.
      repeat match goal with
             | |- context [if ?b then _ else _] => destruct b
             end; simpl; lia.
    + intros [Hn|Hn];
        destruct (cell_get (Low r)), (cell_get (High r)); try done;
        by destruct (cell_get (Close r)), (cell_get (Open r)).
    + intros open_ high low close -> -> -> -> -> -> -> ->. done.
Qed.

(** ** clean_with_forward_fill *)

Lemma last_valid_close_snoc rows r :
  last_valid_close (rows ++ [r]) =
    match cell_get (Close r) with
    | Some v => Some v
    | None => last_valid_close rows
    end.
Proof. unfold last_valid_close. by rewrite foldl_snoc. Qed.

Lemma cell_get_Some {A} (c : cell A) v : cell_get c = Some v → c = Val v.
Proof. destruct c; simpl; congruence. Qed.

Lemma forward_filled_lookup rows i :
  forward_filled rows !! i =
    fill (last_valid_close (take i rows)) <$> rows !! i.
Proof. unfold forward_filled. by rewrite list_lookup_imap. Qed.

Lemma forward_filled_length rows : length (forward_filled rows) = length rows.
Proof. unfold forward_filled. by rewrite length_imap. Qed.

Lemma clean_with_forward_fill_run h l rows :
  series_in h l rows → NoDup l →
  ∃ h', clean_with_forward_fill l h = Ok (l, h') ∧
        series_in h' l (forward_filled rows) ∧
        (∀ ref, ref ∉ l → h' !! ref = h !! ref).
Proof.
  intros Hs Hnd. pose proof (series_in_length _ _ _ Hs) as Hlen.
  unfold clean_with_forward_fill.
  destruct l as [|ref0 l0] eqn:El.
  { destruct rows; [|discriminate]. exists h. unfold forward_filled. simpl.
    split; [done|]. split; [constructor|done]. }
  rewrite <- El in *. clear El ref0 l0.
  edestruct (for_each_M_inv
    (λ i last_valid h',
       last_valid = last_valid_close (take i rows) ∧
       (∀ j ref r, l !! j = Some ref → rows !! j = Some r →
          h' !! ref = Some (if decide (j < i)
                            then fill (last_valid_close (take j rows)) r
                            else r)) ∧
       (∀ ref, ref ∉ l → h' !! ref = h !! ref))
    (range (length l))) as (last_valid & h' & Hrun & Hinv).
  3: { exists h'. unfold mbind at 1, M_bind. rewrite Hrun.
       split; [done|]. rewrite range_length in Hinv.
       destruct Hinv as (_ & Hrows & Hframe). split; [|done].
       apply Forall2_same_length_lookup_2.
       { by rewrite forward_filled_length. }
       intros j ref r' Hl Hr'. rewrite forward_filled_lookup in Hr'.
       destruct (rows !! j) as [r|] eqn:Hr; [|done]. injection Hr' as <-.
       rewrite (Hrows j ref r Hl Hr).
       rewrite decide_True; [done|]. by apply lookup_lt_Some in Hl. }
  { split; [done|]. split; [|done]. intros j ref r Hl Hr.
    rewrite decide_False by lia. by eapply Forall2_lookup_lr in Hs. }
  intros i x last_valid h1 [-> Hi]%range_lookup (-> & Hrows & Hframe).
  destruct (series_in_lookup _ _ _ _ Hs Hi) as (ref & r & Hl & Hr & _).
  assert (h1 !! ref = Some r) as Hh1.
  { rewrite (Hrows i ref r Hl Hr). by rewrite decide_False by lia. }
  unfold mbind at 1, M_bind, lift, list_getitem. rewrite Hl.
  unfold mbind at 1, M_bind, load. rewrite Hh1.
  rewrite (take_S_r _ _ _ Hr), last_valid_close_snoc.
  destruct (cell_get (Close r)) as [v|] eqn:Hc.
  - rewrite (cell_get_Some _ _ Hc). simpl.
    eexists _, _. split; [reflexivity|]. split; [done|]. split; [|done].
    intros j ref' r' Hl' Hr'. rewrite (Hrows j ref' r' Hl' Hr').
    destruct (decide (j = i)) as [->|Hne].
    + rewrite decide_False, decide_True by lia.
      assert (r' = r) as -> by congruence.
      unfold fill. by rewrite Hc.
    + destruct (decide (j < i)).
      * by rewrite decide_True by lia.
      * by rewrite decide_False by lia.
  - destruct (last_valid_close (take i rows)) as [v|] eqn:Hlv.
    + unfold mbind, M_bind, store, mret, M_ret.
      eexists _, _. split; [reflexivity|]. split; [done|]. split.
      * intros j ref' r' Hl' Hr'.
        destruct (decide (j = i)) as [->|Hne].
        -- assert (ref' = ref) as -> by congruence.
           assert (r' = r) as -> by congruence.
           rewrite lookup_insert_eq, decide_True by lia.
           unfold fill. by rewrite Hc, Hlv.
        -- rewrite lookup_insert_ne.
           2: { intros ->. apply Hne. by eapply NoDup_lookup. }
           rewrite (Hrows j ref' r' Hl' Hr').
           destruct (decide (j < i)).
           ++ by rewrite decide_True by lia.
           ++ by rewrite decide_False by lia.
      * intros ref' Hnot. rewrite lookup_insert_ne; [by apply Hframe|].
        intros ->. apply Hnot. by eapply list_elem_of_lookup_2.
    + unfold mret, M_ret.
      eexists _, _. split; [reflexivity|]. split; [done|]. split; [|done].
      intros j ref' r' Hl' Hr'. rewrite (Hrows j ref' r' Hl' Hr').
      destruct (decide (j = i)) as [->|Hne].
      * rewrite decide_False, decide_True by lia.
        assert (r' = r) as -> by congruence.
        unfold fill. by rewrite Hc, Hlv.
      * destruct (decide (j < i)).
        -- by rewrite decide_True by lia.
        -- by rewrite decide_False by lia.
Qed.

Lemma last_valid_close_none rows i :
  (∀ j rj, j < i → rows !! j = Some rj → is_null (Close rj) = true) →
  last_valid_close (take i rows) = None.
Proof.
  induction i as [|i IH]; intros Hnull.
  { by rewrite take_0. }
  destruct (rows !! i) as [r|] eqn:Hr.
  - rewrite (take_S_r _ _ _ Hr), last_valid_close_snoc.
    pose proof (Hnull i r (Nat.lt_succ_diag_r i) Hr) as Hi.
    unfold is_null in Hi.
    destruct (cell_get (Close r)); [done|].
    apply IH. intros j rj Hj. apply Hnull. lia.
  - apply lookup_ge_None in Hr. rewrite take_ge by lia.
    rewrite take_ge in IH by lia.
    apply IH. intros j rj Hj. apply Hnull. lia.
Qed.

Lemma last_valid_close_nearest rows i j rj v :
  j < i → i ≤ length rows →
  rows !! j = Some rj → cell_get (Close rj) = Some v →
  (∀ k rk, j < k < i → rows !! k = Some rk → is_null (Close rk) = true) →
  last_valid_close (take i rows) = Some v.
Proof.
  intros Hji Hlen Hj Hv. induction i as [|i IH]; intros Hnull; [lia|].
  destruct (lookup_lt_is_Some_2 rows i) as [r Hr]; [lia|].
  rewrite (take_S_r _ _ _ Hr), last_valid_close_snoc.
  destruct (decide (i = j)) as [->|Hne].
  - assert (r = rj) as -> by congruence. by rewrite Hv.
  - assert (is_null (Close r) = true) as Hi by (apply (Hnull i); [lia|done]).
    unfold is_null in Hi. destruct (cell_get (Close r)); [done|].
    apply IH; [lia|lia|]. intros k rk Hk. apply Hnull. lia.
Qed.

(** C3: after [clean_with_forward_fill] on a series (a list with one record
    object per position, as the fetcher builds it: [NoDup]), a
    record whose Close was non-null keeps it; a record whose Close was null
    takes the Close of the nearest earlier record whose Close was non-null,
    when there is one; the null Closes before the first non-null one stay as
    they were; no other field of any record changes.  The function returns
    the list it was given, and leaves every other object of the store
    alone. *)
Theorem clean_with_forward_fill_spec (h : heap) (l : list loc) (rows : list row) :
  series_in h l rows → NoDup l →
  ∃ h' rows',
    clean_with_forward_fill l h = Ok (l, h') ∧
    series_in h' l rows' ∧
    (∀ ref, ref ∉ l → h' !! ref = h !! ref) ∧
    ∀ i r, rows !! i = Some r →
      ∃ r', rows' !! i = Some r' ∧
        (Date r' = Date r ∧ Open r' = Open r ∧ High r' = High r ∧
         Low r' = Low r ∧ Volume r' = Volume r) ∧
        (is_null (Close r) = false → Close r' = Close r) ∧
        (is_null (Close r) = true →
           (∀ j rj v,
              j < i → rows !! j = Some rj → cell_get (Close rj) = Some v →
              (∀ k rk, j < k < i → rows !! k = Some rk →
                       is_null (Close rk) = true) →
              Close r' = Val v) ∧
           ((∀ j rj, j < i → rows !! j = Some rj →
                     is_null (Close rj) = true) →
            Close r' = Close r)).
Proof.
  intros Hs Hnd.
  destruct (clean_with_forward_fill_run h l rows Hs Hnd)
    as (h' & Hrun & Hs' & Hframe).
  exists h', (forward_filled rows). split; [done|]. split; [done|].
  split; [done|].
  intros i r Hr. rewrite forward_filled_lookup, Hr. simpl.
  eexists. split; [reflexivity|].
  split; [|split].
  - unfold fill.
    by destruct (cell_get (Close r)), (last_valid_close (take i rows)).
  - unfold is_null, fill. by destruct (cell_get (Close r)).
  - unfold is_null. intros Hc. split.
    + intros j rj v Hji Hj Hv Hnull.
      rewrite (last_valid_close_nearest rows i j rj v); try done.
      * unfold fill. by destruct (cell_get (Close r)).
      * apply lookup_lt_Some in Hr. lia.
    + intros Hnull. rewrite last_valid_close_none by done.
      unfold fill. by destruct (cell_get (Close r)).
Qed.

Lemma fill_fill last_valid r : fill last_valid (fill last_valid r) = fill last_valid r.
Proof.
  unfold fill. destruct (cell_get (Close r)) eqn:Hc, last_valid; simpl;
    by rewrite ?Hc.
Qed.

Lemma last_valid_close_forward_filled rows i :
  last_valid_close (take i (forward_filled rows)) =
  last_valid_close (take i rows).
Proof.
  induction i as [|i IH]; [by rewrite !take_0|].
  destruct (rows !! i) as [r|] eqn:Hr.
  - assert (forward_filled rows !! i =
            Some (fill (last_valid_close (take i rows)) r)) as Hr'.
    { by rewrite forward_filled_lookup, Hr. }
    rewrite (take_S_r _ _ _ Hr), (take_S_r _ _ _ Hr'),
      !last_valid_close_snoc, IH.
    unfold fill.
    by destruct (cell_get (Close r)) eqn:Hc,
      (last_valid_close (take i rows)); simpl; rewrite ?Hc.
  - apply lookup_ge_None in Hr.
    rewrite !(take_ge _ (S i)) by (rewrite ?forward_filled_length; lia).
    by rewrite !(take_ge _ i) in IH by (rewrite ?forward_filled_length; lia).
Qed.

Lemma forward_filled_idemp rows :
  forward_filled (forward_filled rows) = forward_filled rows.
Proof.
  apply list_eq. intros i.
  rewrite !forward_filled_lookup, last_valid_close_forward_filled.
  destruct (rows !! i); simpl; [|done]. by rewrite fill_fill.
Qed.

(** C4: [clean_with_forward_fill] is idempotent: run on a series (a list
    with one record object per position, as the fetcher builds it:
    [NoDup]), it leaves the store in a state that a second run does not
    change, so the records are the same after two runs as after one. *)
Theorem clean_with_forward_fill_idempotent (h : heap) (l : list loc)
    (rows : list row) :
  series_in h l rows → NoDup l →
  ∃ h1 h2 rows',
    clean_with_forward_fill l h = Ok (l, h1) ∧
    clean_with_forward_fill l h1 = Ok (l, h2) ∧
    series_in h1 l rows' ∧ series_in h2 l rows' ∧
    h2 = h1.
Proof.
  intros Hs Hnd.
  destruct (clean_with_forward_fill_run h l rows Hs Hnd)
    as (h1 & Hrun1 & Hs1 & Hframe1).
  destruct (clean_with_forward_fill_run h1 l _ Hs1 Hnd)
    as (h2 & Hrun2 & Hs2 & Hframe2).
  rewrite forward_filled_idemp in Hs2.
  exists h1, h2, (forward_filled rows).
  split; [done|]. split; [done|]. split; [done|]. split; [done|].
  apply map_eq. intros ref.
  destruct (decide (ref ∈ l)) as [Hin|Hnot]; [|by apply Hframe2].
  apply list_elem_of_lookup in Hin as [i Hi].
  destruct (Forall2_lookup_l _ _ _ _ _ Hs1 Hi) as (r1 & Hr1 & ->).
  destruct (Forall2_lookup_l _ _ _ _ _ Hs2 Hi) as (r2 & Hr2 & ->).
  congruence.
Qed.

(** ** sorted *)

Lemma sorted_elem_of l x : x ∈ sorted l ↔ x ∈ l.
Proof. unfold sorted. by rewrite merge_sort_Permutation. Qed.

Lemma sorted_length l : length (sorted l) = length l.
Proof. unfold sorted. by rewrite merge_sort_Permutation. Qed.

Lemma sorted_NoDup l : NoDup l → NoDup (sorted l).
Proof. unfold sorted. by rewrite merge_sort_Permutation. Qed.

Lemma sorted_StronglySorted l : StronglySorted String.le (sorted l).
Proof. apply StronglySorted_merge_sort; apply _. Qed.

(** [sorted l] is the one ordered arrangement of [l]. *)
Lemma sorted_spec_unique l k :
  k ≡ₚ l → Sorted String.le k → k = sorted l.
Proof.
  intros Hp Hk. apply (Sorted_unique String.le); [done| |].
  - apply Sorted_merge_sort. apply _.
  - unfold sorted. by rewrite merge_sort_Permutation.
Qed.

Lemma StronglySorted_lookup_lt {A} (R : relation A) l i j x y :
  StronglySorted R l → i < j → l !! i = Some x → l !! j = Some y → R x y.
Proof.
  intros Hl. revert i j. induction Hl as [|a l Hl IH Ha]; intros i j Hij Hi Hj.
  { done. }
  destruct j as [|j]; [lia|]. simpl in Hj.
  destruct i as [|i]; simpl in Hi.
  - injection Hi as <-. eapply Forall_forall in Ha; [done|].
    by eapply list_elem_of_lookup_2.
  - apply (IH i j); [lia|done..].
Qed.

Lemma string_le_ne_ltb x y : String.le x y → x ≠ y → String.ltb x y = true.
Proof.
  unfold String.le, String.leb, String.ltb. intros Hle Hne.
  destruct (String.compare x y) eqn:Hc; [|done..].
  by apply String.compare_eq_iff in Hc.
Qed.

Lemma sorted_strictly_increasing l : NoDup l → strictly_increasing (sorted l).
Proof.
  intros Hnd i j x y Hij Hi Hj. apply string_le_ne_ltb.
  - by eapply StronglySorted_lookup_lt; [apply sorted_StronglySorted|..].
  - intros ->. apply sorted_NoDup in Hnd.
    pose proof (NoDup_lookup _ _ _ _ Hnd Hi Hj). lia.
Qed.

(** ** build_master_calendar *)

Lemma elem_of_dates_of rows d :
  d ∈ dates_of rows ↔ ∃ r, r ∈ rows ∧ cell_get (Date r) = Some d.
Proof. unfold dates_of. by rewrite list_elem_of_omap. Qed.

Lemma dates_of_snoc rows r :
  dates_of (rows ++ [r]) = dates_of rows ++ option_list (cell_get (Date r)).
Proof.
  unfold dates_of. rewrite omap_app. simpl.
  by destruct (cell_get (Date r)).
Qed.

(** The loop over the rows of one asset. *)
Lemma collect_dates_run h l rows (all_dates : gset string) :
  series_in h l rows →
  for_each l
    (λ ref (all_dates : gset string),
       row ← load ref;
       match cell_get (Date row) with
       | Some d => mret ({[d]} ∪ all_dates)
       | None => mret all_dates
       end)
    all_dates h
  = Ok (list_to_set (dates_of rows) ∪ all_dates, h).
Proof.
  intros Hs.
  edestruct (for_each_M_inv
    (λ i (D : gset string) h',
       h' = h ∧ D = list_to_set (dates_of (take i rows)) ∪ all_dates) l)
    as (D & h' & Hrun & Hinv).
  3: { rewrite Hrun. rewrite (series_in_length _ _ _ Hs), firstn_all in Hinv.
       by destruct Hinv as [-> ->]. }
  { split; [done|]. rewrite take_0. simpl. set_solver. }
  intros i ref D h1 Hl [-> ->].
  destruct (Forall2_lookup_l _ _ _ _ _ Hs Hl) as (r & Hr & Hh).
  unfold mbind, M_bind, load. rewrite Hh.
  rewrite (take_S_r _ _ _ Hr), dates_of_snoc, list_to_set_app_L.
  destruct (cell_get (Date r)) as [d|]; unfold mret, M_ret; simpl;
    eexists _, _; (split; [reflexivity|]); (split; [done|]); set_solver.
Qed.

Lemma build_master_calendar_run h u :
  universe_in h u →
  ∃ all_dates : gset string,
    build_master_calendar u h = Ok (sorted (elements all_dates), h) ∧
    ∀ d, d ∈ all_dates ↔
         ∃ symbol l rows, u !! symbol = Some l ∧ series_in h l rows ∧
                          d ∈ dates_of rows.
Proof.
  intros Hu. unfold build_master_calendar.
  edestruct (for_each_M_inv
    (λ i (D : gset string) h',
       h' = h ∧
       ∀ d, d ∈ D ↔
            ∃ k symbol l rows,
              k < i ∧ map_to_list u !! k = Some (symbol, l) ∧
              series_in h l rows ∧ d ∈ dates_of rows)
    (map_to_list u)) as (D & h' & Hrun & Hinv).
  3: { exists D. unfold mbind, M_bind. rewrite Hrun.
       destruct Hinv as [-> HD]. split; [done|].
       intros d. rewrite HD. split.
       - intros (k & symbol & l & rows & _ & Hk & Hs & Hd).
         exists symbol, l, rows. split; [|done].
         by apply elem_of_map_to_list, list_elem_of_lookup_2 with k.
       - intros (symbol & l & rows & Hl & Hs & Hd).
         apply elem_of_map_to_list, list_elem_of_lookup in Hl as [k Hk].
         exists k, symbol, l, rows. split; [|done].
         by apply lookup_lt_Some in Hk. }
  { split; [done|]. intros d. split; [set_solver|].
    intros (k & ? & ? & ? & ? & _); lia. }
  intros i [symbol l] D h1 Hk [-> HD].
  assert (u !! symbol = Some l) as Hl.
  { by apply elem_of_map_to_list, list_elem_of_lookup_2 with i. }
  destruct (Hu symbol l Hl) as [rows Hs].
  rewrite (collect_dates_run _ _ _ _ Hs).
  eexists _, _. split; [reflexivity|]. split; [done|].
  intros d. rewrite elem_of_union, elem_of_list_to_set, HD. split.
  - intros [Hd|(k & symbol' & l' & rows' & Hlt & Hk' & Hs' & Hd)].
    + exists i, symbol, l, rows. split; [lia|done].
    + exists k, symbol', l', rows'. split; [lia|done].
  - intros (k & symbol' & l' & rows' & Hlt & Hk' & Hs' & Hd).
    destruct (decide (k = i)) as [->|Hne].
    + left. assert (l' = l) as -> by congruence.
      assert (rows' = rows) as ->; [|done].
      eapply Forall2_unique; [done..|]. intros; congruence.
    + right. exists k, symbol', l', rows'. split; [lia|done].
Qed.

(** C6: [build_master_calendar] returns a strictly increasing, hence
    duplicate-free, sequence of dates that contains the non-null Date of
    every record of every asset, and nothing else.  The store is left as it
    was. *)
Theorem build_master_calendar_spec (h : heap) (u : gmap string (list loc)) :
  universe_in h u →
  ∃ calendar,
    build_master_calendar u h = Ok (calendar, h) ∧
    strictly_increasing calendar ∧
    NoDup calendar ∧
    (∀ symbol l ref r d,
       u !! symbol = Some l → ref ∈ l → h !! ref = Some r →
       cell_get (Date r) = Some d → d ∈ calendar) ∧
    (∀ d, d ∈ calendar →
       ∃ symbol l ref r,
         u !! symbol = Some l ∧ ref ∈ l ∧ h !! ref = Some r ∧
         cell_get (Date r) = Some d).
Proof.
  intros Hu. destruct (build_master_calendar_run h u Hu) as (D & Hrun & HD).
  exists (sorted (elements D)). split; [done|].
  split; [apply sorted_strictly_increasing, NoDup_elements|].
  split; [apply sorted_NoDup, NoDup_elements|].
  split.
  - intros symbol l ref r d Hl Hin Hh Hd.
    rewrite sorted_elem_of, elem_of_elements, HD.
    destruct (Hu symbol l Hl) as [rows Hs].
    exists symbol, l, rows. split; [done|]. split; [done|].
    apply elem_of_dates_of. exists r. split; [|done].
    apply list_elem_of_lookup in Hin as [i Hi].
    destruct (Forall2_lookup_l _ _ _ _ _ Hs Hi) as (r' & Hr' & Hh').
    assert (r' = r) as -> by congruence.
    by eapply list_elem_of_lookup_2.
  - intros d. rewrite sorted_elem_of, elem_of_elements, HD.
    intros (symbol & l & rows & Hl & Hs & Hd).
    apply elem_of_dates_of in Hd as (r & Hin & Hd).
    apply list_elem_of_lookup in Hin as [i Hi].
    destruct (Forall2_lookup_r _ _ _ _ _ Hs Hi) as (ref & Href & Hh).
    exists symbol, l, ref, r. split; [done|]. split; [|done].
    by eapply list_elem_of_lookup_2.
Qed.

(** ** align_assets_to_calendar *)

Lemma record_at_snoc rows r date :
  record_at (rows ++ [r]) date =
    if decide (cell_get (Date r) = Some date) then Some r
    else record_at rows date.
Proof.
  unfold record_at. rewrite filter_app, filter_cons, filter_nil.
  destruct (decide _).
  - by rewrite last_snoc.
  - by rewrite app_nil_r.
Qed.

Lemma record_at_Some rows date r :
  record_at rows date = Some r → r ∈ rows ∧ cell_get (Date r) = Some date.
Proof.
  unfold record_at. intros Hl.
  assert (r ∈ filter (λ r, cell_get (Date r) = Some date) rows) as Hin.
  { apply last_Some in Hl as [l' ->]. set_solver. }
  apply list_elem_of_filter in Hin. tauto.
Qed.

Lemma record_at_None rows date :
  record_at rows date = None ↔
  ∀ r, r ∈ rows → cell_get (Date r) ≠ Some date.
Proof.
  unfold record_at. rewrite last_None. split.
  - intros Hnil r Hin Hd.
    assert (r ∈ filter (λ r, cell_get (Date r) = Some date) rows) as Hf.
    { by apply list_elem_of_filter. }
    rewrite Hnil in Hf. by apply elem_of_nil in Hf.
  - intros Hall. induction rows as [|r rows IH]; [done|].
    rewrite filter_cons_False by (apply Hall; left).
    apply IH. intros r' Hin. apply Hall. by right.
Qed.

(** The loop that builds the lookup table of one asset. *)
Lemma date_to_row_run h l rows :
  series_in h l rows →
  ∃ date_to_row : gmap string row,
    for_each l
      (λ ref (date_to_row : gmap string row),
         row ← load ref;
         match cell_get (Date row) with
         | Some d => mret (<[d := row]> date_to_row)
         | None => mret date_to_row
         end)
      ∅ h
    = Ok (date_to_row, h) ∧
    ∀ date, date_to_row !! date = record_at rows date.
Proof.
  intros Hs.
  edestruct (for_each_M_inv
    (λ i (m : gmap string row) h',
       h' = h ∧ ∀ date, m !! date = record_at (take i rows) date) l)
    as (m & h' & Hrun & Hinv).
  3: { exists m. rewrite Hrun.
       rewrite (series_in_length _ _ _ Hs), firstn_all in Hinv.
       by destruct Hinv as [-> ?]. }
  { done. }
  intros i ref m h1 Hl [-> Hm].
  destruct (Forall2_lookup_l _ _ _ _ _ Hs Hl) as (r & Hr & Hh).
  unfold mbind, M_bind, load. rewrite Hh.
  rewrite (take_S_r _ _ _ Hr).
  destruct (cell_get (Date r)) as [d|] eqn:Hd; unfold mret, M_ret;
    eexists _, _; (split; [reflexivity|]); (split; [done|]);
    intros date; rewrite record_at_snoc, Hd.
  - destruct (decide (Some d = Some date)) as [[= ->]|Hne].
    + by rewrite lookup_insert_eq.
    + rewrite lookup_insert_ne by congruence. apply Hm.
  - rewrite decide_False by done. apply Hm.
Qed.

(** The loop over the calendar. *)
Lemma aligned_list_fold (date_to_row : gmap string row) rows calendar acc :
  (∀ date, date_to_row !! date = record_at rows date) →
  foldl (λ aligned_list date,
           match date_to_row !! date with
           | Some r => aligned_list ++ [r]
           | None => aligned_list ++ [placeholder date]
           end)
        acc calendar
  = acc ++ aligned_series rows calendar.
Proof.
  intros Hm. revert acc.
  induction calendar as [|date calendar IH]; intros acc; simpl.
  { by rewrite app_nil_r. }
  rewrite IH, Hm. unfold aligned_series. simpl.
  destruct (record_at rows date); simpl; by rewrite <- app_assoc.
Qed.

Lemma map_to_list_key_inj {A} (m : gmap string A) i j k x y :
  map_to_list m !! i = Some (k, x) → map_to_list m !! j = Some (k, y) → i = j.
Proof.
  intros Hi Hj.
  eapply (NoDup_lookup ((map_to_list m).*1) i j k).
  - apply NoDup_fst_map_to_list.
  - by rewrite list_lookup_fmap, Hi.
  - by rewrite list_lookup_fmap, Hj.
Qed.

Lemma align_assets_to_calendar_run h u calendar :
  universe_in h u →
  ∃ aligned : gmap string (list row),
    align_assets_to_calendar u calendar h = Ok (aligned, h) ∧
    (∀ symbol l rows,
       u !! symbol = Some l → series_in h l rows →
       aligned !! symbol = Some (aligned_series rows calendar)) ∧
    (∀ symbol, u !! symbol = None → aligned !! symbol = None).
Proof.
  intros Hu. unfold align_assets_to_calendar.
  edestruct (for_each_M_inv
    (λ i (aligned : gmap string (list row)) h',
       h' = h ∧
       (∀ k symbol l rows,
          k < i → map_to_list u !! k = Some (symbol, l) → series_in h l rows →
          aligned !! symbol = Some (aligned_series rows calendar)) ∧
       (∀ symbol,
          (∀ k l, k < i → map_to_list u !! k ≠ Some (symbol, l)) →
          aligned !! symbol = None))
    (map_to_list u)) as (aligned & h' & Hrun & Hinv).
  3: { exists aligned. rewrite Hrun. destruct Hinv as (-> & Hin & Hout).
       split; [done|]. split.
       - intros symbol l rows Hl Hs.
         apply elem_of_map_to_list, list_elem_of_lookup in Hl as [k Hk].
         apply (Hin k symbol l rows); [|done..].
         by apply lookup_lt_Some in Hk.
       - intros symbol Hnone. apply Hout. intros k l _ Hk.
         apply list_elem_of_lookup_2, elem_of_map_to_list in Hk. congruence. }
  { split; [done|]. split; [intros; lia|done]. }
  intros i [symbol l] aligned h1 Hk (-> & Hin & Hout).
  assert (u !! symbol = Some l) as Hl.
  { by apply elem_of_map_to_list, list_elem_of_lookup_2 with i. }
  destruct (Hu symbol l Hl) as [rows Hs].
  destruct (date_to_row_run h l rows Hs) as (m & Hm & Hlookup).
  rewrite (M_bind_Ok _ _ _ _ _ Hm). unfold mret, M_ret.
  rewrite (aligned_list_fold m rows calendar [] Hlookup). simpl.
  eexists _, _. split; [reflexivity|]. split; [done|]. split.
  - intros k symbol' l' rows' Hlt Hk' Hs'.
    destruct (decide (k = i)) as [->|Hne].
    + assert (symbol' = symbol ∧ l' = l) as [-> ->] by (split; congruence).
      assert (rows' = rows) as ->.
      { eapply Forall2_unique; [done..|]. intros; congruence. }
      by rewrite lookup_insert_eq.
    + rewrite lookup_insert_ne.
      * apply (Hin k symbol' l' rows'); [lia|done..].
      * intros <-. apply Hne. symmetry. by eapply map_to_list_key_inj.
  - intros symbol' Hnone. rewrite lookup_insert_ne.
    + apply Hout. intros k l' Hlt. apply Hnone. lia.
    + intros <-. by apply (Hnone i l); [lia|].
Qed.

(** C2: for every symbol of the universe, [align_assets_to_calendar] gives a
    list as long as the calendar whose [i]-th record carries the [i]-th date
    of the calendar; where the symbol has no record for that date the record
    is the placeholder with Open, High, Low, Close and Volume null, and
    otherwise it is (a copy of) a record of the symbol with that date.  The
    result has the symbols of the universe and no other, and the store is
    left as it was. *)
Theorem align_assets_to_calendar_spec (h : heap) (u : gmap string (list loc))
    (calendar : list string) :
  universe_in h u →
  ∃ aligned : gmap string (list row),
    align_assets_to_calendar u calendar h = Ok (aligned, h) ∧
    dom aligned = dom u ∧
    ∀ symbol l rows,
      u !! symbol = Some l → series_in h l rows →
      ∃ aligned_list,
        aligned !! symbol = Some aligned_list ∧
        length aligned_list = length calendar ∧
        ∀ i date, calendar !! i = Some date →
          ∃ r, aligned_list !! i = Some r ∧
               Date r = Val date ∧
               ((∀ r0, r0 ∈ rows → cell_get (Date r0) ≠ Some date) →
                r = placeholder date ∧
                Open r = Null ∧ High r = Null ∧ Low r = Null ∧
                Close r = Null ∧ Volume r = Null) ∧
               ((∃ r0, r0 ∈ rows ∧ cell_get (Date r0) = Some date) →
                r ∈ rows).
Proof.
  intros Hu.
  destruct (align_assets_to_calendar_run h u calendar Hu)
    as (aligned & Hrun & Hin & Hout).
  exists aligned. split; [done|]. split.
  { apply set_eq. intros symbol. rewrite !elem_of_dom.
    destruct (u !! symbol) as [l|] eqn:Hl.
    - destruct (Hu symbol l Hl) as [rows Hs].
      rewrite (Hin symbol l rows Hl Hs). split; eauto.
    - rewrite (Hout symbol Hl). done. }
  intros symbol l rows Hl Hs.
  exists (aligned_series rows calendar). split; [by eapply Hin|].
  unfold aligned_series. split; [by rewrite length_fmap|].
  intros i date Hi. rewrite list_lookup_fmap, Hi. simpl.
  eexists. split; [reflexivity|].
  destruct (record_at rows date) as [r|] eqn:Hr; simpl.
  - apply record_at_Some in Hr as [Hr Hd].
    split; [by apply cell_get_Some|]. split; [|done].
    intros Hnone. by destruct (Hnone r Hr).
  - split; [done|]. split; [done|].
    intros (r0 & Hr0 & Hd). rewrite record_at_None in Hr.
    by destruct (Hr r0 Hr0).
Qed.

(** ** build_master_dataset *)

Lemma string_length_app s1 s2 :
  String.length (s1 +:+ s2) = String.length s1 + String.length s2.
Proof. induction s1 as [|a s1 IH]; simpl; [done|]. by rewrite IH. Qed.

Lemma string_app_inj_r s1 s2 t : s1 +:+ t = s2 +:+ t → s1 = s2.
Proof.
  revert s2. induction s1 as [|a s1 IH]; intros [|b s2] Heq; simpl in *.
  - done.
  - apply (f_equal String.length) in Heq.
    rewrite ?string_length_app in Heq. simpl in Heq.
    rewrite ?string_length_app in Heq. lia.
  - apply (f_equal String.length) in Heq.
    rewrite ?string_length_app in Heq. simpl in Heq.
    rewrite ?string_length_app in Heq. lia.
  - injection Heq as -> Heq. f_equal. by apply IH.
Qed.

Lemma close_column_inj s1 s2 : close_column s1 = close_column s2 → s1 = s2.
Proof. apply string_app_inj_r. Qed.

Lemma close_column_not_Date s : close_column s ≠ "Date".
Proof.
  unfold close_column. intros Heq. apply (f_equal String.length) in Heq.
  rewrite string_length_app in Heq. simpl in Heq. lia.
Qed.

Lemma dict_set_fresh k v (d : pydict) :
  k ∉ d.*1 → dict_set k v d = d ++ [(k, v)].
Proof.
  induction d as [|[k' v'] d IH]; intros Hk; simpl; [done|].
  rewrite fmap_cons, not_elem_of_cons in Hk. destruct Hk as [Hne Hk].
  rewrite decide_False by done. by rewrite IH.
Qed.

Lemma dict_lookup_columns (g : string → value) symbols s :
  s ∈ symbols →
  dict_lookup (close_column s) ((λ s, (close_column s, g s)) <$> symbols)
  = Some (g s).
Proof.
  induction symbols as [|s' symbols IH]; intros Hin; [by apply elem_of_nil in Hin|].
  simpl. destruct (decide (close_column s' = close_column s)) as [Heq|Hne].
  - by apply close_column_inj in Heq as ->.
  - apply IH. apply elem_of_cons in Hin as [->|]; [done|done].
Qed.

(** The row of the master table for position [i], whose date is [date]. *)
Lemma master_row_run (aligned_data : gmap string (list row)) symbols i v n :
  NoDup symbols →
  (∀ s, s ∈ symbols → ∃ rows, aligned_data !! s = Some rows ∧ length rows = n) →
  i < n →
  for_each symbols
    (λ symbol (row : pydict),
       rows ← map_getitem aligned_data symbol;
       r ← list_getitem rows i;
       mret (dict_set (close_column symbol)
                      (value_of_num (cell_get (Close r))) row))
    [("Date", v)]
  = Ok (("Date", v) ::
        ((λ s, (close_column s, close_at aligned_data s i)) <$> symbols)).
Proof.
  intros Hnd Hall Hi.
  edestruct (for_each_result_inv
    (λ k (row : pydict),
       row = ("Date", v) ::
         ((λ s, (close_column s, close_at aligned_data s i))
            <$> take k symbols))
    symbols) as (row & Hrun & Hinv).
  3: { rewrite Hrun. by rewrite firstn_all in Hinv; subst. }
  { done. }
  intros k s row Hk ->.
  destruct (Hall s) as (rows & Hrows & Hlen); [by eapply list_elem_of_lookup_2|].
  destruct (lookup_lt_is_Some_2 rows i) as [r Hr]; [lia|].
  unfold mbind, result_bind, map_getitem, list_getitem. rewrite Hrows, Hr.
  eexists. split; [reflexivity|].
  rewrite (take_S_r _ _ _ Hk), fmap_app.
  rewrite dict_set_fresh.
  - cbn [fmap list_fmap]. unfold close_at. rewrite Hrows, Hr. reflexivity.
  - rewrite fmap_cons. simpl.
    rewrite not_elem_of_cons. split; [apply close_column_not_Date|].
    rewrite <- list_fmap_compose.
    intros (s' & Heq & Hin)%list_elem_of_fmap. simpl in Heq.
    apply close_column_inj in Heq as <-.
    apply list_elem_of_lookup in Hin as [j Hj].
    pose proof (lookup_lt_Some _ _ _ Hj) as Hlt. rewrite length_take in Hlt.
    rewrite lookup_take_lt in Hj by lia.
    pose proof (NoDup_lookup _ _ _ _ Hnd Hk Hj). lia.
Qed.

Lemma keys_elem_of {A} (d : gmap string A) s : s ∈ keys d ↔ is_Some (d !! s).
Proof.
  unfold keys. rewrite list_elem_of_fmap. split.
  - intros ([s' x] & -> & Hin). apply elem_of_map_to_list in Hin. eauto.
  - intros [x Hx]. exists (s, x). split; [done|]. by apply elem_of_map_to_list.
Qed.

Lemma keys_NoDup {A} (d : gmap string A) : NoDup (keys d).
Proof. apply NoDup_fst_map_to_list. Qed.

Lemma keys_length {A} (d : gmap string A) : length (keys d) = size d.
Proof. unfold keys. by rewrite length_fmap, length_map_to_list. Qed.

Lemma build_master_dataset_run (aligned_data : gmap string (list row))
    (calendar : list string) :
  aligned_data ≠ ∅ →
  (∀ symbol rows, aligned_data !! symbol = Some rows → aligned_to calendar rows) →
  build_master_dataset aligned_data =
    Ok (imap (λ i date,
                ("Date", VStr date) ::
                ((λ s, (close_column s, close_at aligned_data s i))
                   <$> sorted (keys aligned_data)))
             calendar).
Proof.
  intros Hne Hal. unfold build_master_dataset.
  destruct (sorted (keys aligned_data)) as [|symbol0 symbols'] eqn:Hsym.
  { exfalso. apply Hne, map_to_list_empty_iff.
    apply (f_equal length) in Hsym. rewrite sorted_length in Hsym.
    unfold keys in Hsym. rewrite length_fmap in Hsym.
    by apply nil_length_inv. }
  rewrite <- Hsym.
  assert (∀ s, s ∈ sorted (keys aligned_data) →
            ∃ rows, aligned_data !! s = Some rows ∧
                    length rows = length calendar) as Hall.
  { intros s [rows Hrows]%sorted_elem_of%keys_elem_of.
    exists rows. split; [done|]. symmetry. eapply Forall2_length, Hal, Hrows. }
  destruct (Hall symbol0) as (first & Hfirst & Hlen).
  { rewrite Hsym. left. }
  unfold mbind at 1, result_bind at 1, map_getitem at 1. rewrite Hfirst, Hlen.
  edestruct (for_each_result_inv
    (λ i (master : list pydict),
       master = imap (λ i date,
                        ("Date", VStr date) ::
                        ((λ s, (close_column s, close_at aligned_data s i))
                           <$> sorted (keys aligned_data)))
                     (take i calendar))
    (range (length calendar))) as (master & Hrun & Hinv).
  3: { rewrite Hrun. by rewrite range_length, firstn_all in Hinv; subst. }
  { done. }
  intros i x master [-> Hi]%range_lookup ->.
  destruct (lookup_lt_is_Some_2 calendar i Hi) as [date Hdate].
  destruct (Forall2_lookup_l _ _ _ _ _ (Hal _ _ Hfirst) Hdate) as (r0 & Hr0 & Hd).
  unfold mbind at 1, result_bind at 1, map_getitem at 1. rewrite Hfirst.
  unfold mbind at 1, result_bind at 1, list_getitem at 1. rewrite Hr0.
  unfold mbind at 1, result_bind at 1. rewrite Hd. simpl cell_getitem. cbv iota beta.
  unfold mbind at 1, result_bind at 1.
  rewrite (master_row_run _ _ _ _ (length calendar)); [|by apply sorted_NoDup, keys_NoDup|done|done].
  eexists. split; [reflexivity|].
  rewrite (take_S_r _ _ _ Hdate), imap_app. simpl.
  rewrite length_take_le by lia. by rewrite Nat.add_0_r.
Qed.
(** C9: [build_master_dataset] returns the empty table on the empty mapping.
    On a non-empty mapping of series aligned to one calendar it returns one
    row per date of the calendar, in order; row [i] carries the [i]-th date
    under "Date" and then, in the lexicographic order of the symbols, one
    "<symbol>_Close" key for each symbol and no other key, bound to the Close
    of that symbol's [i]-th record (null when that is null).  So there are as
    many Close columns as symbols and as many rows as dates. *)
Theorem build_master_dataset_spec (aligned_data : gmap string (list row))
    (calendar : list string) :
  (∀ symbol rows, aligned_data !! symbol = Some rows → aligned_to calendar rows) →
  build_master_dataset (∅ : gmap string (list row)) = Ok [] ∧
  (aligned_data ≠ ∅ →
   ∃ master symbols,
     build_master_dataset aligned_data = Ok master ∧
     length master = length calendar ∧
     symbols = sorted (keys aligned_data) ∧
     strictly_increasing symbols ∧
     (∀ symbol, symbol ∈ symbols ↔ is_Some (aligned_data !! symbol)) ∧
     length symbols = size aligned_data ∧
     ∀ i date, calendar !! i = Some date →
       ∃ row,
         master !! i = Some row ∧
         row.*1 = "Date" :: (close_column <$> symbols) ∧
         dict_lookup "Date" row = Some (VStr date) ∧
         ∀ symbol rows r,
           aligned_data !! symbol = Some rows → rows !! i = Some r →
           dict_lookup (close_column symbol) row =
             Some (value_of_num (cell_get (Close r)))).
Proof.
  intros Hal. split; [reflexivity|]. intros Hne.
  eexists _, (sorted (keys aligned_data)).
  split; [by apply build_master_dataset_run|].
  split; [by rewrite length_imap|]. split; [done|].
  split; [apply sorted_strictly_increasing, keys_NoDup|].
  split; [intros symbol; by rewrite sorted_elem_of, keys_elem_of|].
  split; [by rewrite sorted_length, keys_length|].
  intros i date Hdate. rewrite list_lookup_imap, Hdate. simpl.
  eexists. split; [reflexivity|]. split; [|split].
  - rewrite fmap_cons, <- list_fmap_compose. done.
  - done.
  - intros symbol rows r Hrows Hr. simpl.
    rewrite decide_False by (intros Heq; by apply (close_column_not_Date symbol)).
    rewrite (dict_lookup_columns (λ s, close_at aligned_data s i)).
    + unfold close_at. by rewrite Hrows, Hr.
    + apply sorted_elem_of, keys_elem_of. eauto.
Qed.

(** ** Missing keys *)

Lemma cell_get_null_if_absent {A} (c : cell A) :
  cell_get (null_if_absent c) = cell_get c.
Proof. by destruct c. Qed.

Lemma is_null_null_if_absent {A} (c : cell A) :
  is_null (null_if_absent c) = is_null c.
Proof. by destruct c. Qed.

Lemma null_cells_explicit r : null_cells (with_explicit_nulls r) = null_cells r.
Proof. unfold null_cells. simpl. by rewrite !is_null_null_if_absent. Qed.

Lemma series_in_explicit h l rows :
  series_in h l rows →
  series_in (with_explicit_nulls <$> h) l (with_explicit_nulls <$> rows).
Proof.
  intros Hs. apply Forall2_fmap_r. eapply Forall2_impl; [done|].
  intros ref r Hr. simpl. by rewrite lookup_fmap, Hr.
Qed.

Lemma sum_null_cells_explicit rows :
  sum_list_with null_cells (with_explicit_nulls <$> rows) =
  sum_list_with null_cells rows.
Proof.
  induction rows as [|r rows IH]; [done|].
  rewrite fmap_cons. cbn [sum_list_with].
  by rewrite null_cells_explicit, IH.
Qed.

Lemma has_null_at_explicit rows i :
  has_null_at (with_explicit_nulls <$> rows) i = has_null_at rows i.
Proof.
  unfold has_null_at. rewrite list_lookup_fmap.
  destruct (rows !! i); simpl; [|done]. by rewrite null_cells_explicit.
Qed.

Lemma kept_explicit (l : list loc) rows :
  (filter (λ p, is_null (Close p.2) = false)
          (zip l (with_explicit_nulls <$> rows))).*1 =
  (filter (λ p, is_null (Close p.2) = false) (zip l rows)).*1.
Proof.
  revert rows. induction l as [|ref l IH]; intros [|r rows]; simpl; try done.
  rewrite !filter_cons. simpl. rewrite is_null_null_if_absent.
  destruct (decide _); simpl; by rewrite IH.
Qed.

Lemma expected_anomalies_explicit i r :
  expected_anomalies i (with_explicit_nulls r) =
  explicit_snapshot <$> expected_anomalies i r.
Proof.
  unfold expected_anomalies, high_below_low, out_of_range. simpl.
  rewrite !cell_get_null_if_absent, !fmap_app.
  repeat match goal with
         | |- context [if ?b then _ else _] => destruct b
         end; reflexivity.
Qed.

Lemma anomalies_explicit rows :
  concat (imap expected_anomalies (with_explicit_nulls <$> rows)) =
  explicit_snapshot <$> concat (imap expected_anomalies rows).
Proof.
  generalize expected_anomalies_explicit. generalize expected_anomalies.
  induction rows as [|r rows IH]; intros f Hf; simpl; [done|].
  rewrite fmap_app, Hf. f_equal. apply IH. intros i r'. apply Hf.
Qed.
(** A null cell is a missing key or a key bound to [None]. *)
Lemma null_cells_absent_none r : null_cells r = absent_cells r + none_cells r.
Proof.
  unfold null_cells, absent_cells, none_cells, is_null.
  destruct (Open r), (High r), (Low r), (Close r), (Volume r); reflexivity.
Qed.

Lemma sum_list_with_add {A} (f g : A → nat) (xs : list A) :
  sum_list_with (λ x, f x + g x) xs = sum_list_with f xs + sum_list_with g xs.
Proof. induction xs as [|x xs IH]; simpl; lia. Qed.

Lemma sum_list_with_ext_absent_none rows :
  sum_list_with null_cells rows =
    sum_list_with (λ r, absent_cells r + none_cells r) rows.
Proof.
  induction rows as [|r rows IH]; simpl; [done|].
  by rewrite IH, null_cells_absent_none.
Qed.

Lemma null_cells_absent r key : row_cell key r = Absent → 0 < null_cells r.
Proof.
  unfold null_cells. destruct key; simpl; intros ->; simpl; lia.
Qed.

(** C10: a numeric key that is missing from a record is treated as one bound
    to [None], and raises nothing: on the same series with every missing
    numeric key bound to [None], [detect_missing_values] returns the same
    count and positions, [detect_inconsistencies] the same anomalies (same
    positions and kinds, in the same order) and [remove_invalid_rows] the
    same records.  The count is the number of missing keys plus the number
    of keys bound to [None], so each missing key adds one to it as each
    [None] does; the positions are those with such a key; the anomalies are
    those of the three checks, which read a missing key as [None]; the kept
    records are those whose Close is neither missing nor [None].  In
    particular a missing Open, High, Low, Close or Volume makes its position
    a position with a missing value, a missing Low or High yields no anomaly
    at its position, and a record whose Close is missing is dropped. *)
Theorem missing_key_as_null (h : heap) (l : list loc) (rows : list row) :
  series_in h l rows →
  ∃ count positions anomalies kept,
    detect_missing_values l h = Ok ((count, positions), h) ∧
    detect_inconsistencies l h = Ok (anomalies, h) ∧
    remove_invalid_rows l h = Ok (kept, h) ∧
    detect_missing_values l (with_explicit_nulls <$> h) =
      Ok ((count, positions), with_explicit_nulls <$> h) ∧
    detect_inconsistencies l (with_explicit_nulls <$> h) =
      Ok (explicit_snapshot <$> anomalies, with_explicit_nulls <$> h) ∧
    remove_invalid_rows l (with_explicit_nulls <$> h) =
      Ok (kept, with_explicit_nulls <$> h) ∧
    count = sum_list_with absent_cells rows + sum_list_with none_cells rows ∧
    (∀ i, i ∈ positions ↔
          ∃ r, rows !! i = Some r ∧ 0 < absent_cells r + none_cells r) ∧
    anomalies = concat (imap expected_anomalies rows) ∧
    kept = (filter (λ p, is_null (Close p.2) = false) (zip l rows)).*1 ∧
    (∀ i r key, rows !! i = Some r → row_cell key r = Absent →
                i ∈ positions ∧ 0 < null_cells r) ∧
    (∀ i r, rows !! i = Some r → Low r = Absent ∨ High r = Absent →
            ∀ a, a ∈ anomalies → a_index a ≠ i) ∧
    (∀ ref r, h !! ref = Some r → Close r = Absent → ref ∉ kept).
Proof.
  intros Hs. pose proof (series_in_explicit _ _ _ Hs) as Hs'.
  eexists _, _, _, _.
  split; [by apply detect_missing_values_run|].
  split; [by apply detect_inconsistencies_run|].
  split; [by apply remove_invalid_rows_run|].
  split_and!.
  - rewrite (detect_missing_values_run _ _ _ Hs').
    rewrite sum_null_cells_explicit, length_fmap. do 3 f_equal.
    apply list_filter_iff. intros i. by rewrite has_null_at_explicit.
  - rewrite (detect_inconsistencies_run _ _ _ Hs'). by rewrite anomalies_explicit.
  - rewrite (remove_invalid_rows_run _ _ _ Hs'). by rewrite kept_explicit.
  - rewrite <- sum_list_with_add. apply sum_list_with_ext_absent_none.
  - intros i. rewrite list_elem_of_filter, elem_of_seq. unfold has_null_at.
    split.
    + intros [Hnull _]. destruct (rows !! i) as [r|]; [|done].
      exists r. split; [done|]. rewrite <- null_cells_absent_none.
      destruct (null_cells r); [done|lia].
    + intros (r & Hr & Hpos). rewrite Hr.
      rewrite <- null_cells_absent_none in Hpos. split.
      * destruct (null_cells r); [lia|done].
      * apply lookup_lt_Some in Hr. lia.
  - done.
  - done.
  - intros i r key Hr Hkey. pose proof (null_cells_absent r key Hkey) as Hn.
    split; [|done]. apply list_elem_of_filter. split.
    + unfold has_null_at. rewrite Hr. destruct (null_cells r); [lia|done].
    + apply elem_of_seq. apply lookup_lt_Some in Hr. lia.
  - intros i r Hr Habs [j ty snap] Hin Hj. simpl in Hj. subst j.
    apply elem_of_concat_imap in Hin as (j & r' & Hr' & Hin).
    apply elem_of_expected_anomalies in Hin as (<- & -> & low & high & Hl & Hh & _).
    assert (r' = r) as -> by congruence.
    destruct Habs as [Ha|Ha]; rewrite Ha in *; discriminate.
  - intros ref r Hh Hc Hin.
    apply list_elem_of_fmap in Hin as ([ref' r'] & -> & [Hn Hin]%list_elem_of_filter).
    simpl in *. apply list_elem_of_lookup in Hin as [i Hi].
    apply lookup_zip_with_Some in Hi as (? & ? & [= <- <-] & Hl & Hr).
    pose proof (Forall2_lookup_lr _ _ _ _ _ _ Hs Hl Hr) as Hh'.
    assert (r' = r) as -> by congruence.
    rewrite Hc in Hn. done.
Qed.

(** ** run_etl *)

Lemma series_in_exists (h : heap) l :
  (∀ ref, ref ∈ l → is_Some (h !! ref)) → ∃ rows, series_in h l rows.
Proof.
  induction l as [|ref l IH]; intros Hall.
  { exists []. constructor. }
  destruct (Hall ref) as [r Hr]; [left|].
  destruct IH as [rows Hrows]; [intros ref' Hin; apply Hall; by right|].
  exists (r :: rows). by constructor.
Qed.

Lemma series_in_allocated (h : heap) l rows ref :
  series_in h l rows → ref ∈ l → is_Some (h !! ref).
Proof.
  intros Hs [i Hi]%list_elem_of_lookup.
  destruct (Forall2_lookup_l _ _ _ _ _ Hs Hi) as (r & _ & Hr). eauto.
Qed.

Lemma series_in_dom (h h' : heap) l rows :
  dom h' = dom h → series_in h l rows → ∃ rows', series_in h' l rows'.
Proof.
  intros Hdom Hs. apply series_in_exists. intros ref Hin.
  apply elem_of_dom. rewrite Hdom. apply elem_of_dom.
  by eapply series_in_allocated.
Qed.

Lemma series_in_sublist (h : heap) l l' rows :
  l' ⊆ l → series_in h l rows → ∃ rows', series_in h l' rows'.
Proof.
  intros Hsub Hs. apply series_in_exists. intros ref Hin.
  eapply series_in_allocated; [done|]. by apply Hsub.
Qed.

(** [clean_with_forward_fill] raises nothing and allocates nothing, whatever
    the sharing between the rows. *)
Lemma clean_with_forward_fill_safe h l rows :
  series_in h l rows →
  ∃ h', clean_with_forward_fill l h = Ok (l, h') ∧ dom h' = dom h.
Proof.
  intros Hs. unfold clean_with_forward_fill.
  destruct l as [|ref0 l0] eqn:El.
  { by exists h. }
  rewrite <- El in *. clear El ref0 l0.
  edestruct (for_each_M_inv
    (λ (i : nat) (last_valid : option num) (h' : heap), dom h' = dom h)
    (range (length l))) as (last_valid & h' & Hrun & Hinv).
  3: { exists h'. unfold mbind at 1, M_bind. by rewrite Hrun. }
  { done. }
  intros i x last_valid h1 [-> Hi]%range_lookup Hdom.
  destruct (lookup_lt_is_Some_2 l i Hi) as [ref Hl].
  assert (is_Some (h1 !! ref)) as [r Hr].
  { apply elem_of_dom. rewrite Hdom. apply elem_of_dom.
    eapply series_in_allocated; [done|]. by eapply list_elem_of_lookup_2. }
  unfold mbind at 1, M_bind, lift, list_getitem. rewrite Hl.
  unfold mbind at 1, M_bind, load. rewrite Hr.
  destruct (cell_get (Close r)) as [v|] eqn:Hc.
  - rewrite (cell_get_Some _ _ Hc). simpl. eauto.
  - destruct last_valid as [v|]; [|unfold mret, M_ret; eauto].
    unfold mbind, M_bind, store, mret, M_ret.
    eexists _, _. split; [reflexivity|].
    rewrite dom_insert_L, <- Hdom.
    apply elem_of_dom_2 in Hr. set_solver.
Qed.

(** The four steps [run_etl] applies to one asset. *)
Lemma clean_asset_run h l rows :
  series_in h l rows →
  ∃ h' cleaned,
    dom h' = dom h ∧ cleaned ⊆ l ∧
    ∀ B (k : list loc → M B),
      (_ ← detect_missing_values l;
       _ ← detect_inconsistencies l;
       _ ← clean_with_forward_fill l;
       cleaned ← remove_invalid_rows l;
       k cleaned) h = k cleaned h'.
Proof.
  intros Hs.
  destruct (clean_with_forward_fill_safe _ _ _ Hs) as (h' & Hclean & Hdom).
  destruct (series_in_dom h h' l rows Hdom Hs) as [rows' Hs'].
  eexists h', _. split; [done|]. split.
  2: { intros B k.
       rewrite (M_bind_Ok _ _ _ _ _ (detect_missing_values_run _ _ _ Hs)).
       rewrite (M_bind_Ok _ _ _ _ _ (detect_inconsistencies_run _ _ _ Hs)).
       rewrite (M_bind_Ok _ _ _ _ _ Hclean).
       by rewrite (M_bind_Ok _ _ _ _ _ (remove_invalid_rows_run _ _ _ Hs')). }
  intros ref ([ref' r] & -> & [_ Hin]%list_elem_of_filter)%list_elem_of_fmap.
  by apply elem_of_zip_l in Hin.
Qed.

Lemma universe_in_dom (h h' : heap) (u : gmap string (list loc)) :
  dom h' = dom h → universe_in h u → universe_in h' u.
Proof.
  intros Hdom Hu symbol l Hl. destruct (Hu symbol l Hl) as [rows Hs].
  by eapply series_in_dom.
Qed.

(** A dict and the list of its items. *)
Lemma items_of_elem_of (u : gmap string (list loc)) items symbol l :
  items_of u items → (symbol, l) ∈ items ↔ u !! symbol = Some l.
Proof.
  unfold items_of. intros Hitems. rewrite Hitems. apply elem_of_map_to_list.
Qed.

Lemma items_of_key_inj (u : gmap string (list loc)) items i j k x y :
  items_of u items →
  items !! i = Some (k, x) → items !! j = Some (k, y) → i = j.
Proof.
  unfold items_of. intros Hitems Hi Hj.
  eapply (NoDup_lookup (items.*1) i j k).
  - rewrite Hitems. apply NoDup_fst_map_to_list.
  - by rewrite list_lookup_fmap, Hi.
  - by rewrite list_lookup_fmap, Hj.
Qed.

Lemma map_to_list_filter_perm {A} (P : string * A → Prop)
    `{∀ kv, Decision (P kv)} (m : gmap string A) :
  map_to_list (filter P m) ≡ₚ filter P (map_to_list m).
Proof.
  rewrite map_filter_alt. apply map_to_list_to_map.
  eapply sublist_NoDup; [apply (NoDup_fst_map_to_list m)|].
  apply fmap_sublist, sublist_filter.
Qed.

Lemma items_of_filter (u : gmap string (list loc)) items
    (P : string * list loc → Prop) `{∀ kv, Decision (P kv)} :
  items_of u items → items_of (filter P u) (filter P items).
Proof.
  unfold items_of. intros Hitems. rewrite Hitems. symmetry.
  apply map_to_list_filter_perm.
Qed.

Lemma items_of_list_to_map (items : list (string * list loc)) :
  NoDup items.*1 → items_of (list_to_map items) items.
Proof. intros Hnd. unfold items_of. symmetry. by apply map_to_list_to_map. Qed.

(** The cleaning loop of [run_etl], whatever the order of the visits. *)
Lemma clean_loop_run h (u : gmap string (list loc)) items :
  items_of u items →
  universe_in h u →
  ∃ (cleaned_data : gmap string (list loc)) h',
    for_each items
      (λ '(symbol, asset_data) (cleaned_data : gmap string (list loc)),
         _ ← detect_missing_values asset_data;
         _ ← detect_inconsistencies asset_data;
         _ ← clean_with_forward_fill asset_data;
         cleaned ← remove_invalid_rows asset_data;
         mret (<[symbol := cleaned]> cleaned_data))
      ∅ h
    = Ok (cleaned_data, h') ∧
    dom h' = dom h ∧
    dom cleaned_data = dom u ∧
    universe_in h' cleaned_data.
Proof.
  intros Hitems Hu.
  edestruct (for_each_M_inv
    (λ i (cleaned_data : gmap string (list loc)) (h' : heap),
       dom h' = dom h ∧
       (∀ symbol,
          is_Some (cleaned_data !! symbol) ↔
          ∃ k l, k < i ∧ items !! k = Some (symbol, l)) ∧
       universe_in h cleaned_data)
    items) as (cleaned_data & h' & Hrun & Hinv).
  3: { exists cleaned_data, h'. split; [exact Hrun|].
       destruct Hinv as (Hdom & Hkeys & Hin). split; [done|]. split.
       - apply set_eq. intros symbol. rewrite !elem_of_dom, Hkeys. split.
         + intros (k & l & _ & Hk).
           apply list_elem_of_lookup_2, (items_of_elem_of u) in Hk; eauto.
         + intros [l Hl].
           apply (items_of_elem_of u items), list_elem_of_lookup in Hl
             as [k Hk]; [|done].
           exists k, l. split; [|done]. by apply lookup_lt_Some in Hk.
       - by apply (universe_in_dom h). }
  { split; [done|]. split.
    - intros symbol. rewrite lookup_empty. split; [by intros [? ?]|].
      intros (k & ? & ? & _); lia.
    - intros symbol l. by rewrite lookup_empty. }
  intros i [symbol l] cleaned_data h1 Hk (Hdom & Hkeys & Hin).
  assert (u !! symbol = Some l) as Hl.
  { by apply (items_of_elem_of u items), list_elem_of_lookup_2 with i. }
  destruct (Hu symbol l Hl) as [rows Hs].
  destruct (series_in_dom h h1 l rows Hdom Hs) as [rows1 Hs1].
  destruct (clean_asset_run h1 l rows1 Hs1) as (h2 & cleaned & Hdom2 & Hsub & Hrun).
  rewrite Hrun. unfold mret, M_ret.
  eexists _, _. split; [reflexivity|]. split; [congruence|]. split.
  - intros symbol'. rewrite lookup_insert_is_Some, Hkeys. split.
    + intros [<-|[Hne (k & l' & Hlt & Hk')]].
      * exists i, l. split; [lia|done].
      * exists k, l'. split; [lia|done].
    + intros (k & l' & Hlt & Hk').
      destruct (decide (symbol = symbol')) as [|Hne]; [by left|right].
      split; [done|]. exists k, l'. split; [|done].
      destruct (decide (k = i)) as [->|]; [congruence|lia].
  - intros symbol' l'. rewrite lookup_insert_Some.
    intros [[<- <-]|[Hne Hl']]; [|by eapply Hin].
    by eapply series_in_sublist.
Qed.

Lemma aligned_series_aligned_to rows calendar :
  aligned_to calendar (aligned_series rows calendar).
Proof.
  unfold aligned_to, aligned_series. apply Forall2_fmap_r, Forall_Forall2_diag.
  apply Forall_forall. intros date _. simpl.
  destruct (record_at rows date) as [r|] eqn:Hr; simpl; [|done].
  apply record_at_Some in Hr as [_ Hd]. by apply cell_get_Some.
Qed.

Lemma sorted_keys_dom {A B} (m1 : gmap string A) (m2 : gmap string B) :
  dom m1 = dom m2 → sorted (keys m1) = sorted (keys m2).
Proof.
  intros Hdom. symmetry. apply sorted_spec_unique.
  - unfold sorted. rewrite merge_sort_Permutation.
    apply NoDup_Permutation; [apply keys_NoDup..|].
    intros s. by rewrite !keys_elem_of, <- !elem_of_dom, Hdom.
  - apply Sorted_merge_sort. apply _.
Qed.

(** The three unification steps of [run_etl] on cleaned data. *)
Lemma unify_run h (cleaned_data : gmap string (list loc)) :
  universe_in h cleaned_data →
  ∃ calendar (aligned : gmap string (list row)),
    build_master_calendar cleaned_data h = Ok (calendar, h) ∧
    align_assets_to_calendar cleaned_data calendar h = Ok (aligned, h) ∧
    build_master_dataset aligned =
      Ok (imap (λ i date,
                  ("Date", VStr date) ::
                  ((λ s, (close_column s, close_at aligned s i))
                     <$> sorted (keys cleaned_data)))
               calendar) ∧
    (∀ symbol l rows,
       cleaned_data !! symbol = Some l → series_in h l rows →
       aligned !! symbol = Some (aligned_series rows calendar)).
Proof.
  intros Hu.
  destruct (build_master_calendar_run h cleaned_data Hu) as (D & Hcal & HD).
  destruct (align_assets_to_calendar_run h cleaned_data (sorted (elements D)) Hu)
    as (aligned & Hal & Hin & Hout).
  exists (sorted (elements D)), aligned.
  split; [done|]. split; [done|]. split; [|done].
  assert (dom aligned = dom cleaned_data) as Hdom.
  { apply set_eq. intros symbol. rewrite !elem_of_dom.
    destruct (cleaned_data !! symbol) as [l|] eqn:Hl.
    - destruct (Hu symbol l Hl) as [rows Hs].
      rewrite (Hin symbol l rows Hl Hs). split; eauto.
    - by rewrite (Hout symbol Hl). }
  rewrite <- (sorted_keys_dom aligned cleaned_data Hdom).
  destruct (decide (aligned = ∅)) as [->|Hne].
  - assert (D = ∅) as ->.
    { apply set_eq. intros d. rewrite HD. split; [|set_solver].
      intros (symbol & l & rows & Hl & _).
      apply elem_of_dom_2 in Hl. rewrite <- Hdom, dom_empty_L in Hl. set_solver. }
    reflexivity.
  - apply build_master_dataset_run; [done|].
    intros symbol rows Hrows.
    destruct (cleaned_data !! symbol) as [l|] eqn:Hl.
    + destruct (Hu symbol l Hl) as [rows' Hs].
      rewrite (Hin symbol l rows' Hl Hs) in Hrows. injection Hrows as <-.
      apply aligned_series_aligned_to.
    + by rewrite (Hout symbol Hl) in Hrows.
Qed.

Lemma universe_in_delete (h : heap) (u : gmap string (list loc)) symbol :
  universe_in h u → universe_in h (delete symbol u).
Proof.
  intros Hu symbol' l [_ Hl]%lookup_delete_Some. by eapply Hu.
Qed.

Lemma build_master_calendar_delete_empty h (u : gmap string (list loc)) symbol :
  universe_in h u → u !! symbol = Some [] →
  build_master_calendar (delete symbol u) h = build_master_calendar u h.
Proof.
  intros Hu Hempty.
  destruct (build_master_calendar_run h u Hu) as (D & -> & HD).
  destruct (build_master_calendar_run h _ (universe_in_delete h u symbol Hu))
    as (D' & -> & HD').
  assert (D' = D) as ->; [|done].
  apply set_eq. intros d. rewrite HD, HD'. split.
  - intros (symbol' & l & rows & [_ Hl]%lookup_delete_Some & Hs & Hd). eauto 6.
  - intros (symbol' & l & rows & Hl & Hs & Hd).
    exists symbol', l, rows. split; [|done].
    apply lookup_delete_Some. split; [|done]. intros <-.
    assert (l = []) as -> by congruence.
    apply Forall2_nil_inv_l in Hs as ->. by apply elem_of_nil in Hd.
Qed.
(** C1 (as the code has it): [run_etl] raises nothing on any downloaded
    universe, whatever the order in which its symbols were inserted and
    whatever records its series share.  A symbol whose cleaned series is
    empty contributes no date to
    the master calendar (the calendar is the one of the other symbols), yet
    it keeps its column: every row of the master table has, after "Date",
    exactly one "<symbol>_Close" key for each symbol whose downloaded series
    is non-empty, in the lexicographic order of the symbols, and the column
    of a symbol whose cleaned series is empty holds [None] in every row. *)
Theorem run_etl_spec (h : heap) (u : gmap string (list loc))
    (items : list (string * list loc)) :
  items_of u items →
  universe_in h u →
  ∃ e h' symbols,
    run_etl items h = Ok (e, h') ∧
    build_master_calendar (cleaned_data e) h' = Ok (master_calendar e, h') ∧
    length (master_dataset e) = length (master_calendar e) ∧
    symbols = sorted (keys (cleaned_data e)) ∧
    NoDup symbols ∧
    (∀ symbol, symbol ∈ symbols ↔ ∃ l, u !! symbol = Some l ∧ l ≠ []) ∧
    (∀ row, row ∈ master_dataset e →
            row.*1 = "Date" :: (close_column <$> symbols)) ∧
    (∀ symbol,
       cleaned_data e !! symbol = Some [] →
       build_master_calendar (delete symbol (cleaned_data e)) h' =
         Ok (master_calendar e, h') ∧
       symbol ∈ symbols ∧
       ∀ row, row ∈ master_dataset e →
              dict_lookup (close_column symbol) row = Some VNone).
Proof.
  intros Hitems Hu. unfold run_etl.
  set (u' := filter (λ kv : string * list loc, kv.2 ≠ []) u).
  assert (universe_in h u') as Hu'.
  { intros symbol l [Hl _]%map_lookup_filter_Some. by eapply Hu. }
  pose proof (items_of_filter u items (λ kv, kv.2 ≠ []) Hitems) as Hitems'.
  destruct (clean_loop_run h u' _ Hitems' Hu')
    as (cleaned & h' & Hloop & Hdom & Hkeys & Hin).
  destruct (unify_run h' cleaned Hin) as (calendar & aligned & Hcal & Hal & Hds & Hrows).
  eexists _, h', (sorted (keys cleaned)).
  split.
  { cbv zeta.
    rewrite (M_bind_Ok _ _ _ _ _ Hloop), (M_bind_Ok _ _ _ _ _ Hcal),
      (M_bind_Ok _ _ _ _ _ Hal).
    unfold mbind, M_bind, lift. rewrite Hds. reflexivity. }
  simpl. split; [done|]. split; [by rewrite length_imap|]. split; [done|].
  split; [apply sorted_NoDup, keys_NoDup|]. split; [|split].
  - intros symbol.
    rewrite sorted_elem_of, keys_elem_of, <- elem_of_dom, Hkeys, elem_of_dom.
    unfold u', is_Some. setoid_rewrite map_lookup_filter_Some. naive_solver.
  - intros row [i Hi]%list_elem_of_lookup. rewrite list_lookup_imap in Hi.
    destruct (calendar !! i) as [date|]; [|done]. injection Hi as <-.
    by rewrite fmap_cons, <- list_fmap_compose.
  - intros symbol Hempty.
    assert (symbol ∈ sorted (keys cleaned)) as Hsym.
    { apply sorted_elem_of, keys_elem_of. eauto. }
    split; [|split; [done|]].
    { by rewrite (build_master_calendar_delete_empty h' cleaned symbol Hin Hempty). }
    intros row [i Hi]%list_elem_of_lookup. rewrite list_lookup_imap in Hi.
    destruct (calendar !! i) as [date|] eqn:Hdate; [|done]. injection Hi as <-.
    simpl. rewrite decide_False by (intros Heq; by apply (close_column_not_Date symbol)).
    rewrite (dict_lookup_columns (λ s, close_at aligned s i)) by done.
    unfold close_at.
    rewrite (Hrows symbol [] [] Hempty) by constructor.
    unfold aligned_series. by rewrite list_lookup_fmap, Hdate.
Qed.

End proofs.

(** * The theorems at concrete inputs *)

Lemma detector_series_in :
  series_in detector_store detector_series detector_rows.
Proof. repeat constructor. Qed.

Lemma example_universe_in : universe_in example_store example_universe.
Proof.
  intros symbol l Hl. unfold example_universe in Hl.
  apply lookup_insert_Some in Hl as [[_ <-]|[_ Hl]];
    [eexists; repeat econstructor|].
  apply lookup_insert_Some in Hl as [[_ <-]|[_ Hl]];
    [eexists; repeat econstructor|].
  apply lookup_singleton_Some in Hl as [_ <-].
  eexists; repeat econstructor.
Qed.

Lemma detect_missing_values_spec_witness :
  series_in detector_store detector_series detector_rows ∧
  ∃ count positions,
    detect_missing_values detector_series detector_store =
      Ok ((count, positions), detector_store) ∧
    count = sum_list_with null_cells detector_rows ∧
    length positions ≤ 3.
Proof.
  split; [exact detector_series_in|].
  destruct (detect_missing_values_spec detector_store detector_series
              detector_rows detector_series_in)
    as (count & positions & Hrun & _ & Hcount & _ & _ & _ & Hlen).
  exists count, positions. split; [exact Hrun|]. split; [exact Hcount|].
  exact Hlen.
Defined.

Lemma remove_invalid_rows_spec_witness :
  series_in detector_store detector_series detector_rows ∧
  remove_invalid_rows detector_series detector_store =
    Ok ([1; 3]%positive, detector_store).
Proof.
  split; [exact detector_series_in|].
  destruct (remove_invalid_rows_spec detector_store detector_series
              detector_rows detector_series_in)
    as (result & Hrun & -> & _).
  exact Hrun.
Defined.

Lemma detect_inconsistencies_spec_witness :
  series_in detector_store [1%positive] [open_below_low] ∧
  detect_inconsistencies [1%positive] detector_store =
    Ok ([Anomaly 0 "Open_outside_Low_High_range" open_below_low],
        detector_store).
Proof.
  assert (series_in detector_store [1%positive] [open_below_low]) as Hs
    by (repeat constructor).
  split; [exact Hs|].
  destruct (detect_inconsistencies_spec detector_store [1%positive]
              [open_below_low] Hs)
    as (anomalies & Hrun & -> & _ & Hat).
  destruct (Hat 0 open_below_low eq_refl) as (_ & _ & Hscenario).
  rewrite Hrun.
  change (concat (imap expected_anomalies [open_below_low]))
    with (expected_anomalies 0 open_below_low ++ []).
  rewrite (Hscenario 5%Z 10%Z 6%Z 8%Z); reflexivity.
Defined.

Lemma clean_with_forward_fill_spec_witness :
  series_in example_store [3; 4]%positive
    [quote "2024-01-01" 20; no_close "2024-01-02"] ∧
  NoDup [3; 4]%positive ∧
  ∃ h' r',
    clean_with_forward_fill [3; 4]%positive example_store =
      Ok ([3; 4]%positive, h') ∧
    h' !! 4%positive = Some r' ∧
    Close r' = price 20 ∧ Open r' = price 7 ∧
    h' !! 1%positive = example_store !! 1%positive.
Proof.
  assert (series_in example_store [3; 4]%positive
            [quote "2024-01-01" 20; no_close "2024-01-02"]) as Hs
    by (repeat constructor).
  assert (NoDup [3; 4]%positive) as Hnd by compute_done.
  split; [exact Hs|]. split; [exact Hnd|].
  destruct (clean_with_forward_fill_spec example_store [3; 4]%positive _ Hs Hnd)
    as (h' & rows' & Hrun & Hs' & Hframe & Hrows).
  destruct (Hrows 1 (no_close "2024-01-02") eq_refl)
    as (r' & Hr' & (_ & Hopen & _) & _ & Hfill).
  destruct (Hfill eq_refl) as [Hnearest _].
  exists h', r'. split; [exact Hrun|]. split.
  { exact (Forall2_lookup_lr _ _ _ 1 _ _ Hs' eq_refl Hr'). }
  split.
  { apply (Hnearest 0 (quote "2024-01-01" 20) 20%Z); [lia|reflexivity..|].
    intros k rk Hk. lia. }
  split; [exact Hopen|].
  apply Hframe. compute_done.
Defined.

Lemma clean_with_forward_fill_idempotent_witness :
  series_in example_store [3; 4]%positive
    [quote "2024-01-01" 20; no_close "2024-01-02"] ∧
  NoDup [3; 4]%positive ∧
  ∃ h1 h2,
    clean_with_forward_fill [3; 4]%positive example_store =
      Ok ([3; 4]%positive, h1) ∧
    clean_with_forward_fill [3; 4]%positive h1 = Ok ([3; 4]%positive, h2) ∧
    h2 = h1.
Proof.
  assert (series_in example_store [3; 4]%positive
            [quote "2024-01-01" 20; no_close "2024-01-02"]) as Hs
    by (repeat constructor).
  assert (NoDup [3; 4]%positive) as Hnd by compute_done.
  split; [exact Hs|]. split; [exact Hnd|].
  destruct (clean_with_forward_fill_idempotent example_store [3; 4]%positive
              _ Hs Hnd) as (h1 & h2 & rows' & Hrun1 & Hrun2 & _ & _ & Heq).
  exists h1, h2. split; [exact Hrun1|]. split; [exact Hrun2|exact Heq].
Defined.

Lemma build_master_calendar_spec_witness :
  universe_in example_store example_universe ∧
  ∃ calendar,
    build_master_calendar example_universe example_store =
      Ok (calendar, example_store) ∧
    strictly_increasing calendar ∧
    "2024-01-03" ∈ calendar.
Proof.
  split; [exact example_universe_in|].
  destruct (build_master_calendar_spec example_store example_universe
              example_universe_in)
    as (calendar & Hrun & Hinc & _ & Hin & _).
  exists calendar. split; [exact Hrun|]. split; [exact Hinc|].
  apply (Hin "A" [1; 2]%positive 2%positive (quote "2024-01-03" 12));
    [reflexivity|compute_done|reflexivity..].
Defined.

Lemma align_assets_to_calendar_spec_witness :
  universe_in example_store example_universe ∧
  ∃ aligned aligned_list,
    align_assets_to_calendar example_universe example_calendar example_store =
      Ok (aligned, example_store) ∧
    aligned !! "A" = Some aligned_list ∧
    length aligned_list = 3 ∧
    aligned_list !! 1 = Some (placeholder "2024-01-02").
Proof.
  split; [exact example_universe_in|].
  destruct (align_assets_to_calendar_spec example_store example_universe
              example_calendar example_universe_in)
    as (aligned & Hrun & _ & Hal).
  destruct (Hal "A" [1; 2]%positive
              [quote "2024-01-01" 10; quote "2024-01-03" 12] eq_refl)
    as (aligned_list & HA & Hlen & Hat).
  { repeat constructor. }
  destruct (Hat 1 "2024-01-02" eq_refl) as (r & Hr & _ & Hnone & _).
  exists aligned, aligned_list.
  split; [exact Hrun|]. split; [exact HA|]. split; [exact Hlen|].
  destruct Hnone as [-> _]; [|exact Hr].
  intros r0 Hr0. apply list_elem_of_In in Hr0.
  destruct Hr0 as [<-|[<-|[]]]; discriminate.
Defined.

Lemma example_aligned_to :
  ∀ symbol rows,
    example_aligned !! symbol = Some rows → aligned_to example_calendar rows.
Proof.
  intros symbol rows Hl. unfold example_aligned in Hl.
  apply lookup_insert_Some in Hl as [[_ <-]|[_ Hl]]; [repeat constructor|].
  apply lookup_singleton_Some in Hl as [_ <-]. repeat constructor.
Qed.

Lemma build_master_dataset_spec_witness :
  (∀ symbol rows,
     example_aligned !! symbol = Some rows → aligned_to example_calendar rows) ∧
  build_master_dataset example_aligned =
    Ok [[("Date", VStr "2024-01-01"); ("A_Close", VNum 10%Z);
         ("B_Close", VNum 20%Z)];
        [("Date", VStr "2024-01-02"); ("A_Close", VNone);
         ("B_Close", VNum 20%Z)];
        [("Date", VStr "2024-01-03"); ("A_Close", VNum 12%Z);
         ("B_Close", VNone)]].
Proof.
  split; [exact example_aligned_to|].
  destruct (build_master_dataset_spec example_aligned example_calendar
              example_aligned_to) as [_ Hne].
  destruct Hne as (master & symbols & Hrun & _); [compute_done|].
  vm_compute. reflexivity.
Defined.

Lemma missing_key_as_null_witness :
  series_in detector_store detector_series detector_rows ∧
  ∃ count positions anomalies kept,
    detect_missing_values detector_series detector_store =
      Ok ((count, positions), detector_store) ∧
    detect_inconsistencies detector_series detector_store =
      Ok (anomalies, detector_store) ∧
    remove_invalid_rows detector_series detector_store =
      Ok (kept, detector_store) ∧
    count = 4 ∧
    2 ∈ positions ∧
    (∀ a, a ∈ anomalies → a_index a ≠ 2).
Proof.
  split; [exact detector_series_in|].
  destruct (missing_key_as_null detector_store detector_series detector_rows
              detector_series_in)
    as (count & positions & anomalies & kept & Hmissing & Hanomalies & Hkept
        & _ & _ & _ & Hcount & _ & _ & _ & Hpos & Hskip & _).
  exists count, positions, anomalies, kept.
  split; [exact Hmissing|]. split; [exact Hanomalies|]. split; [exact Hkept|].
  split; [rewrite Hcount; reflexivity|]. split.
  - exact (proj1 (Hpos 2 sparse KLow eq_refl eq_refl)).
  - exact (Hskip 2 sparse eq_refl (or_introl eq_refl)).
Defined.

Lemma example_items_of : items_of example_universe example_items.
Proof. apply items_of_list_to_map. compute_done. Qed.

Lemma run_etl_spec_witness :
  items_of example_universe example_items ∧
  universe_in example_store example_universe ∧
  ∃ e h',
    run_etl example_items example_store = Ok (e, h') ∧
    master_calendar e = example_calendar ∧
    length (master_dataset e) = 3.
Proof.
  split; [exact example_items_of|]. split; [exact example_universe_in|].
  destruct (run_etl_spec example_store example_universe example_items
              example_items_of example_universe_in)
    as (e & h' & symbols & Hrun & _ & Hlen & _).
  exists e, h'. split; [exact Hrun|].
  assert (master_calendar <$> returned (run_etl example_items example_store)
          = Some example_calendar) as Hcal by (vm_compute; reflexivity).
  rewrite Hrun in Hcal. injection Hcal as Hcal.
  split; [exact Hcal|]. rewrite Hlen, Hcal. reflexivity.
Defined.

(** Asset C has no usable record after cleaning, and the master table still
    has its column, empty: C1 as the specification states it fails here. *)
Lemma run_etl_keeps_empty_asset_column :
  (cleaned_data <$> returned (run_etl example_items example_store))
    ≫= (.!! "C") = Some [] ∧
  master_dataset <$> returned (run_etl example_items example_store) =
    Some [[("Date", VStr "2024-01-01"); ("A_Close", VNum 10%Z);
           ("B_Close", VNum 20%Z); ("C_Close", VNone)];
          [("Date", VStr "2024-01-02"); ("A_Close", VNone);
           ("B_Close", VNum 20%Z); ("C_Close", VNone)];
          [("Date", VStr "2024-01-03"); ("A_Close", VNum 12%Z);
           ("B_Close", VNone); ("C_Close", VNone)]].
Proof. split; vm_compute; reflexivity. Qed.

Section engine_behaviour.
Context `{PyNumber}.

(** * The engine beyond the specification *)

(** ** clean_with_forward_fill, whatever the sharing *)

Lemma clean_with_forward_fill_frame_run h l rows :
  series_in h l rows →
  ∃ h', clean_with_forward_fill l h = Ok (l, h') ∧
        (∀ ref, ref ∉ l → h' !! ref = h !! ref) ∧
        (∀ ref, h !! ref = None → h' !! ref = None) ∧
        (∀ ref r, h !! ref = Some r →
           ∃ r', h' !! ref = Some r' ∧
                 (is_null (Close r) = false → r' = r) ∧
                 (is_null (Close r') = true → r' = r) ∧
                 (r' = r ∨ ∃ v, r' = set_Close v r)).
Proof.
  intros Hs. unfold clean_with_forward_fill.
  destruct l as [|ref0 l0] eqn:El.
  { exists h. split; [done|]. split; [done|]. split; [done|]. eauto 6. }
  rewrite <- El in *. clear El ref0 l0.
  edestruct (for_each_M_inv
    (λ (i : nat) (last_valid : option num) (h' : heap),
       (∀ ref, ref ∉ l → h' !! ref = h !! ref) ∧
       (∀ ref, h !! ref = None → h' !! ref = None) ∧
       (∀ ref r, h !! ref = Some r →
          ∃ r', h' !! ref = Some r' ∧
                (is_null (Close r) = false → r' = r) ∧
                (is_null (Close r') = true → r' = r) ∧
                (r' = r ∨ ∃ v, r' = set_Close v r)))
    (range (length l))) as (last_valid & h' & Hrun & Hinv).
  3: { exists h'. unfold mbind at 1, M_bind. by rewrite Hrun. }
  { split; [done|]. split; [done|]. eauto 6. }
  intros i x last_valid h1 [-> Hi]%range_lookup (Hframe & Hnone & Hrows).
  destruct (lookup_lt_is_Some_2 l i Hi) as [ref Hl].
  destruct (series_in_allocated h l rows ref Hs) as [r0 Hr0];
    [by eapply list_elem_of_lookup_2|].
  destruct (Hrows ref r0 Hr0) as (r & Hr & Hkeep & Hnull & Hshape).
  unfold mbind at 1, M_bind, lift, list_getitem. rewrite Hl.
  unfold mbind at 1, M_bind, load. rewrite Hr.
  destruct (cell_get (Close r)) as [v|] eqn:Hc.
  - rewrite (cell_get_Some _ _ Hc). simpl. eauto 6.
  - destruct last_valid as [v|]; [|unfold mret, M_ret; eauto 6].
    unfold mbind, M_bind, store, mret, M_ret.
    eexists _, _. split; [reflexivity|].
    assert (r = r0) as -> by (apply Hnull; unfold is_null; by rewrite Hc).
    split; [|split].
    + intros ref' Hnot. rewrite lookup_insert_ne; [by apply Hframe|].
      intros ->. apply Hnot. by eapply list_elem_of_lookup_2.
    + intros ref' Hn. rewrite lookup_insert_ne; [by apply Hnone|congruence].
    + intros ref' r' Hr'. destruct (decide (ref = ref')) as [<-|Hne].
      * rewrite lookup_insert_eq. assert (r' = r0) as -> by congruence.
        eexists. split; [done|]. unfold is_null. simpl. rewrite Hc.
        split; [done|]. split; [done|]. eauto.
      * rewrite lookup_insert_ne by done. by apply Hrows.
Qed.

(** X1: [clean_with_forward_fill] on any list of records of the store, also
    one that holds the same record object at several positions: it raises
    nothing, returns the list it was given, creates and deletes no object,
    leaves the objects outside the list alone, leaves a record whose Close is
    non-null exactly as it was, writes no field other than Close, and never
    makes a Close null.  When no record of the list has a null Close the
    store is unchanged. *)
Theorem clean_with_forward_fill_frame (h : heap) (l : list loc)
    (rows : list row) :
  series_in h l rows →
  ∃ h',
    clean_with_forward_fill l h = Ok (l, h') ∧
    dom h' = dom h ∧
    (∀ ref, ref ∉ l → h' !! ref = h !! ref) ∧
    (∀ ref r, h !! ref = Some r →
       ∃ r', h' !! ref = Some r' ∧
             Date r' = Date r ∧ Open r' = Open r ∧ High r' = High r ∧
             Low r' = Low r ∧ Volume r' = Volume r ∧
             (is_null (Close r) = false → r' = r) ∧
             (is_null (Close r') = true → r' = r)) ∧
    ((∀ r, r ∈ rows → is_null (Close r) = false) → h' = h).
Proof.
  intros Hs.
  destruct (clean_with_forward_fill_frame_run h l rows Hs)
    as (h' & Hrun & Hframe & Hnone & Hrows).
  exists h'. split; [done|]. split; [|split; [done|split]].
  - apply set_eq. intros ref. rewrite !elem_of_dom.
    destruct (h !! ref) as [r|] eqn:Hr.
    + destruct (Hrows ref r Hr) as (r' & -> & _). split; eauto.
    + by rewrite (Hnone ref Hr).
  - intros ref r Hr.
    destruct (Hrows ref r Hr) as (r' & Hr' & Hkeep & Hnull & Hshape).
    exists r'. split; [exact Hr'|].
    by destruct Hshape as [->|[v ->]].
  - intros Hall. apply map_eq. intros ref.
    destruct (decide (ref ∈ l)) as [Hin|Hnot]; [|by apply Hframe].
    apply list_elem_of_lookup in Hin as [i Hi].
    destruct (Forall2_lookup_l _ _ _ _ _ Hs Hi) as (r & Hr & Hh).
    destruct (Hrows ref r Hh) as (r' & -> & Hkeep & _).
    rewrite Hh. f_equal. apply Hkeep, Hall. by eapply list_elem_of_lookup_2.
Qed.

(** ** remove_invalid_rows, again *)

(** X2: [remove_invalid_rows] applied to its own result returns that result
    again, and the result is never longer than the input. *)
Theorem remove_invalid_rows_idempotent (h : heap) (l : list loc)
    (rows : list row) :
  series_in h l rows →
  ∃ result,
    remove_invalid_rows l h = Ok (result, h) ∧
    remove_invalid_rows result h = Ok (result, h) ∧
    length result ≤ length l.
Proof.
  intros Hs.
  pose (kept := filter (λ p : loc * row, is_null (Close p.2) = false)
                       (zip l rows)).
  assert (series_in h kept.*1 kept.*2) as Hs'.
  { apply Forall2_fmap. apply Forall_Forall2_diag, Forall_forall.
    intros [ref r] [_ Hin]%list_elem_of_filter. simpl.
    apply list_elem_of_lookup in Hin as [i Hi].
    apply lookup_zip_with_Some in Hi as (? & ? & [= <- <-] & Hl & Hr).
    by eapply Forall2_lookup_lr in Hs. }
  exists kept.*1. split; [by apply remove_invalid_rows_run|]. split.
  - rewrite (remove_invalid_rows_run _ _ _ Hs'). do 2 f_equal.
    rewrite zip_fst_snd. f_equal. unfold kept.
    rewrite list_filter_filter. apply list_filter_iff. tauto.
  - rewrite length_fmap. etrans; [apply length_filter|].
    rewrite length_zip_with. lia.
Qed.

(** ** Forward fill, then removal *)

Lemma leading_nulls_le rows : leading_nulls rows ≤ length rows.
Proof.
  induction rows as [|r rows IH]; simpl; [done|].
  destruct (is_null (Close r)); lia.
Qed.

Lemma leading_nulls_before rows j r :
  j < leading_nulls rows → rows !! j = Some r → is_null (Close r) = true.
Proof.
  revert j. induction rows as [|r0 rows IH]; intros j Hj Hr; simpl in *; [lia|].
  destruct (is_null (Close r0)) eqn:Hn; [|lia].
  destruct j as [|j]; simpl in Hr; [congruence|].
  apply (IH j); [lia|done].
Qed.

Lemma leading_nulls_at rows :
  leading_nulls rows < length rows →
  ∃ r, rows !! leading_nulls rows = Some r ∧ is_null (Close r) = false.
Proof.
  induction rows as [|r0 rows IH]; simpl; [lia|].
  destruct (is_null (Close r0)) eqn:Hn; intros Hlt.
  - apply IH. lia.
  - eauto.
Qed.

Lemma last_valid_close_is_Some rows i j rj :
  j < i → i ≤ length rows →
  rows !! j = Some rj → is_null (Close rj) = false →
  is_Some (last_valid_close (take i rows)).
Proof.
  intros Hji Hlen Hj Hn. induction i as [|i IH]; [lia|].
  destruct (lookup_lt_is_Some_2 rows i) as [r Hr]; [lia|].
  rewrite (take_S_r _ _ _ Hr), last_valid_close_snoc.
  destruct (cell_get (Close r)) as [v|] eqn:Hc; [eauto|].
  destruct (decide (i = j)) as [->|Hne].
  - assert (r = rj) as -> by congruence. unfold is_null in Hn.
    by rewrite Hc in Hn.
  - apply IH; lia.
Qed.

(** After the fill, the null Closes are those of the leading run. *)
Lemma forward_filled_null_iff rows i r :
  forward_filled rows !! i = Some r →
  is_null (Close r) = false ↔ leading_nulls rows ≤ i.
Proof.
  rewrite forward_filled_lookup. intros Hi.
  destruct (rows !! i) as [r0|] eqn:Hr0; [|done]. injection Hi as <-.
  pose proof (lookup_lt_Some _ _ _ Hr0) as Hlt.
  destruct (decide (leading_nulls rows ≤ i)) as [Hle|Hgt].
  - split; [done|intros _].
    destruct (leading_nulls_at rows) as (rk & Hk & Hnk); [lia|].
    unfold fill.
    destruct (cell_get (Close r0)) as [v|] eqn:Hc.
    { unfold is_null. by rewrite Hc. }
    destruct (decide (leading_nulls rows = i)) as [Heq|Hne].
    { rewrite Heq in Hk. assert (rk = r0) as -> by congruence.
      unfold is_null in Hnk. by rewrite Hc in Hnk. }
    destruct (last_valid_close_is_Some rows i (leading_nulls rows) rk)
      as [v Hv]; [lia|lia|done|done|].
    rewrite Hv. done.
  - split; [|lia]. intros Hn. exfalso.
    rewrite last_valid_close_none in Hn.
    + unfold fill in Hn.
      assert (is_null (Close r0) = true) as Hr0n
        by (apply (leading_nulls_before rows i); [lia|done]).
      destruct (cell_get (Close r0)); congruence.
    + intros j rj Hj. apply leading_nulls_before. lia.
Qed.

Lemma filter_drop {A} (P : A → Prop) `{∀ x, Decision (P x)} (xs : list A) k :
  (∀ j x, xs !! j = Some x → P x ↔ k ≤ j) → filter P xs = drop k xs.
Proof.
  revert k. induction xs as [|x xs IH]; intros k Hk; [by rewrite drop_nil|].
  rewrite filter_cons. destruct k as [|k].
  - rewrite decide_True by (apply (Hk 0); [done|lia]).
    rewrite (IH 0); [done|]. intros j y Hy.
    rewrite (Hk (S j) y Hy). lia.
  - rewrite decide_False by (rewrite (Hk 0 x eq_refl); lia).
    simpl. apply IH. intros j y Hy. rewrite (Hk (S j) y Hy). lia.
Qed.

Lemma remove_after_fill_run h l rows :
  series_in h l (forward_filled rows) →
  remove_invalid_rows l h = Ok (drop (leading_nulls rows) l, h).
Proof.
  intros Hs. rewrite (remove_invalid_rows_run _ _ _ Hs). do 2 f_equal.
  rewrite (filter_drop _ _ (leading_nulls rows)).
  - rewrite fmap_drop, fst_zip; [done|].
    by rewrite (series_in_length _ _ _ Hs).
  - intros j [ref r] Hj. simpl.
    apply lookup_zip_with_Some in Hj as (? & ? & [= <- <-] & _ & Hr).
    by apply forward_filled_null_iff.
Qed.

Lemma clean_then_remove_run h l rows :
  series_in h l rows → NoDup l →
  ∃ h', (_ ← clean_with_forward_fill l; remove_invalid_rows l) h =
          Ok (drop (leading_nulls rows) l, h') ∧
        series_in h' l (forward_filled rows) ∧
        (∀ ref, ref ∉ l → h' !! ref = h !! ref).
Proof.
  intros Hs Hnd.
  destruct (clean_with_forward_fill_run h l rows Hs Hnd)
    as (h' & Hclean & Hs' & Hframe).
  exists h'. split; [|done].
  by rewrite (M_bind_Ok _ _ _ _ _ Hclean), (remove_after_fill_run _ _ _ Hs').
Qed.

(** X3: on a series of distinct records, forward fill followed by
    [remove_invalid_rows] (the two steps [run_etl] applies to each asset)
    drops exactly the run of null-Close records the series starts with and
    keeps every later record, in order, with its Close filled; so the number
    of rows [run_etl] reports as removed, [len(asset_data) - len(cleaned)],
    is the length of that leading run. *)
Theorem clean_then_remove_leading_run (h : heap) (l : list loc)
    (rows : list row) :
  series_in h l rows → NoDup l →
  ∃ h' cleaned,
    (_ ← clean_with_forward_fill l; remove_invalid_rows l) h
      = Ok (cleaned, h') ∧
    cleaned = drop (leading_nulls rows) l ∧
    series_in h' cleaned (drop (leading_nulls rows) (forward_filled rows)) ∧
    length l - length cleaned = leading_nulls rows ∧
    (∀ i r, rows !! i = Some r → leading_nulls rows ≤ i →
            ∃ r' v, forward_filled rows !! i = Some r' ∧
                    cell_get (Close r') = Some v).
Proof.
  intros Hs Hnd.
  destruct (clean_then_remove_run h l rows Hs Hnd) as (h' & Hrun & Hs' & _).
  exists h', (drop (leading_nulls rows) l).
  split; [done|]. split; [done|]. split; [by apply Forall2_drop|]. split.
  - rewrite length_drop. pose proof (leading_nulls_le rows).
    rewrite (series_in_length _ _ _ Hs). lia.
  - intros i r Hr Hle.
    assert (is_Some (forward_filled rows !! i)) as [r' Hr'].
    { apply lookup_lt_is_Some. rewrite forward_filled_length.
      by eapply lookup_lt_Some. }
    pose proof (proj2 (forward_filled_null_iff rows i r' Hr') Hle) as Hn.
    unfold is_null in Hn. destruct (cell_get (Close r')) as [v|] eqn:Hc; [|done].
    eauto.
Qed.

(** ** The detectors, again *)

Lemma null_cells_le r : null_cells r ≤ 5.
Proof.
  unfold null_cells.
  destruct (is_null (Open r)), (is_null (High r)), (is_null (Low r)),
    (is_null (Close r)), (is_null (Volume r)); simpl; lia.
Qed.

Lemma missing_bounds_prefix rows i :
  i ≤ length rows →
  length (filter (λ j, has_null_at rows j) (seq 0 i))
    ≤ sum_list_with null_cells (take i rows) ∧
  sum_list_with null_cells (take i rows)
    ≤ 5 * length (filter (λ j, has_null_at rows j) (seq 0 i)).
Proof.
  induction i as [|i IH]; intros Hi.
  { rewrite take_0. simpl. lia. }
  destruct (lookup_lt_is_Some_2 rows i) as [r Hr]; [lia|].
  rewrite (take_S_r _ _ _ Hr), sum_list_with_app, seq_S, filter_app,
    filter_cons, filter_nil, length_app.
  cbn [plus sum_list_with].
  assert (has_null_at rows i = negb (null_cells r =? 0)) as ->.
  { unfold has_null_at. by rewrite Hr. }
  pose proof (null_cells_le r). destruct IH as [IH1 IH2]; [lia|].
  destruct (null_cells r) as [|n]; simpl; lia.
Qed.

(** X4: the count [detect_missing_values] returns is at least the number of
    positions it returns and at most five times that number: every listed
    position has between one and five null cells. *)
Theorem detect_missing_values_bounds (h : heap) (l : list loc)
    (rows : list row) :
  series_in h l rows →
  ∃ count positions,
    detect_missing_values l h = Ok ((count, positions), h) ∧
    length positions ≤ count ∧
    count ≤ 5 * length positions ∧
    (count = 0 ↔ positions = []).
Proof.
  intros Hs. eexists _, _. split; [by apply detect_missing_values_run|].
  pose proof (missing_bounds_prefix rows (length rows) (le_n _)) as [H1 H2].
  rewrite firstn_all in H1, H2. split; [done|]. split; [done|].
  split.
  - intros Hz. apply nil_length_inv. lia.
  - intros Hnil. rewrite Hnil in H2. simpl in H2. lia.
Qed.

Lemma expected_anomalies_index i r a :
  a ∈ expected_anomalies i r → a_index a = i ∧ a_row a = r.
Proof.
  destruct a as [j ty snap]. intros Ha.
  apply elem_of_expected_anomalies in Ha as (-> & -> & _). done.
Qed.

Lemma expected_anomalies_length i r : length (expected_anomalies i r) ≤ 3.
Proof.
  unfold expected_anomalies. rewrite !length_app.
  repeat match goal with
         | |- context [if ?b then _ else _] => destruct b
         end; simpl; lia.
Qed.

Lemma anomalies_ordered (f : nat → row → list anomaly) rows k :
  (∀ i r a, a ∈ f i r → a_index a = k + i) →
  ∀ i j a b, i < j →
    concat (imap f rows) !! i = Some a → concat (imap f rows) !! j = Some b →
    a_index a ≤ a_index b.
Proof.
  revert f k. induction rows as [|r rows IH]; intros f k Hf i j a b Hij Ha Hb.
  { done. }
  simpl in Ha, Hb.
  assert (∀ c, c ∈ concat (imap (f ∘ S) rows) → k < a_index c) as Hlater.
  { intros c (i' & r' & _ & Hc)%elem_of_concat_imap.
    simpl in Hc. rewrite (Hf _ _ _ Hc). lia. }
  destruct (decide (j < length (f 0 r))) as [Hj|Hj].
  - rewrite lookup_app_l in Ha, Hb by lia.
    apply list_elem_of_lookup_2, Hf in Ha, Hb. lia.
  - rewrite lookup_app_r in Hb by lia.
    destruct (decide (i < length (f 0 r))) as [Hi|Hi].
    + rewrite lookup_app_l in Ha by lia.
      apply list_elem_of_lookup_2, Hf in Ha.
      apply list_elem_of_lookup_2, Hlater in Hb. lia.
    + rewrite lookup_app_r in Ha by lia.
      apply (IH (f ∘ S) (S k)) with (i - length (f 0 r)) (j - length (f 0 r));
        [|lia|done..].
      intros i' r' c Hc. simpl in Hc. rewrite (Hf _ _ _ Hc). lia.
Qed.

Lemma anomalies_length (f : nat → row → list anomaly) rows :
  (∀ i r, length (f i r) ≤ 3) →
  length (concat (imap f rows)) ≤ 3 * length rows.
Proof.
  revert f. induction rows as [|r rows IH]; intros f Hf; simpl; [lia|].
  rewrite length_app. specialize (IH (f ∘ S)). specialize (Hf 0 r) as Hr.
  assert (length (concat (imap (f ∘ S) rows)) ≤ 3 * length rows)
    by (apply IH; intros; apply Hf).
  lia.
Qed.

Lemma filter_none {A} (P : A → Prop) `{∀ x, Decision (P x)} (xs : list A) :
  (∀ x, x ∈ xs → ¬ P x) → filter P xs = [].
Proof.
  induction xs as [|x xs IH]; intros Hnone; [done|].
  rewrite filter_cons, decide_False by (apply Hnone; left).
  apply IH. intros y Hy. apply Hnone. by right.
Qed.

(** The entries of one position. *)
Lemma anomalies_per_record (f : nat → row → list anomaly) rows k i :
  (∀ j r a, a ∈ f j r → a_index a = k + j) →
  (∀ j r, length (f j r) ≤ 3) →
  length (filter (λ a, a_index a = i) (concat (imap f rows))) ≤ 3 ∧
  (i < k → filter (λ a, a_index a = i) (concat (imap f rows)) = []).
Proof.
  revert f k. induction rows as [|r rows IH]; intros f k Hf Hlen.
  { split; [simpl; lia|done]. }
  destruct (IH (f ∘ S) (S k)) as [IH1 IH2].
  { intros j r' a Ha. simpl in Ha. rewrite (Hf _ _ _ Ha). lia. }
  { intros j r'. apply Hlen. }
  cbn [imap concat]. rewrite filter_app, length_app.
  destruct (decide (i = k)) as [->|Hne].
  - rewrite IH2 by lia. split; [|lia]. simpl. rewrite Nat.add_0_r.
    etrans; [apply length_filter|apply Hlen].
  - rewrite (filter_none _ (f 0 r)).
    2: { intros a Ha Hi. rewrite (Hf _ _ _ Ha) in Hi. lia. }
    split; [done|]. intros Hlt. apply IH2. lia.
Qed.

(** X5: the list [detect_inconsistencies] returns is ordered by position
    (anomalies of an earlier record come first), holds at most three entries
    for each position, hence at most three times as many entries as the
    series has records, and every entry carries a position of the series
    together with a copy of the record at that position. *)
Theorem detect_inconsistencies_ordered (h : heap) (l : list loc)
    (rows : list row) :
  series_in h l rows →
  ∃ anomalies,
    detect_inconsistencies l h = Ok (anomalies, h) ∧
    (∀ i, length (filter (λ a, a_index a = i) anomalies) ≤ 3) ∧
    length anomalies ≤ 3 * length l ∧
    (∀ i j a b, i < j → anomalies !! i = Some a → anomalies !! j = Some b →
                a_index a ≤ a_index b) ∧
    (∀ a, a ∈ anomalies → rows !! a_index a = Some (a_row a)).
Proof.
  intros Hs. eexists. split; [by apply detect_inconsistencies_run|].
  split; [|split; [|split]].
  - intros i. apply (anomalies_per_record expected_anomalies rows 0 i).
    + intros j r a Ha. by apply expected_anomalies_index in Ha as [-> _].
    + apply expected_anomalies_length.
  - rewrite (series_in_length _ _ _ Hs).
    apply anomalies_length, expected_anomalies_length.
  - apply (anomalies_ordered expected_anomalies rows 0).
    intros i r a Ha. by apply expected_anomalies_index in Ha as [-> _].
  - intros a (i & r & Hr & Ha)%elem_of_concat_imap.
    by apply expected_anomalies_index in Ha as [-> ->].
Qed.

(** ** align_assets_to_calendar, again *)

Lemma record_at_last rows j r date :
  rows !! j = Some r → cell_get (Date r) = Some date →
  (∀ j' r', j < j' → rows !! j' = Some r' → cell_get (Date r') ≠ Some date) →
  record_at rows date = Some r.
Proof.
  intros Hj Hd Hlater. unfold record_at.
  rewrite <- (take_drop_middle rows j r Hj), filter_app, filter_cons.
  rewrite decide_True by done.
  assert (filter (λ r0, cell_get (Date r0) = Some date) (drop (S j) rows) = [])
    as ->.
  { apply list_eq. intros k. rewrite lookup_nil.
    destruct (filter _ _ !! k) as [r'|] eqn:Hk; [|done]. exfalso.
    apply list_elem_of_lookup_2, list_elem_of_filter in Hk as [Hd' Hin].
    apply list_elem_of_lookup in Hin as [k' Hk']. rewrite lookup_drop in Hk'.
    apply (Hlater (S j + k') r'); [lia|done..]. }
  by rewrite last_snoc.
Qed.

(** X6: when a series holds several records with the same date, the aligned
    list carries the last of them at every calendar position with that date
    (the earlier ones are overwritten in the lookup table); a record whose
    date no later record repeats is found, as a copy, at every calendar
    position that holds its date. *)
Theorem align_assets_to_calendar_last_wins (h : heap)
    (u : gmap string (list loc)) (calendar : list string) :
  universe_in h u →
  ∃ aligned : gmap string (list row),
    align_assets_to_calendar u calendar h = Ok (aligned, h) ∧
    ∀ symbol l rows,
      u !! symbol = Some l → series_in h l rows →
      ∃ aligned_list,
        aligned !! symbol = Some aligned_list ∧
        ∀ i date j r,
          calendar !! i = Some date →
          rows !! j = Some r → cell_get (Date r) = Some date →
          (∀ j' r', j < j' → rows !! j' = Some r' →
                    cell_get (Date r') ≠ Some date) →
          aligned_list !! i = Some r.
Proof.
  intros Hu.
  destruct (align_assets_to_calendar_run h u calendar Hu)
    as (aligned & Hrun & Hin & _).
  exists aligned. split; [done|].
  intros symbol l rows Hl Hs. eexists. split; [by eapply Hin|].
  intros i date j r Hi Hj Hd Hlater. unfold aligned_series.
  rewrite list_lookup_fmap, Hi. simpl.
  by rewrite (record_at_last rows j r date).
Qed.

(** ** build_master_dataset on series of unequal length *)

Lemma for_each_result_only {A St} (e : exn) (xs : list A)
    (body : A → St → result St) s :
  (∀ x s, x ∈ xs → (∃ s', body x s = Ok s') ∨ body x s = Raise e) →
  (∃ s', for_each xs body s = Ok s') ∨ for_each xs body s = Raise e.
Proof.
  revert s. induction xs as [|x xs IH]; intros s Hbody; simpl.
  { left. by eexists. }
  unfold mbind, result_bind.
  destruct (Hbody x s) as [[s1 ->]| ->]; [left|..|by right].
  apply IH. intros y s2 Hy. apply Hbody. by right.
Qed.

Lemma for_each_result_Ok_each {A St} (xs : list A)
    (body : A → St → result St) s s' x :
  for_each xs body s = Ok s' → x ∈ xs → ∃ s1 s2, body x s1 = Ok s2.
Proof.
  revert s. induction xs as [|y xs IH]; intros s Hrun Hx.
  { by apply elem_of_nil in Hx. }
  simpl in Hrun. unfold mbind, result_bind in Hrun.
  destruct (body y s) as [s1|] eqn:Hy; [|done].
  apply elem_of_cons in Hx as [->|Hx]; [eauto|]. by eapply IH.
Qed.

Lemma first_symbol_Some (aligned_data : gmap string (list row)) symbol0 :
  first_symbol aligned_data = Some symbol0 →
  ∃ rest, sorted (keys aligned_data) = symbol0 :: rest ∧
          is_Some (aligned_data !! symbol0).
Proof.
  unfold first_symbol. intros Hhead.
  destruct (sorted (keys aligned_data)) as [|s rest] eqn:Hsym; [done|].
  injection Hhead as ->. exists rest. split; [done|].
  apply keys_elem_of, sorted_elem_of. rewrite Hsym. left.
Qed.

(** The entry of one symbol in the row for position [i]. *)
Lemma column_step (aligned_data : gmap string (list row)) i symbol
    (row : pydict) :
  (rows ← map_getitem aligned_data symbol;
   r ← list_getitem rows i;
   mret (dict_set (close_column symbol)
                  (value_of_num (cell_get (Close r))) row))
  = match aligned_data !! symbol with
    | None => Raise KeyError
    | Some rows =>
      match rows !! i with
      | None => Raise IndexError
      | Some r => Ok (dict_set (close_column symbol)
                               (value_of_num (cell_get (Close r))) row)
      end
    end.
Proof.
  unfold mbind, result_bind, map_getitem, list_getitem.
  destruct (aligned_data !! symbol) as [rows|]; [|done].
  by destruct (rows !! i).
Qed.

Lemma master_row_run_at (aligned_data : gmap string (list row)) symbols i v :
  NoDup symbols →
  (∀ s, s ∈ symbols →
        ∃ rows, aligned_data !! s = Some rows ∧ i < length rows) →
  for_each symbols
    (λ symbol (row : pydict),
       rows ← map_getitem aligned_data symbol;
       r ← list_getitem rows i;
       mret (dict_set (close_column symbol)
                      (value_of_num (cell_get (Close r))) row))
    [("Date", v)]
  = Ok (("Date", v) ::
        ((λ s, (close_column s, close_at aligned_data s i)) <$> symbols)).
Proof.
  intros Hnd Hall.
  edestruct (for_each_result_inv
    (λ k (row : pydict),
       row = ("Date", v) ::
         ((λ s, (close_column s, close_at aligned_data s i))
            <$> take k symbols))
    symbols) as (row & Hrun & Hinv).
  3: { rewrite Hrun. by rewrite firstn_all in Hinv; subst. }
  { done. }
  intros k s row Hk ->.
  destruct (Hall s) as (rows & Hrows & Hlen); [by eapply list_elem_of_lookup_2|].
  destruct (lookup_lt_is_Some_2 rows i Hlen) as [r Hr].
  rewrite column_step, Hrows, Hr.
  eexists. split; [reflexivity|].
  rewrite (take_S_r _ _ _ Hk), fmap_app.
  rewrite dict_set_fresh.
  - cbn [fmap list_fmap]. unfold close_at. rewrite Hrows, Hr. reflexivity.
  - rewrite fmap_cons. simpl.
    rewrite not_elem_of_cons. split; [apply close_column_not_Date|].
    rewrite <- list_fmap_compose.
    intros (s' & Heq & Hin)%list_elem_of_fmap. simpl in Heq.
    apply close_column_inj in Heq as <-.
    apply list_elem_of_lookup in Hin as [j Hj].
    pose proof (lookup_lt_Some _ _ _ Hj) as Hlt. rewrite length_take in Hlt.
    rewrite lookup_take_lt in Hj by lia.
    pose proof (NoDup_lookup _ _ _ _ Hnd Hk Hj). lia.
Qed.

Lemma build_master_dataset_first_run (aligned_data : gmap string (list row))
    symbol0 first :
  first_symbol aligned_data = Some symbol0 →
  aligned_data !! symbol0 = Some first →
  (∀ r, r ∈ first → Date r ≠ Absent) →
  (∀ symbol rows, aligned_data !! symbol = Some rows →
                  length first ≤ length rows) →
  build_master_dataset aligned_data =
    Ok (imap (λ i r0,
                ("Date", value_of_str (cell_get (Date r0))) ::
                ((λ s, (close_column s, close_at aligned_data s i))
                   <$> sorted (keys aligned_data)))
             first).
Proof.
  intros Hfs Hfirst Hdate Hlen.
  destruct (first_symbol_Some _ _ Hfs) as (rest & Hsym & _).
  unfold build_master_dataset. rewrite Hsym, <- Hsym.
  unfold mbind at 1, result_bind at 1, map_getitem at 1. rewrite Hfirst.
  edestruct (for_each_result_inv
    (λ i (master : list pydict),
       master = imap (λ i r0,
                        ("Date", value_of_str (cell_get (Date r0))) ::
                        ((λ s, (close_column s, close_at aligned_data s i))
                           <$> sorted (keys aligned_data)))
                     (take i first))
    (range (length first))) as (master & Hrun & Hinv).
  3: { rewrite Hrun. by rewrite range_length, firstn_all in Hinv; subst. }
  { done. }
  intros i x master [-> Hi]%range_lookup ->.
  destruct (lookup_lt_is_Some_2 first i Hi) as [r0 Hr0].
  unfold mbind at 1, result_bind at 1, map_getitem at 1. rewrite Hfirst.
  unfold mbind at 1, result_bind at 1, list_getitem at 1. rewrite Hr0.
  assert (cell_getitem (Date r0) = Ok (cell_get (Date r0))) as Hd.
  { pose proof (Hdate r0 (list_elem_of_lookup_2 _ _ _ Hr0)).
    by destruct (Date r0). }
  unfold mbind at 1, result_bind at 1. rewrite Hd.
  unfold mbind at 1, result_bind at 1.
  rewrite master_row_run_at.
  - eexists. split; [reflexivity|].
    rewrite (take_S_r _ _ _ Hr0), imap_app. simpl.
    rewrite length_take_le by lia. by rewrite Nat.add_0_r.
  - apply sorted_NoDup, keys_NoDup.
  - intros s [rows Hrows]%sorted_elem_of%keys_elem_of.
    exists rows. split; [done|]. specialize (Hlen s rows Hrows). lia.
Qed.

(** X7: [build_master_dataset] takes the number of rows and the dates from
    the series of the lexicographically first symbol.  When every record of
    that series has a Date key and no series is shorter, it returns one row
    per record of that series; the records that longer series hold beyond
    that length do not appear in the table. *)
Theorem build_master_dataset_first_series
    (aligned_data : gmap string (list row)) (symbol0 : string)
    (first : list row) :
  first_symbol aligned_data = Some symbol0 →
  aligned_data !! symbol0 = Some first →
  (∀ r, r ∈ first → Date r ≠ Absent) →
  (∀ symbol rows, aligned_data !! symbol = Some rows →
                  length first ≤ length rows) →
  ∃ master,
    build_master_dataset aligned_data = Ok master ∧
    length master = length first ∧
    ∀ i r0, first !! i = Some r0 →
      ∃ row,
        master !! i = Some row ∧
        dict_lookup "Date" row = Some (value_of_str (cell_get (Date r0))) ∧
        ∀ symbol rows r,
          aligned_data !! symbol = Some rows → rows !! i = Some r →
          dict_lookup (close_column symbol) row =
            Some (value_of_num (cell_get (Close r))).
Proof.
  intros Hfs Hfirst Hdate Hlen. eexists.
  split; [by eapply build_master_dataset_first_run|].
  split; [by rewrite length_imap|].
  intros i r0 Hr0. rewrite list_lookup_imap, Hr0. simpl.
  eexists. split; [reflexivity|]. split; [done|].
  intros symbol rows r Hrows Hr. simpl.
  rewrite decide_False by (intros Heq; by apply (close_column_not_Date symbol)).
  rewrite (dict_lookup_columns (λ s, close_at aligned_data s i)).
  - unfold close_at. by rewrite Hrows, Hr.
  - apply sorted_elem_of, keys_elem_of. eauto.
Qed.

Lemma master_row_only (e : exn) (aligned_data : gmap string (list row))
    symbols i (row : pydict) :
  (∀ s, s ∈ symbols → is_Some (aligned_data !! s)) →
  e = IndexError →
  (∃ row', for_each symbols
     (λ symbol (row : pydict),
        rows ← map_getitem aligned_data symbol;
        r ← list_getitem rows i;
        mret (dict_set (close_column symbol)
                       (value_of_num (cell_get (Close r))) row))
     row = Ok row') ∨
  for_each symbols
    (λ symbol (row : pydict),
       rows ← map_getitem aligned_data symbol;
       r ← list_getitem rows i;
       mret (dict_set (close_column symbol)
                      (value_of_num (cell_get (Close r))) row))
    row = Raise e.
Proof.
  intros Hall ->. apply for_each_result_only.
  intros s row' Hs. rewrite column_step.
  destruct (Hall s Hs) as [rows ->].
  destruct (rows !! i); [left; by eexists|by right].
Qed.

(** One turn of the outer loop of [build_master_dataset]. *)
Lemma row_step (aligned_data : gmap string (list row)) symbol0 first symbols
    i (master : list pydict) :
  aligned_data !! symbol0 = Some first →
  (rows0 ← map_getitem aligned_data symbol0;
   row0 ← list_getitem rows0 i;
   date ← cell_getitem (Date row0);
   row ← for_each symbols
     (λ symbol (row : pydict),
        rows ← map_getitem aligned_data symbol;
        r ← list_getitem rows i;
        mret (dict_set (close_column symbol)
                       (value_of_num (cell_get (Close r))) row))
     [("Date", value_of_str date)];
   mret (master ++ [row]))
  = match first !! i with
    | None => Raise IndexError
    | Some row0 =>
      match Date row0 with
      | Absent => Raise KeyError
      | _ =>
        match for_each symbols
                (λ symbol (row : pydict),
                   rows ← map_getitem aligned_data symbol;
                   r ← list_getitem rows i;
                   mret (dict_set (close_column symbol)
                                  (value_of_num (cell_get (Close r))) row))
                [("Date", value_of_str (cell_get (Date row0)))] with
        | Ok row => Ok (master ++ [row])
        | Raise e => Raise e
        end
      end
    end.
Proof.
  intros Hfirst.
  unfold mbind at 1, result_bind at 1, map_getitem at 1. rewrite Hfirst.
  unfold mbind at 1, result_bind at 1, list_getitem at 1.
  destruct (first !! i) as [row0|]; [|done].
  unfold mbind at 1, result_bind at 1.
  destruct (Date row0); simpl; [done|..]; unfold mbind at 1, result_bind at 1;
    by match goal with |- context [for_each ?ys ?b ?r] =>
         destruct (for_each ys b r)
       end.
Qed.

(** X8: when the series of some symbol is shorter than the series of the
    lexicographically first symbol (whose records all have a Date key),
    [build_master_dataset] raises IndexError and returns no table. *)
Theorem build_master_dataset_short_series
    (aligned_data : gmap string (list row)) (symbol0 : string)
    (first : list row) :
  first_symbol aligned_data = Some symbol0 →
  aligned_data !! symbol0 = Some first →
  (∀ r, r ∈ first → Date r ≠ Absent) →
  (∃ symbol rows, aligned_data !! symbol = Some rows ∧
                  length rows < length first) →
  build_master_dataset aligned_data = Raise IndexError.
Proof.
  intros Hfs Hfirst Hdate (short & rows_short & Hshort & Hlt).
  destruct (first_symbol_Some _ _ Hfs) as (rest & Hsym & _).
  unfold build_master_dataset. rewrite Hsym, <- Hsym.
  unfold mbind at 1, result_bind at 1, map_getitem at 1. rewrite Hfirst.
  match goal with |- for_each ?xs ?body ?s = _ =>
    destruct (for_each_result_only IndexError xs body s) as [[master Hok]|Hraise]
  end; [| |done].
  - intros i master [k Hk]%list_elem_of_lookup.
    apply range_lookup in Hk as [Heq Hi]. subst k.
    destruct (lookup_lt_is_Some_2 first i Hi) as [r0 Hr0].
    rewrite (row_step _ _ _ _ _ _ Hfirst), Hr0.
    pose proof (Hdate r0 (list_elem_of_lookup_2 _ _ _ Hr0)) as Hd.
    match goal with |- context [for_each ?ys ?b ?r] =>
      destruct (master_row_only IndexError aligned_data ys i r)
        as [[row Hrow]|Hrow]
    end.
    + intros s Hs. by apply keys_elem_of, sorted_elem_of.
    + done.
    + rewrite Hrow. left. destruct (Date r0); [done|by eexists..].
    + rewrite Hrow. right. by destruct (Date r0).
  - exfalso.
    assert (length rows_short ∈ range (length first)) as Hin.
    { unfold range. apply elem_of_seq. lia. }
    destruct (for_each_result_Ok_each _ _ _ _ _ Hok Hin) as (m1 & m2 & Hbody).
    rewrite (row_step _ _ _ _ _ _ Hfirst) in Hbody.
    destruct (first !! length rows_short) as [r0|]; [|done].
    match type of Hbody with context [for_each ?ys ?b ?r] =>
      destruct (for_each ys b r) as [row|] eqn:Hrow;
        [|by destruct (Date r0)]
    end.
    assert (short ∈ sorted (keys aligned_data)) as Hs.
    { apply sorted_elem_of, keys_elem_of. eauto. }
    destruct (for_each_result_Ok_each _ _ _ _ _ Hrow Hs) as (d1 & d2 & Hcol).
    rewrite column_step, Hshort in Hcol.
    rewrite lookup_ge_None_2 in Hcol by lia. done.
Qed.

(** X9: when no series is shorter than the series of the lexicographically
    first symbol and some record of that series has no Date key,
    [build_master_dataset] raises KeyError and returns no table. *)
Theorem build_master_dataset_missing_date
    (aligned_data : gmap string (list row)) (symbol0 : string)
    (first : list row) :
  first_symbol aligned_data = Some symbol0 →
  aligned_data !! symbol0 = Some first →
  (∀ symbol rows, aligned_data !! symbol = Some rows →
                  length first ≤ length rows) →
  (∃ r, r ∈ first ∧ Date r = Absent) →
  build_master_dataset aligned_data = Raise KeyError.
Proof.
  intros Hfs Hfirst Hlen (bad & Hbad & Habs).
  destruct (first_symbol_Some _ _ Hfs) as (rest & Hsym & _).
  unfold build_master_dataset. rewrite Hsym, <- Hsym.
  unfold mbind at 1, result_bind at 1, map_getitem at 1. rewrite Hfirst.
  match goal with |- for_each ?xs ?body ?s = _ =>
    destruct (for_each_result_only KeyError xs body s) as [[master Hok]|Hraise]
  end; [| |done].
  - intros i master [k Hk]%list_elem_of_lookup.
    apply range_lookup in Hk as [Heq Hi]. subst k.
    destruct (lookup_lt_is_Some_2 first i Hi) as [r0 Hr0].
    rewrite (row_step _ _ _ _ _ _ Hfirst), Hr0.
    rewrite master_row_run_at.
    + destruct (Date r0); [by right|left; by eexists..].
    + apply sorted_NoDup, keys_NoDup.
    + intros s [rows Hrows]%sorted_elem_of%keys_elem_of.
      exists rows. split; [done|]. specialize (Hlen s rows Hrows). lia.
  - exfalso. apply list_elem_of_lookup in Hbad as [i Hi].
    assert (i ∈ range (length first)) as Hin.
    { unfold range. apply elem_of_seq. apply lookup_lt_Some in Hi. lia. }
    destruct (for_each_result_Ok_each _ _ _ _ _ Hok Hin) as (m1 & m2 & Hbody).
    rewrite (row_step _ _ _ _ _ _ Hfirst), Hi, Habs in Hbody. done.
Qed.

(** ** run_etl: what the cleaning loop leaves in the store *)

Lemma only_fills_refl (h : heap) : only_fills h h.
Proof. split; [done|]. intros ref r Hr. exists r. eauto. Qed.

Lemma only_fills_trans (h1 h2 h3 : heap) :
  only_fills h1 h2 → only_fills h2 h3 → only_fills h1 h3.
Proof.
  intros [Hn1 Hr1] [Hn2 Hr2]. split; [by auto|].
  intros ref r Hr.
  destruct (Hr1 ref r Hr) as (r' & Hr' & Hk1 & Hz1 & Hs1).
  destruct (Hr2 ref r' Hr') as (r'' & Hr'' & Hk2 & Hz2 & Hs2).
  exists r''. split; [done|]. split; [|split].
  - intros Hc. rewrite <- (Hk1 Hc) in Hc |- *. by apply Hk2.
  - intros Hc. pose proof (Hz2 Hc) as ->. by apply Hz1.
  - destruct Hs1 as [->|[v ->]]; [done|].
    destruct Hs2 as [->|[v' ->]]; [eauto|]. right. by exists v'.
Qed.

Lemma only_fills_dom (h h' : heap) : only_fills h h' → dom h' = dom h.
Proof.
  intros [Hn Hr]. apply set_eq. intros ref. rewrite !elem_of_dom.
  destruct (h !! ref) as [r|] eqn:Hh.
  - destruct (Hr ref r Hh) as (r' & -> & _). split; eauto.
  - by rewrite (Hn ref Hh).
Qed.

Lemma only_fills_keeps (h h' : heap) ref r :
  only_fills h h' → h !! ref = Some r → is_null (Close r) = false →
  h' !! ref = Some r.
Proof.
  intros [_ Hr] Hh Hc. destruct (Hr ref r Hh) as (r' & Hr' & Hk & _).
  by rewrite Hr', (Hk Hc).
Qed.

(** The four calls [run_etl] makes on one asset. *)
Lemma clean_asset_fills_run h l rows :
  series_in h l rows →
  ∃ h' cleaned,
    only_fills h h' ∧ cleaned `sublist_of` l ∧
    (∀ ref, ref ∈ cleaned →
       ∃ r, h' !! ref = Some r ∧ is_null (Close r) = false) ∧
    ∀ B (k : list loc → M B),
      (_ ← detect_missing_values l;
       _ ← detect_inconsistencies l;
       _ ← clean_with_forward_fill l;
       cleaned ← remove_invalid_rows l;
       k cleaned) h = k cleaned h'.
Proof.
  intros Hs.
  destruct (clean_with_forward_fill_frame_run _ _ _ Hs)
    as (h' & Hclean & _ & Hnone & Hrows).
  assert (only_fills h h') as Hfill by done.
  destruct (series_in_dom h h' l rows (only_fills_dom _ _ Hfill) Hs)
    as [rows' Hs'].
  eexists h', _. split; [done|]. split; [|split].
  3: { intros B k.
       rewrite (M_bind_Ok _ _ _ _ _ (detect_missing_values_run _ _ _ Hs)).
       rewrite (M_bind_Ok _ _ _ _ _ (detect_inconsistencies_run _ _ _ Hs)).
       rewrite (M_bind_Ok _ _ _ _ _ Hclean).
       by rewrite (M_bind_Ok _ _ _ _ _ (remove_invalid_rows_run _ _ _ Hs')). }
  - rewrite <- (fst_zip l rows') at 2
      by (by rewrite (series_in_length _ _ _ Hs')).
    apply fmap_sublist, sublist_filter.
  - intros ref ([ref' r] & -> & [Hc Hin]%list_elem_of_filter)%list_elem_of_fmap.
    simpl in *. exists r. split; [|done].
    apply list_elem_of_lookup in Hin as [i Hi].
    apply lookup_zip_with_Some in Hi as (? & ? & [= <- <-] & Hl & Hr).
    by eapply Forall2_lookup_lr in Hs'.
Qed.

(** The cleaning loop of [run_etl], with what it leaves in the store. *)
Lemma clean_loop_fills_run h (u : gmap string (list loc)) items :
  items_of u items →
  universe_in h u →
  ∃ (cleaned_data : gmap string (list loc)) h',
    for_each items
      (λ '(symbol, asset_data) (cleaned_data : gmap string (list loc)),
         _ ← detect_missing_values asset_data;
         _ ← detect_inconsistencies asset_data;
         _ ← clean_with_forward_fill asset_data;
         cleaned ← remove_invalid_rows asset_data;
         mret (<[symbol := cleaned]> cleaned_data))
      ∅ h
    = Ok (cleaned_data, h') ∧
    only_fills h h' ∧
    (∀ symbol cleaned,
       cleaned_data !! symbol = Some cleaned →
       ∃ l, u !! symbol = Some l ∧ cleaned `sublist_of` l ∧
            ∀ ref, ref ∈ cleaned →
              ∃ r, h' !! ref = Some r ∧ is_null (Close r) = false).
Proof.
  intros Hitems Hu.
  edestruct (for_each_M_inv
    (λ (i : nat) (cleaned_data : gmap string (list loc)) (h' : heap),
       only_fills h h' ∧
       (∀ symbol cleaned,
          cleaned_data !! symbol = Some cleaned →
          ∃ l, u !! symbol = Some l ∧ cleaned `sublist_of` l ∧
               ∀ ref, ref ∈ cleaned →
                 ∃ r, h' !! ref = Some r ∧ is_null (Close r) = false))
    items) as (cleaned_data & h' & Hrun & Hinv).
  3: { exists cleaned_data, h'. split; [exact Hrun|exact Hinv]. }
  { split; [apply only_fills_refl|]. intros symbol cleaned.
    by rewrite lookup_empty. }
  intros i [symbol l] cleaned_data h1 Hk (Hfill & Hin).
  assert (u !! symbol = Some l) as Hl.
  { by apply (items_of_elem_of u items), list_elem_of_lookup_2 with i. }
  destruct (Hu symbol l Hl) as [rows Hs].
  destruct (series_in_dom h h1 l rows (only_fills_dom _ _ Hfill) Hs)
    as [rows1 Hs1].
  destruct (clean_asset_fills_run h1 l rows1 Hs1)
    as (h2 & cleaned & Hfill2 & Hsub & Hclose & Hrun).
  rewrite Hrun. unfold mret, M_ret.
  eexists _, _. split; [reflexivity|]. split.
  { by eapply only_fills_trans. }
  intros symbol' cleaned'. rewrite lookup_insert_Some.
  intros [[<- <-]|[Hne Hc']]; [by exists l|].
  destruct (Hin symbol' cleaned' Hc') as (l' & Hl' & Hsub' & Hclose').
  exists l'. split; [done|]. split; [done|].
  intros ref Href. destruct (Hclose' ref Href) as (r & Hr & Hc).
  exists r. split; [|done]. by eapply only_fills_keeps.
Qed.

(** [run_etl], with what it leaves in the store and the cells of the master
    table read off the cleaned series. *)
Lemma run_etl_fills_run h (u : gmap string (list loc)) items :
  items_of u items →
  universe_in h u →
  ∃ e h',
    run_etl items h = Ok (e, h') ∧
    only_fills h h' ∧
    (∀ symbol cleaned,
       cleaned_data e !! symbol = Some cleaned →
       ∃ l, u !! symbol = Some l ∧ l ≠ [] ∧ cleaned `sublist_of` l ∧
            ∀ ref, ref ∈ cleaned →
              ∃ r, h' !! ref = Some r ∧ is_null (Close r) = false) ∧
    dom (cleaned_data e) = dom (filter (λ kv, kv.2 ≠ []) u) ∧
    master_dataset e =
      imap (λ i date,
              ("Date", VStr date) ::
              ((λ s, (close_column s, close_at (aligned_data e) s i))
                 <$> sorted (keys (cleaned_data e))))
           (master_calendar e) ∧
    (∀ symbol l rows,
       cleaned_data e !! symbol = Some l → series_in h' l rows →
       aligned_data e !! symbol =
         Some (aligned_series rows (master_calendar e))).
Proof.
  intros Hitems Hu. unfold run_etl. cbv zeta.
  set (u' := filter (λ kv : string * list loc, kv.2 ≠ []) u).
  assert (universe_in h u') as Hu'.
  { intros symbol l [Hl _]%map_lookup_filter_Some. by eapply Hu. }
  pose proof (items_of_filter u items (λ kv, kv.2 ≠ []) Hitems) as Hitems'.
  destruct (clean_loop_fills_run h u' _ Hitems' Hu')
    as (cleaned & h' & Hloop & Hfill & Hin).
  assert (dom cleaned = dom u') as Hkeys.
  { destruct (clean_loop_run h u' _ Hitems' Hu')
      as (cleaned' & h'' & Hloop' & _ & Hk & _).
    rewrite Hloop in Hloop'. by injection Hloop' as <- <-. }
  assert (universe_in h' cleaned) as Hu''.
  { intros symbol l Hl. destruct (Hin symbol l Hl) as (_ & _ & _ & Hc).
    apply series_in_exists. intros ref Href.
    destruct (Hc ref Href) as (r & -> & _). eauto. }
  destruct (unify_run h' cleaned Hu'')
    as (calendar & aligned & Hcal & Hal & Hds & Hrows).
  eexists _, h'. split.
  { rewrite (M_bind_Ok _ _ _ _ _ Hloop), (M_bind_Ok _ _ _ _ _ Hcal),
      (M_bind_Ok _ _ _ _ _ Hal).
    unfold mbind, M_bind, lift. rewrite Hds. reflexivity. }
  simpl. split; [done|]. split; [|done].
  intros symbol l Hl. destruct (Hin symbol l Hl) as (l0 & Hl0 & Hsub & Hc).
  apply map_lookup_filter_Some in Hl0 as [Hl0 Hne]. by exists l0.
Qed.

Lemma length_filter_snd {A B} (P : B → Prop) `{∀ x, Decision (P x)}
    (l : list (A * B)) :
  length (filter P l.*2) = length (filter (λ kv, P kv.2) l).
Proof.
  induction l as [|[a b] l IH]; [done|].
  rewrite fmap_cons, !filter_cons. simpl.
  destruct (decide (P b)); simpl; by rewrite IH.
Qed.

(** The number of columns of the master table. *)
Lemma run_etl_columns_run h (u : gmap string (list loc)) items :
  items_of u items →
  universe_in h u →
  ∃ e h',
    run_etl items h = Ok (e, h') ∧
    ∀ row, row ∈ master_dataset e →
      length row = S (length (filter (λ v, v ≠ []) (map_to_list u).*2)).
Proof.
  intros Hitems Hu.
  destruct (run_etl_fills_run h u items Hitems Hu)
    as (e & h' & Hrun & _ & _ & Hdom & Hds & _).
  exists e, h'. split; [done|]. intros row. rewrite Hds.
  intros [i Hi]%list_elem_of_lookup. rewrite list_lookup_imap in Hi.
  destruct (master_calendar e !! i) as [date|]; [|done].
  injection Hi as <-. simpl. f_equal.
  rewrite length_fmap, sorted_length, keys_length.
  rewrite <- size_dom, Hdom, size_dom.
  rewrite length_filter_snd, <- length_map_to_list.
  by rewrite map_to_list_filter_perm.
Qed.

(** The keys of the rows of the master table. *)
Lemma run_etl_keys_run h (u : gmap string (list loc)) items :
  items_of u items →
  universe_in h u →
  ∃ e h',
    run_etl items h = Ok (e, h') ∧
    NoDup (sorted (keys (cleaned_data e))) ∧
    (∀ symbol, symbol ∈ sorted (keys (cleaned_data e)) ↔
               ∃ l, u !! symbol = Some l ∧ l ≠ []) ∧
    length (sorted (keys (cleaned_data e))) =
      length (filter (λ v, v ≠ []) (map_to_list u).*2) ∧
    ∀ row, row ∈ master_dataset e →
      row.*1 = "Date" :: (close_column <$> sorted (keys (cleaned_data e))).
Proof.
  intros Hitems Hu.
  destruct (run_etl_fills_run h u items Hitems Hu)
    as (e & h' & Hrun & _ & _ & Hdom & Hds & _).
  exists e, h'. split; [done|].
  split; [apply sorted_NoDup, keys_NoDup|]. split; [|split].
  - intros symbol.
    rewrite sorted_elem_of, keys_elem_of, <- elem_of_dom, Hdom, elem_of_dom.
    unfold is_Some. setoid_rewrite map_lookup_filter_Some. naive_solver.
  - rewrite sorted_length, keys_length.
    rewrite <- size_dom, Hdom, size_dom.
    rewrite length_filter_snd, <- length_map_to_list.
    by rewrite map_to_list_filter_perm.
  - intros row. rewrite Hds.
    intros [i Hi]%list_elem_of_lookup. rewrite list_lookup_imap in Hi.
    destruct (master_calendar e !! i) as [date|]; [|done].
    injection Hi as <-. cbn [fmap list_fmap]. f_equal.
    rewrite <- list_fmap_compose. by apply list_fmap_ext.
Qed.

(** X10: after [run_etl], whatever objects the downloaded series share and
    in whatever order the symbols are visited: the store holds the same
    record objects as before, a record whose Close
    was non-null is as it was and any other record differs at most by a
    Close that is now a number; the cleaned series of a symbol is a
    subsequence of its downloaded series, which is non-empty; and every
    record of every cleaned series has a non-null Close in the final
    store. *)
Theorem run_etl_cleaned_closes (h : heap) (u : gmap string (list loc))
    (items : list (string * list loc)) :
  items_of u items →
  universe_in h u →
  ∃ e h',
    run_etl items h = Ok (e, h') ∧
    only_fills h h' ∧
    (∀ symbol cleaned,
       cleaned_data e !! symbol = Some cleaned →
       ∃ l, u !! symbol = Some l ∧ l ≠ [] ∧ cleaned `sublist_of` l ∧
            ∀ ref, ref ∈ cleaned →
              ∃ r, h' !! ref = Some r ∧ is_null (Close r) = false).
Proof.
  intros Hitems Hu.
  destruct (run_etl_fills_run h u items Hitems Hu)
    as (e & h' & Hrun & Hfill & Hin & _).
  by exists e, h'.
Qed.

(** X11: the cells of the master table [run_etl] builds, whatever objects
    the downloaded series share and in whatever order the symbols are
    visited.  Row [i] is dated
    with the [i]-th date of the master calendar; its cell for a symbol is
    null when the cleaned series of the symbol has no record of that date,
    and otherwise it is a number: the Close, in the final store, of the last
    record of the cleaned series with that date. *)
Theorem run_etl_master_cells (h : heap) (u : gmap string (list loc))
    (items : list (string * list loc)) :
  items_of u items →
  universe_in h u →
  ∃ e h',
    run_etl items h = Ok (e, h') ∧
    length (master_dataset e) = length (master_calendar e) ∧
    ∀ i date row,
      master_calendar e !! i = Some date →
      master_dataset e !! i = Some row →
      dict_lookup "Date" row = Some (VStr date) ∧
      ∀ symbol cleaned rows,
        cleaned_data e !! symbol = Some cleaned →
        series_in h' cleaned rows →
        match record_at rows date with
        | None => dict_lookup (close_column symbol) row = Some VNone
        | Some r =>
          ∃ c, cell_get (Close r) = Some c ∧
               dict_lookup (close_column symbol) row = Some (VNum c)
        end.
Proof.
  intros Hitems Hu.
  destruct (run_etl_fills_run h u items Hitems Hu)
    as (e & h' & Hrun & Hfill & Hin & _ & Hds & Hal).
  exists e, h'. split; [done|]. rewrite Hds. split; [by rewrite length_imap|].
  intros i date row Hdate Hrow.
  rewrite list_lookup_imap, Hdate in Hrow. injection Hrow as <-.
  split; [done|].
  intros symbol cleaned rows Hc Hs. cbn [dict_lookup].
  rewrite decide_False by (intros Heq; by eapply close_column_not_Date).
  rewrite (dict_lookup_columns (λ s, close_at (aligned_data e) s i)).
  2: { apply sorted_elem_of, keys_elem_of. eauto. }
  unfold close_at. rewrite (Hal symbol cleaned rows Hc Hs).
  unfold aligned_series. rewrite list_lookup_fmap, Hdate. simpl.
  destruct (record_at rows date) as [r|] eqn:Hr; simpl; [|done].
  apply record_at_Some in Hr as [[j Hj]%list_elem_of_lookup _].
  destruct (Forall2_lookup_r _ _ _ _ _ Hs Hj) as (ref & Href & Hh).
  destruct (Hin symbol cleaned Hc) as (_ & _ & _ & _ & Hclose).
  destruct (Hclose ref (list_elem_of_lookup_2 _ _ _ Href)) as (r' & Hr' & Hnn).
  assert (r' = r) as -> by congruence.
  unfold is_null in Hnn. destruct (cell_get (Close r)) as [c|]; [|done].
  by exists c.
Qed.

(** ** run_etl on a universe without shared records *)

Lemma series_in_agree (h h' : heap) l rows :
  (∀ ref, ref ∈ l → h' !! ref = h !! ref) →
  series_in h l rows → series_in h' l rows.
Proof.
  intros Hagree Hs. unfold series_in in *.
  apply Forall2_same_length_lookup. split; [by eapply Forall2_length|].
  intros i ref r Href Hr. rewrite Hagree by (by eapply list_elem_of_lookup_2).
  by eapply Forall2_lookup_lr in Hs.
Qed.

(** The cleaning loop of [run_etl] when no record is shared. *)
Lemma clean_loop_unshared_run h (u : gmap string (list loc)) items :
  items_of u items →
  universe_in h u → unshared u →
  ∃ (cleaned_data : gmap string (list loc)) h',
    for_each items
      (λ '(symbol, asset_data) (cleaned_data : gmap string (list loc)),
         _ ← detect_missing_values asset_data;
         _ ← detect_inconsistencies asset_data;
         _ ← clean_with_forward_fill asset_data;
         cleaned ← remove_invalid_rows asset_data;
         mret (<[symbol := cleaned]> cleaned_data))
      ∅ h
    = Ok (cleaned_data, h') ∧
    (∀ symbol l rows,
       u !! symbol = Some l → series_in h l rows →
       cleaned_data !! symbol = Some (drop (leading_nulls rows) l) ∧
       series_in h' l (forward_filled rows)) ∧
    (∀ ref, (∀ symbol l, u !! symbol = Some l → ref ∉ l) →
            h' !! ref = h !! ref).
Proof.
  intros Hitems Hu [Hnd Hdisj].
  edestruct (for_each_M_inv
    (λ (i : nat) (cleaned_data : gmap string (list loc)) (h' : heap),
       (∀ k symbol l rows,
          k < i → items !! k = Some (symbol, l) → series_in h l rows →
          cleaned_data !! symbol = Some (drop (leading_nulls rows) l) ∧
          series_in h' l (forward_filled rows)) ∧
       (∀ ref, (∀ k symbol l, k < i → items !! k = Some (symbol, l) →
                              ref ∉ l) →
               h' !! ref = h !! ref))
    items) as (cleaned_data & h' & Hrun & Hdone & Hframe).
  3: { exists cleaned_data, h'. split; [exact Hrun|]. split.
       - intros symbol l rows Hl Hs.
         apply (items_of_elem_of u items), list_elem_of_lookup in Hl
           as [k Hk]; [|done].
         eapply Hdone; [by eapply lookup_lt_Some|done..].
       - intros ref Hnot. apply Hframe. intros k symbol l _ Hk.
         apply (Hnot symbol).
         by apply (items_of_elem_of u items), list_elem_of_lookup_2 with k. }
  { split; [intros; lia|]. done. }
  intros i [symbol l] cleaned_data h1 Hk (Hdone & Hframe).
  assert (u !! symbol = Some l) as Hl.
  { by apply (items_of_elem_of u items), list_elem_of_lookup_2 with i. }
  destruct (Hu symbol l Hl) as [rows Hs].
  assert (∀ k symbol' l', k < i → items !! k = Some (symbol', l') →
            symbol' ≠ symbol ∧ u !! symbol' = Some l') as Hearlier.
  { intros k symbol' l' Hlt Hk'. split.
    - intros ->. pose proof (items_of_key_inj u _ _ _ _ _ _ Hitems Hk' Hk). lia.
    - by apply (items_of_elem_of u items), list_elem_of_lookup_2 with k. }
  assert (series_in h1 l rows) as Hs1.
  { apply (series_in_agree h); [|done]. intros ref Hin. apply Hframe.
    intros k symbol' l' Hlt Hk' Hin'.
    destruct (Hearlier k symbol' l' Hlt Hk') as [Hne Hl'].
    by apply (Hdisj symbol' symbol l' l Hne Hl' Hl ref). }
  destruct (clean_with_forward_fill_run h1 l rows Hs1 (Hnd symbol l Hl))
    as (h2 & Hclean & Hs2 & Hframe2).
  rewrite (M_bind_Ok _ _ _ _ _ (detect_missing_values_run _ _ _ Hs1)).
  rewrite (M_bind_Ok _ _ _ _ _ (detect_inconsistencies_run _ _ _ Hs1)).
  rewrite (M_bind_Ok _ _ _ _ _ Hclean).
  rewrite (M_bind_Ok _ _ _ _ _ (remove_after_fill_run _ _ _ Hs2)).
  unfold mret, M_ret. eexists _, _. split; [reflexivity|]. split.
  - intros k symbol' l' rows' Hlt Hk' Hs'.
    destruct (decide (k = i)) as [->|Hne].
    + rewrite Hk in Hk'. injection Hk' as <- <-.
      assert (rows' = rows) as ->.
      { apply list_eq. intros j.
        destruct (l !! j) as [ref|] eqn:Hj.
        - destruct (Forall2_lookup_l _ _ _ _ _ Hs Hj) as (r & -> & Hr).
          destruct (Forall2_lookup_l _ _ _ _ _ Hs' Hj) as (r' & -> & Hr').
          congruence.
        - apply lookup_ge_None in Hj.
          rewrite !lookup_ge_None_2; [done|..].
          + by rewrite <- (series_in_length _ _ _ Hs).
          + by rewrite <- (series_in_length _ _ _ Hs'). }
      by rewrite lookup_insert_eq.
    + destruct (Hearlier k symbol' l') as [Hne' Hl']; [lia|done|].
      destruct (Hdone k symbol' l' rows') as [Hc Hf]; [lia|done..|].
      rewrite lookup_insert_ne by done. split; [done|].
      apply (series_in_agree h1); [|done]. intros ref Hin. apply Hframe2.
      by apply (Hdisj symbol' symbol l' l Hne' Hl' Hl ref).
  - intros ref Hnot. rewrite Hframe2 by (by apply (Hnot i symbol l); [lia|]).
    apply Hframe. intros k symbol' l' Hlt. apply Hnot. lia.
Qed.

Lemma unshared_filter (u : gmap string (list loc))
    (P : string * list loc → Prop) `{∀ kv, Decision (P kv)} :
  unshared u → unshared (filter P u).
Proof.
  intros [Hnd Hdisj]. split.
  - intros symbol l [Hl _]%map_lookup_filter_Some. by eapply Hnd.
  - intros s1 s2 l1 l2 Hne [Hl1 _]%map_lookup_filter_Some
      [Hl2 _]%map_lookup_filter_Some.
    by eapply Hdisj.
Qed.

(** The whole of [run_etl] when no record is shared. *)
Lemma run_etl_unshared_run (h : heap) (u : gmap string (list loc)) items :
  items_of u items →
  universe_in h u → unshared u →
  ∃ e h',
    run_etl items h = Ok (e, h') ∧
    (∀ symbol l rows,
       u !! symbol = Some l → l ≠ [] → series_in h l rows →
       cleaned_data e !! symbol = Some (drop (leading_nulls rows) l) ∧
       series_in h' l (forward_filled rows)) ∧
    (∀ ref, (∀ symbol l, u !! symbol = Some l → ref ∉ l) →
            h' !! ref = h !! ref).
Proof.
  intros Hitems Hu Hun. unfold run_etl. cbv zeta.
  set (u' := filter (λ kv : string * list loc, kv.2 ≠ []) u).
  assert (universe_in h u') as Hu'.
  { intros symbol l [Hl _]%map_lookup_filter_Some. by eapply Hu. }
  assert (unshared u') as Hun' by (by apply unshared_filter).
  pose proof (items_of_filter u items (λ kv, kv.2 ≠ []) Hitems) as Hitems'.
  destruct (clean_loop_unshared_run h u' _ Hitems' Hu' Hun')
    as (cleaned & h' & Hloop & Hdone & Hframe).
  destruct (clean_loop_run h u' _ Hitems' Hu')
    as (cleaned' & h'' & Hloop' & _ & _ & Hin).
  rewrite Hloop in Hloop'. injection Hloop' as <- <-.
  destruct (unify_run h' cleaned Hin) as (calendar & aligned & Hcal & Hal & Hds & _).
  eexists _, h'. split.
  { rewrite (M_bind_Ok _ _ _ _ _ Hloop), (M_bind_Ok _ _ _ _ _ Hcal),
      (M_bind_Ok _ _ _ _ _ Hal).
    unfold mbind, M_bind, lift. rewrite Hds. reflexivity. }
  simpl. split.
  - intros symbol l rows Hl Hne Hs. apply Hdone; [|done].
    by apply map_lookup_filter_Some.
  - intros ref Hnot. apply Hframe. intros symbol l Hl.
    destruct (decide (l = [])) as [->|Hne]; [by intros ?%elem_of_nil|].
    apply map_lookup_filter_Some in Hl as [Hl _]. by eapply Hnot.
Qed.

(** X12: [run_etl] on downloaded series that share no record object (no
    dict at two positions of a series or in the series of two symbols), in
    whatever order the symbols are visited.  The
    cleaned series of each symbol with a non-empty download is exactly its
    downloaded series without the run of null-Close records it starts with;
    in the final store the records of the series carry the forward fill of
    their own series, untouched by the cleaning of the other symbols; the
    number of rows reported as removed is the length of that leading run;
    and the records outside the universe are as they were. *)
Theorem run_etl_unshared (h : heap) (u : gmap string (list loc))
    (items : list (string * list loc)) :
  items_of u items →
  universe_in h u → unshared u →
  ∃ e h',
    run_etl items h = Ok (e, h') ∧
    (∀ symbol l rows,
       u !! symbol = Some l → l ≠ [] → series_in h l rows →
       ∃ cleaned,
         cleaned_data e !! symbol = Some cleaned ∧
         cleaned = drop (leading_nulls rows) l ∧
         length l - length cleaned = leading_nulls rows ∧
         series_in h' l (forward_filled rows) ∧
         series_in h' cleaned
           (drop (leading_nulls rows) (forward_filled rows))) ∧
    (∀ ref, (∀ symbol l, u !! symbol = Some l → ref ∉ l) →
            h' !! ref = h !! ref).
Proof.
  intros Hitems Hu Hun.
  destruct (run_etl_unshared_run h u items Hitems Hu Hun)
    as (e & h' & Hrun & Hdone & Hframe).
  exists e, h'. split; [done|]. split; [|done].
  intros symbol l rows Hl Hne Hs.
  destruct (Hdone symbol l rows Hl Hne Hs) as [Hc Hf].
  eexists. split; [exact Hc|]. split; [done|]. split; [|split; [done|]].
  - rewrite length_drop. pose proof (leading_nulls_le rows).
    rewrite (series_in_length _ _ _ Hs). lia.
  - by apply Forall2_drop.
Qed.

End engine_behaviour.

(** * The theorems on the engine at the further inputs *)

Lemma shared_series_in :
  series_in shared_store [1; 2; 1]%positive
    [no_close "2024-01-01"; quote "2024-01-02" 5; no_close "2024-01-01"].
Proof. repeat constructor. Qed.

Lemma leading_series_in :
  series_in shared_store [1; 2; 3]%positive
    [no_close "2024-01-01"; quote "2024-01-02" 5; no_close "2024-01-03"].
Proof. repeat constructor. Qed.

Lemma repeated_universe_in : universe_in repeated_store repeated_universe.
Proof.
  intros symbol l Hl. unfold repeated_universe in Hl.
  apply lookup_singleton_Some in Hl as [_ <-].
  eexists; repeat econstructor.
Qed.

Lemma clean_with_forward_fill_frame_witness :
  series_in shared_store [1; 2; 1]%positive
    [no_close "2024-01-01"; quote "2024-01-02" 5; no_close "2024-01-01"] ∧
  ∃ h' r',
    clean_with_forward_fill [1; 2; 1]%positive shared_store =
      Ok ([1; 2; 1]%positive, h') ∧
    dom h' = dom shared_store ∧
    h' !! 3%positive = shared_store !! 3%positive ∧
    h' !! 2%positive = Some (quote "2024-01-02" 5) ∧
    h' !! 1%positive = Some r' ∧ Open r' = price 7.
Proof.
  split; [exact shared_series_in|].
  destruct (clean_with_forward_fill_frame shared_store [1; 2; 1]%positive _
              shared_series_in)
    as (h' & Hrun & Hdom & Hframe & Hrows & _).
  destruct (Hrows 2%positive (quote "2024-01-02" 5) eq_refl)
    as (r2 & Hr2 & _ & _ & _ & _ & _ & Hkeep & _).
  destruct (Hrows 1%positive (no_close "2024-01-01") eq_refl)
    as (r1 & Hr1 & _ & Hopen & _).
  exists h', r1. split; [exact Hrun|]. split; [exact Hdom|]. split.
  { apply Hframe. compute_done. }
  split; [rewrite <- (Hkeep eq_refl); exact Hr2|].
  split; [exact Hr1|exact Hopen].
Defined.

Lemma remove_invalid_rows_idempotent_witness :
  series_in detector_store detector_series detector_rows ∧
  ∃ result,
    remove_invalid_rows detector_series detector_store =
      Ok (result, detector_store) ∧
    remove_invalid_rows result detector_store = Ok (result, detector_store) ∧
    length result ≤ 3.
Proof.
  split; [exact detector_series_in|].
  destruct (remove_invalid_rows_idempotent detector_store detector_series
              detector_rows detector_series_in)
    as (result & Hrun & Hagain & Hlen).
  exists result. split; [exact Hrun|]. split; [exact Hagain|exact Hlen].
Defined.

Lemma clean_then_remove_leading_run_witness :
  series_in shared_store [1; 2; 3]%positive
    [no_close "2024-01-01"; quote "2024-01-02" 5; no_close "2024-01-03"] ∧
  NoDup [1; 2; 3]%positive ∧
  ∃ h',
    (_ ← clean_with_forward_fill [1; 2; 3]%positive;
     remove_invalid_rows [1; 2; 3]%positive) shared_store =
      Ok ([2; 3]%positive, h') ∧
    series_in h' [2; 3]%positive
      [quote "2024-01-02" 5; set_Close 5%Z (no_close "2024-01-03")].
Proof.
  assert (NoDup [1; 2; 3]%positive) as Hnd by compute_done.
  split; [exact leading_series_in|]. split; [exact Hnd|].
  destruct (clean_then_remove_leading_run shared_store [1; 2; 3]%positive _
              leading_series_in Hnd)
    as (h' & cleaned & Hrun & -> & Hs & _).
  exists h'. split; [exact Hrun|exact Hs].
Defined.

Lemma detect_missing_values_bounds_witness :
  series_in detector_store detector_series detector_rows ∧
  ∃ count positions,
    detect_missing_values detector_series detector_store =
      Ok ((count, positions), detector_store) ∧
    length positions ≤ count ∧ count ≤ 5 * length positions.
Proof.
  split; [exact detector_series_in|].
  destruct (detect_missing_values_bounds detector_store detector_series
              detector_rows detector_series_in)
    as (count & positions & Hrun & Hlo & Hhi & _).
  exists count, positions. split; [exact Hrun|]. split; [exact Hlo|exact Hhi].
Defined.

Lemma detect_inconsistencies_ordered_witness :
  series_in detector_store detector_series detector_rows ∧
  ∃ anomalies,
    detect_inconsistencies detector_series detector_store =
      Ok (anomalies, detector_store) ∧
    length (filter (λ a, a_index a = 0) anomalies) ≤ 3 ∧
    length anomalies ≤ 9.
Proof.
  split; [exact detector_series_in|].
  destruct (detect_inconsistencies_ordered detector_store detector_series
              detector_rows detector_series_in)
    as (anomalies & Hrun & Heach & Hlen & _).
  exists anomalies. split; [exact Hrun|]. split; [exact (Heach 0)|exact Hlen].
Defined.

Lemma align_assets_to_calendar_last_wins_witness :
  universe_in repeated_store repeated_universe ∧
  ∃ aligned,
    align_assets_to_calendar repeated_universe ["2024-01-01"] repeated_store =
      Ok (aligned, repeated_store) ∧
    (aligned !! "A") ≫= (.!! 0) = Some (quote "2024-01-01" 11).
Proof.
  split; [exact repeated_universe_in|].
  destruct (align_assets_to_calendar_last_wins repeated_store
              repeated_universe ["2024-01-01"] repeated_universe_in)
    as (aligned & Hrun & Hal).
  destruct (Hal "A" [1; 2]%positive
              [quote "2024-01-01" 10; quote "2024-01-01" 11] eq_refl)
    as (aligned_list & HA & Hat).
  { repeat constructor. }
  exists aligned. split; [exact Hrun|]. rewrite HA. simpl.
  apply (Hat 0 "2024-01-01" 1); [reflexivity..|].
  intros j' r' Hlt Hr'. apply lookup_lt_Some in Hr'. simpl in Hr'. lia.
Defined.

Lemma build_master_dataset_first_series_witness :
  first_symbol uneven_aligned = Some "A" ∧
  ∃ master,
    build_master_dataset uneven_aligned = Ok master ∧
    length master = 1.
Proof.
  split; [reflexivity|].
  destruct (build_master_dataset_first_series uneven_aligned "A"
              [quote "2024-01-01" 10])
    as (master & Hrun & Hlen & _); [reflexivity..| | |].
  - intros r Hr. apply list_elem_of_singleton in Hr as ->. discriminate.
  - intros symbol rows Hl. unfold uneven_aligned in Hl.
    apply lookup_insert_Some in Hl as [[_ <-]|[_ Hl]]; [simpl; lia|].
    apply lookup_singleton_Some in Hl as [_ <-]. simpl; lia.
  - exists master. split; [exact Hrun|exact Hlen].
Defined.

Lemma build_master_dataset_short_series_witness :
  first_symbol short_aligned = Some "A" ∧
  short_aligned !! "B" = Some [quote "2024-01-01" 20] ∧
  build_master_dataset short_aligned = Raise IndexError.
Proof.
  split; [reflexivity|]. split; [reflexivity|].
  apply (build_master_dataset_short_series short_aligned "A"
           [quote "2024-01-01" 10; quote "2024-01-02" 11]);
    [reflexivity..| |].
  - intros r Hr. apply list_elem_of_In in Hr.
    destruct Hr as [<-|[<-|[]]]; discriminate.
  - exists "B", [quote "2024-01-01" 20]. split; [reflexivity|simpl; lia].
Defined.

Lemma build_master_dataset_missing_date_witness :
  first_symbol undated_aligned = Some "A" ∧
  Date undated = Absent ∧
  build_master_dataset undated_aligned = Raise KeyError.
Proof.
  split; [reflexivity|]. split; [reflexivity|].
  apply (build_master_dataset_missing_date undated_aligned "A"
           [quote "2024-01-01" 10; undated]); [reflexivity..| |].
  - intros symbol rows Hl. unfold undated_aligned in Hl.
    apply lookup_insert_Some in Hl as [[_ <-]|[_ Hl]]; [simpl; lia|].
    apply lookup_singleton_Some in Hl as [_ <-]. simpl; lia.
  - exists undated. split; [|reflexivity].
    apply list_elem_of_In. simpl. tauto.
Defined.

Lemma aliased_items_of : items_of aliased_universe aliased_items.
Proof. apply items_of_list_to_map. compute_done. Qed.

Lemma aliased_universe_in : universe_in aliased_store aliased_universe.
Proof.
  intros symbol l Hl. unfold aliased_universe in Hl.
  apply lookup_insert_Some in Hl as [[_ <-]|[_ Hl]].
  { eexists; repeat econstructor. }
  apply lookup_singleton_Some in Hl as [_ <-].
  eexists; repeat econstructor.
Qed.

(** The record shared by X and Y is filled while X is cleaned, so that the
    series of Y, cleaned next, keeps it. *)
Lemma run_etl_cleaned_closes_witness :
  items_of aliased_universe aliased_items ∧
  universe_in aliased_store aliased_universe ∧
  ∃ e h',
    run_etl aliased_items aliased_store = Ok (e, h') ∧
    dom h' = dom aliased_store ∧
    h' !! 1%positive = Some (quote "2024-01-01" 5) ∧
    cleaned_data e !! "Y" = Some [2%positive] ∧
    ∃ r, h' !! 2%positive = Some r ∧ is_null (Close r) = false.
Proof.
  split; [exact aliased_items_of|]. split; [exact aliased_universe_in|].
  destruct (run_etl_cleaned_closes aliased_store aliased_universe
              aliased_items aliased_items_of aliased_universe_in)
    as (e & h' & Hrun & [Hnone Hrows] & Hclean).
  destruct (Hrows 1%positive (quote "2024-01-01" 5) eq_refl)
    as (r' & Hr' & Hkeep & _).
  assert ((λ e, cleaned_data e !! "Y") <$>
            returned (run_etl aliased_items aliased_store)
          = Some (Some [2%positive])) as HY by (vm_compute; reflexivity).
  rewrite Hrun in HY. injection HY as HY.
  exists e, h'. split; [exact Hrun|]. split; [|split; [|split; [exact HY|]]].
  - apply set_eq. intros ref. rewrite !elem_of_dom.
    destruct (aliased_store !! ref) as [r|] eqn:Hh.
    + destruct (Hrows ref r Hh) as (r1 & -> & _). split; eauto.
    + by rewrite (Hnone ref Hh).
  - rewrite <- (Hkeep eq_refl). exact Hr'.
  - destruct (Hclean "Y" [2%positive] HY) as (l & _ & _ & _ & Hall).
    apply Hall. by left.
Defined.

Lemma run_etl_master_cells_witness :
  items_of example_universe example_items ∧
  universe_in example_store example_universe ∧
  ∃ e h',
    run_etl example_items example_store = Ok (e, h') ∧
    master_calendar e = example_calendar ∧
    length (master_dataset e) = 3.
Proof.
  split; [exact example_items_of|]. split; [exact example_universe_in|].
  destruct (run_etl_master_cells example_store example_universe
              example_items example_items_of example_universe_in)
    as (e & h' & Hrun & Hlen & _).
  exists e, h'. split; [exact Hrun|].
  assert (master_calendar <$> returned (run_etl example_items example_store)
          = Some example_calendar) as Hcal by (vm_compute; reflexivity).
  rewrite Hrun in Hcal. injection Hcal as Hcal.
  split; [exact Hcal|]. rewrite Hlen, Hcal. reflexivity.
Defined.

Lemma example_universe_lookup symbol l :
  example_universe !! symbol = Some l →
  (symbol = "A" ∧ l = [1; 2]%positive) ∨
  (symbol = "B" ∧ l = [3; 4]%positive) ∨
  (symbol = "C" ∧ l = [5%positive]).
Proof.
  intros Hl. unfold example_universe in Hl.
  apply lookup_insert_Some in Hl as [[<- <-]|[_ Hl]]; [by left|].
  apply lookup_insert_Some in Hl as [[<- <-]|[_ Hl]]; [by right; left|].
  apply lookup_singleton_Some in Hl as [<- <-]. by right; right.
Qed.

Lemma example_unshared : unshared example_universe.
Proof.
  split.
  - intros symbol l Hl.
    destruct (example_universe_lookup _ _ Hl) as [[_ ->]|[[_ ->]|[_ ->]]];
      compute_done.
  - intros s1 s2 l1 l2 Hne H1 H2 ref Hin1 Hin2.
    destruct (example_universe_lookup _ _ H1) as [[-> ->]|[[-> ->]|[-> ->]]];
      destruct (example_universe_lookup _ _ H2) as [[-> ->]|[[-> ->]|[-> ->]]];
      try done; set_solver.
Qed.

Lemma run_etl_unshared_witness :
  items_of example_universe example_items ∧
  universe_in example_store example_universe ∧
  unshared example_universe ∧
  ∃ e h',
    run_etl example_items example_store = Ok (e, h') ∧
    cleaned_data e !! "B" = Some [3; 4]%positive ∧
    series_in h' [3; 4]%positive
      [quote "2024-01-01" 20; set_Close 20%Z (no_close "2024-01-02")] ∧
    cleaned_data e !! "C" = Some [].
Proof.
  split; [exact example_items_of|].
  split; [exact example_universe_in|]. split; [exact example_unshared|].
  destruct (run_etl_unshared example_store example_universe example_items
              example_items_of example_universe_in example_unshared)
    as (e & h' & Hrun & Hdone & _).
  destruct (Hdone "B" [3; 4]%positive
              [quote "2024-01-01" 20; no_close "2024-01-02"])
    as (cleanedB & HB & -> & _ & HsB & _); [reflexivity|done|repeat constructor|].
  destruct (Hdone "C" [5%positive] [no_close "2024-01-01"])
    as (cleanedC & HC & -> & _); [reflexivity|done|repeat constructor|].
  exists e, h'. split; [exact Hrun|]. split; [exact HB|]. split; [exact HsB|].
  exact HC.
Defined.

(** * The fetcher *)

Section fetcher_proofs.
Context `{PyNumber} `{!Library}.

Lemma F_bind_Returns {A B} (m : F A) (f : A → F B) w a w' :
  m w = (Returns a, w') → (m ≫= f) w = f a w'.
Proof. intros Hm. unfold mbind, F_bind. by rewrite Hm. Qed.

Lemma F_bind_mret {A B} (a : A) (f : A → F B) w : (mret a ≫= f) w = f a w.
Proof. reflexivity. Qed.

Lemma F_bind_raise {A B} (e : error) (f : A → F B) w :
  (raise e ≫= f) w = (Raises e, w).
Proof. reflexivity. Qed.

Lemma builtin_Ok {A} (a : A) : builtin (Ok a) = mret a.
Proof. reflexivity. Qed.

Lemma builtin_getitem {A} (l : list A) i x :
  l !! i = Some x → builtin (list_getitem l i) = mret x.
Proof. intros Hl. unfold list_getitem. by rewrite Hl. Qed.

Lemma F_bind_library {A B} (o : outcome A) (f : A → F B) w :
  (library o ≫= f) w =
    match o with
    | Returns a => f a w
    | Raises e => (Raises e, w)
    end.
Proof. by destruct o. Qed.

(** The loop rule: an invariant for the turns that return, a condition for
    the turn that raises. *)
Lemma for_each_F_inv {A St} (I : nat → St → world → Prop)
    (Q : error → world → Prop) (xs : list A) (body : A → St → F St) s w :
  I 0 s w →
  (∀ i x s w, xs !! i = Some x → I i s w →
     match body x s w with
     | (Returns s', w') => I (S i) s' w'
     | (Raises e, w') => Q e w'
     end) →
  match for_each xs body s w with
  | (Returns s', w') => I (length xs) s' w'
  | (Raises e, w') => Q e w'
  end.
Proof.
  revert I s w. induction xs as [|x xs IH]; intros I s w Hinit Hstep; [done|].
  cbn [for_each]. unfold mbind at 1, F_bind at 1.
  pose proof (Hstep 0 x s w eq_refl Hinit) as Hx.
  destruct (body x s w) as [[s1|e] w1]; [|done].
  apply (IH (λ i, I (S i))); [done|].
  intros i y s2 w2 Hy Hi. by apply (Hstep (S i) y).
Qed.

(** The loop rule when no turn raises. *)
Lemma for_each_F_returns {A St} (I : nat → St → world → Prop) (xs : list A)
    (body : A → St → F St) s w :
  I 0 s w →
  (∀ i x s w, xs !! i = Some x → I i s w →
     ∃ s' w', body x s w = (Returns s', w') ∧ I (S i) s' w') →
  ∃ s' w', for_each xs body s w = (Returns s', w') ∧ I (length xs) s' w'.
Proof.
  intros Hinit Hstep.
  pose proof (for_each_F_inv I (λ _ _, False) xs body s w Hinit) as Hloop.
  destruct (for_each xs body s w) as [[s'|e] w'].
  - exists s', w'. split; [done|]. apply Hloop.
    intros i x s1 w1 Hx Hi.
    by destruct (Hstep i x s1 w1 Hx Hi) as (s2 & w2 & -> & H2).
  - exfalso. apply Hloop.
    intros i x s1 w1 Hx Hi.
    by destruct (Hstep i x s1 w1 Hx Hi) as (s2 & w2 & -> & H2).
Qed.

Lemma F_bind_Raises {A B} (m : F A) (f : A → F B) w e w' :
  m w = (Raises e, w') → (m ≫= f) w = (Raises e, w').
Proof. intros Hm. unfold mbind, F_bind. by rewrite Hm. Qed.

(** ** pad_to *)

Lemma pad_to_run {A} (lst : list A) (n : nat) (fill : A) :
  pad_to lst n fill = Ok (take n lst ++ replicate (n - length lst) fill).
Proof.
  unfold pad_to.
  edestruct (for_each_result_inv
    (λ i (out : list A), out = take i lst ++ replicate (i - length lst) fill)
    (range n)) as (out & Hrun & Hout).
  3: { rewrite Hrun, Hout. by rewrite range_length. }
  { by rewrite take_0. }
  intros i k out [Heq Hi]%range_lookup ->. subst k.
  destruct (decide (i < length lst)) as [Hlt|Hge].
  - destruct (lookup_lt_is_Some_2 lst i Hlt) as [x Hx].
    unfold list_getitem. rewrite Hx. eexists. split; [reflexivity|].
    replace (i - length lst) with 0 by lia.
    replace (S i - length lst) with 0 by lia. simpl.
    rewrite !app_nil_r. by rewrite (take_S_r _ _ _ Hx).
  - eexists. split; [reflexivity|].
    rewrite !take_ge by lia.
    replace (S i - length lst) with (S (i - length lst)) by lia.
    rewrite replicate_S_end. by rewrite app_assoc.
Qed.

(** X13: [pad_to] raises nothing (the index it reads is always in range);
    its result has exactly the requested length; position [i] of the result
    is position [i] of the list where the list has one, and the fill value
    elsewhere; so a longer list is cut and a list of the requested length is
    returned as a copy. *)
Theorem pad_to_spec {A} (lst : list A) (n : nat) (fill : A) :
  ∃ out,
    pad_to lst n fill = Ok out ∧
    length out = n ∧
    (∀ i, i < n → out !! i = Some (default fill (lst !! i))) ∧
    (length lst = n → out = lst).
Proof.
  eexists. split; [apply pad_to_run|]. split; [|split].
  - rewrite length_app, length_take, length_replicate. lia.
  - intros i Hi. destruct (decide (i < length lst)) as [Hlt|Hge].
    + rewrite lookup_app_l by (rewrite length_take; lia).
      rewrite lookup_take_lt by done.
      destruct (lookup_lt_is_Some_2 lst i Hlt) as [x ->]. done.
    + rewrite lookup_app_r by (rewrite length_take; lia).
      rewrite length_take, lookup_replicate_2 by lia.
      by rewrite lookup_ge_None_2 by lia.
  - intros <-. rewrite Nat.sub_diag, firstn_all. simpl. by rewrite app_nil_r.
Qed.

(** ** _do_http_get_with_retry *)

Lemma retries_S url t d k :
  retries url t d (S k) = retries url t d k ++ [Get url t; Sleep d].
Proof.
  unfold retries. by rewrite replicate_S_end, concat_app.
Qed.

Lemma sleep_run d w :
  negative d = false →
  sleep d w = (Returns (), World (w_trace w ++ [Sleep d]) (w_heap w)).
Proof. intros Hd. unfold sleep. by rewrite Hd. Qed.

Lemma sleep_negative d w :
  negative d = true →
  sleep d w = (Raises (ValueError "sleep length must be non-negative"), w).
Proof. intros Hd. unfold sleep. by rewrite Hd. Qed.

Lemma retry_loop_run url t max d w n : ∀ a last_err,
  negative d = false →
  0 < n → a + n = Z.to_nat max →
  (∀ j, j < a →
     ∃ msg, http_response (w_trace w ++ retries url t d j) url t
              = Raises (RuntimeError msg) ∧ is_timeout msg = true) →
  ∃ k, a ≤ k < a + n ∧
    retry_loop url t max d (seq a n) last_err
      (World (w_trace w ++ retries url t d a) (w_heap w))
    = (http_response (w_trace w ++ retries url t d k) url t,
       World (w_trace w ++ retries url t d k ++ [Get url t]) (w_heap w)) ∧
    (∀ j, j < k →
       ∃ msg, http_response (w_trace w ++ retries url t d j) url t
                = Raises (RuntimeError msg) ∧ is_timeout msg = true) ∧
    (∀ msg, http_response (w_trace w ++ retries url t d k) url t
              = Raises (RuntimeError msg) →
            is_timeout msg = true → Z.of_nat k = (max - 1)%Z).
Proof.
  induction n as [|n IH]; intros a last_err Hd Hn Hmax Hbefore; [lia|].
  cbn [seq retry_loop].
  unfold mbind at 1, F_bind at 1, try_except, _do_http_get. cbn [w_trace w_heap].
  destruct (http_response (w_trace w ++ retries url t d a) url t)
    as [body|e] eqn:Hresp.
  { exists a. split; [lia|]. rewrite Hresp, <- app_assoc.
    split; [done|]. split; [done|]. by intros msg [=]. }
  assert (∀ e' : error,
    e = e' →
    (∀ msg, e' = RuntimeError msg → is_timeout msg = true →
            Z.of_nat a = (max - 1)%Z) →
    ∃ k, a ≤ k < a + S n ∧
      (raise e' : F string)
        (World ((w_trace w ++ retries url t d a) ++ [Get url t]) (w_heap w))
      = (http_response (w_trace w ++ retries url t d k) url t,
         World (w_trace w ++ retries url t d k ++ [Get url t]) (w_heap w)) ∧
      (∀ j, j < k →
         ∃ msg, http_response (w_trace w ++ retries url t d j) url t
                  = Raises (RuntimeError msg) ∧ is_timeout msg = true) ∧
      (∀ msg, http_response (w_trace w ++ retries url t d k) url t
                = Raises (RuntimeError msg) →
              is_timeout msg = true → Z.of_nat k = (max - 1)%Z)) as Hstop.
  { intros e' <- Hlast. exists a. split; [lia|]. rewrite Hresp, <- app_assoc.
    split; [done|]. split; [done|]. intros msg [= ->]. by apply Hlast. }
  destruct e as [e|msg|msg|msg|msg|name];
    try (apply Hstop; [done|discriminate]).
  destruct (is_timeout msg) eqn:Htimeout; simpl.
  2: { apply Hstop; [done|]. intros msg' [= <-]. congruence. }
  destruct (bool_decide (Z.of_nat a < max - 1)%Z) eqn:Hmore.
  2: { apply Hstop; [done|]. intros _ _ _.
       apply bool_decide_eq_false in Hmore. lia. }
  apply bool_decide_eq_true in Hmore.
  unfold mbind at 1, F_bind at 1. rewrite (sleep_run _ _ Hd).
  cbn [w_trace w_heap].
  rewrite <- !app_assoc. cbn [app].
  rewrite <- (retries_S url t d a).
  destruct (IH (S a) (Some (RuntimeError msg))) as (k & Hk & Hrun & Hj & Hl);
    [done|lia..| |].
  { intros j Hj. destruct (decide (j = a)) as [->|]; [eauto|].
    apply Hbefore. lia. }
  exists k. split; [lia|]. by split.
Qed.

Lemma do_http_get_with_retry_run url t max d w :
  (0 < max)%Z →
  negative d = false →
  ∃ k,
    (Z.of_nat k < max)%Z ∧
    _do_http_get_with_retry url t max d w
    = (http_response (w_trace w ++ retries url t d k) url t,
       World (w_trace w ++ retries url t d k ++ [Get url t]) (w_heap w)) ∧
    (∀ j, j < k →
       ∃ msg, http_response (w_trace w ++ retries url t d j) url t
                = Raises (RuntimeError msg) ∧ is_timeout msg = true) ∧
    (∀ msg, http_response (w_trace w ++ retries url t d k) url t
              = Raises (RuntimeError msg) →
            is_timeout msg = true → Z.of_nat k = (max - 1)%Z).
Proof.
  intros Hmax Hd.
  destruct (retry_loop_run url t max d w (Z.to_nat max) 0 None)
    as (k & Hk & Hrun & Hbefore & Hlast); [done|lia|lia|intros j; lia|].
  exists k. split; [lia|]. split; [|by split].
  unfold _do_http_get_with_retry, range. rewrite <- Hrun.
  f_equal. destruct w as [trace h]. simpl. by rewrite app_nil_r.
Qed.



(** X15: with no attempt allowed ([max_attempts] zero or negative),
    [_do_http_get_with_retry] makes no request and reaches [raise last_err]
    with [last_err] still [None]: it raises [TypeError], not an error of the
    network. *)
Theorem do_http_get_with_retry_no_attempt (url : string)
    (timeout_seconds : seconds) (max_attempts : Z) (retry_delay : seconds)
    (w : world) :
  (max_attempts ≤ 0)%Z →
  _do_http_get_with_retry url timeout_seconds max_attempts retry_delay w
  = (Raises (TypeError "exceptions must derive from BaseException"), w).
Proof.
  intros Hmax. unfold _do_http_get_with_retry.
  by replace (Z.to_nat max_attempts) with 0 by lia.
Qed.

(** ** _parse_chart_json *)

(** A list of the response once padded to [n] values. *)
Lemma padded_lookup (lst : list (option num)) n i :
  i < n →
  (take n lst ++ replicate (n - length lst) None) !! i = Some (mjoin (lst !! i)).
Proof.
  intros Hi. destruct (decide (i < length lst)) as [Hlt|Hge].
  - rewrite lookup_app_l by (rewrite length_take; lia).
    rewrite lookup_take_lt by done.
    destruct (lookup_lt_is_Some_2 lst i Hlt) as [x ->]. done.
  - rewrite lookup_app_r by (rewrite length_take; lia).
    rewrite length_take, lookup_replicate_2 by lia.
    by rewrite lookup_ge_None_2 by lia.
Qed.

Lemma parse_chart_json_decoded raw data timestamps quote0 w :
  json_loads raw = Returns data →
  chart_series data = Some (timestamps, quote0) →
  _parse_chart_json raw w =
    chart_rows timestamps
      (take (length timestamps) (default [] (j_open quote0)) ++
         replicate (length timestamps - length (default [] (j_open quote0))) None)
      (take (length timestamps) (default [] (j_high quote0)) ++
         replicate (length timestamps - length (default [] (j_high quote0))) None)
      (take (length timestamps) (default [] (j_low quote0)) ++
         replicate (length timestamps - length (default [] (j_low quote0))) None)
      (take (length timestamps) (default [] (j_close quote0)) ++
         replicate (length timestamps - length (default [] (j_close quote0))) None)
      (take (length timestamps) (default [] (j_volume quote0)) ++
         replicate (length timestamps - length (default [] (j_volume quote0))) None)
      w.
Proof.
  intros Hloads Hseries. unfold _parse_chart_json.
  unfold mbind at 1, F_bind at 1, try_except, library. rewrite Hloads.
  unfold chart_series, first_of in Hseries.
  destruct (j_chart data) as [chart|] eqn:Hchart; [|done].
  cbn [mbind option_bind] in Hseries.
  destruct (j_result chart) as [[|result rest]|] eqn:Hresult; [done| |done].
  cbn [mbind option_bind head] in Hseries.
  destruct (j_timestamp result) as [timestamps'|] eqn:Hts; [|done].
  cbn [mbind option_bind] in Hseries.
  destruct (j_indicators result) as [quote|] eqn:Hind; [|done].
  cbn [mbind option_bind] in Hseries.
  destruct (j_quote quote) as [[|quote0' rest']|] eqn:Hquote; [done| |done].
  cbn [mbind option_bind head] in Hseries. injection Hseries as -> ->.
  rewrite F_bind_mret, Hchart, F_bind_mret, Hresult, F_bind_mret.
  change (builtin (list_getitem (result :: rest) 0)) with (mret result : F _).
  rewrite F_bind_mret, Hts, F_bind_mret, Hind, F_bind_mret, Hquote, F_bind_mret.
  change (builtin (list_getitem (quote0 :: rest') 0)) with (mret quote0 : F _).
  rewrite F_bind_mret. cbv zeta.
  rewrite !pad_to_run, !builtin_Ok.
  do 5 (rewrite F_bind_mret; cbv beta).
  reflexivity.
Qed.

(** A response in which a component is missing. *)
Local Ltac raised_message :=
  eexists; split; [reflexivity|];
  unfold missing_component_messages; apply list_elem_of_In; simpl; tauto.

Lemma parse_chart_json_incomplete raw data w :
  json_loads raw = Returns data →
  chart_series data = None →
  ∃ msg, _parse_chart_json raw w = (Raises (ValueError msg), w) ∧
         msg ∈ missing_component_messages.
Proof.
  intros Hloads Hseries. unfold _parse_chart_json.
  unfold mbind at 1, F_bind at 1, try_except, library. rewrite Hloads.
  unfold chart_series, first_of in Hseries.
  rewrite F_bind_mret.
  destruct (j_chart data) as [chart|] eqn:Hchart; [|raised_message].
  cbn [mbind option_bind] in Hseries. rewrite F_bind_mret.
  destruct (j_result chart) as [[|result rest]|] eqn:Hresult;
    [raised_message| |raised_message].
  cbn [mbind option_bind head] in Hseries. rewrite F_bind_mret.
  change (builtin (list_getitem (result :: rest) 0)) with (mret result : F _).
  rewrite F_bind_mret.
  destruct (j_timestamp result) as [timestamps'|] eqn:Hts; [|raised_message].
  cbn [mbind option_bind] in Hseries. rewrite F_bind_mret.
  destruct (j_indicators result) as [quote|] eqn:Hind; [|raised_message].
  cbn [mbind option_bind] in Hseries. rewrite F_bind_mret.
  destruct (j_quote quote) as [[|quote0' rest']|] eqn:Hquote;
    [raised_message|done|raised_message].
Qed.

(** A response that does not decode. *)
Lemma parse_chart_json_undecoded raw e w :
  json_loads raw = Raises e →
  _parse_chart_json raw w =
    (Raises match e with
            | JSONDecodeError msg => ValueError ("JSON decode error: " +:+ msg)
            | _ => e
            end, w).
Proof.
  intros Hloads. unfold _parse_chart_json.
  unfold mbind at 1, F_bind at 1, try_except, library. rewrite Hloads.
  by destruct e.
Qed.

Lemma chart_rows_run timestamps quote0 opens highs lows closes volumes w :
  (∀ i, i < length timestamps →
        opens !! i = Some (value_at (j_open quote0) i)) →
  (∀ i, i < length timestamps →
        highs !! i = Some (value_at (j_high quote0) i)) →
  (∀ i, i < length timestamps →
        lows !! i = Some (value_at (j_low quote0) i)) →
  (∀ i, i < length timestamps →
        closes !! i = Some (value_at (j_close quote0) i)) →
  (∀ i, i < length timestamps →
        volumes !! i = Some (value_at (j_volume quote0) i)) →
  match chart_rows timestamps opens highs lows closes volumes w with
  | (Returns l, w') =>
    w_trace w' = w_trace w ∧ w_heap w ⊆ w_heap w' ∧
    NoDup l ∧ length l = length timestamps ∧
    (∀ ref, ref ∈ l → w_heap w !! ref = None) ∧
    (∀ i ref, l !! i = Some ref →
       ∃ r, w_heap w' !! ref = Some r ∧ parsed_at timestamps quote0 i r)
  | (Raises e, w') =>
    w_trace w' = w_trace w ∧ w_heap w ⊆ w_heap w' ∧
    ∃ i, i < length timestamps ∧
      ((∃ timestamp, timestamps !! i = Some timestamp ∧
                     _unix_to_date timestamp = Raises e) ∨
       (∃ v, value_at (j_volume quote0) i = Some v ∧ int v = Raises e))
  end.
Proof.
  intros Hopens Hhighs Hlows Hcloses Hvolumes. unfold chart_rows.
  pose proof (for_each_F_inv
    (λ i (l : list loc) w',
       w_trace w' = w_trace w ∧ w_heap w ⊆ w_heap w' ∧
       NoDup l ∧ length l = i ∧
       (∀ ref, ref ∈ l → w_heap w !! ref = None) ∧
       (∀ j ref, l !! j = Some ref →
          ∃ r, w_heap w' !! ref = Some r ∧ parsed_at timestamps quote0 j r))
    (λ e w',
       w_trace w' = w_trace w ∧ w_heap w ⊆ w_heap w' ∧
       ∃ i, i < length timestamps ∧
         ((∃ timestamp, timestamps !! i = Some timestamp ∧
                        _unix_to_date timestamp = Raises e) ∨
          (∃ v, value_at (j_volume quote0) i = Some v ∧ int v = Raises e)))
    (range (length timestamps))) as Hloop.
  rewrite range_length in Hloop. apply Hloop; clear Hloop.
  { split; [done|]. split; [done|]. split; [constructor|]. split; [done|].
    split; [by intros ref ?%elem_of_nil|]. by intros j ref ?. }
  intros i k l w1 [Heq Hi]%range_lookup (Htrace & Hsub & Hnd & Hlen & Hnew & Hrows).
  subst k.
  destruct (lookup_lt_is_Some_2 timestamps i Hi) as [timestamp Hts].
  rewrite (builtin_getitem _ _ _ Hts), F_bind_mret, F_bind_library.
  destruct (_unix_to_date timestamp) as [date|e] eqn:Hdate.
  2: { split; [done|]. split; [done|]. exists i. split; [done|]. left. eauto. }
  rewrite (builtin_getitem _ _ _ (Hopens i Hi)), F_bind_mret.
  rewrite (builtin_getitem _ _ _ (Hhighs i Hi)), F_bind_mret.
  rewrite (builtin_getitem _ _ _ (Hlows i Hi)), F_bind_mret.
  rewrite (builtin_getitem _ _ _ (Hcloses i Hi)), F_bind_mret.
  rewrite (builtin_getitem _ _ _ (Hvolumes i Hi)), F_bind_mret.
  assert (∀ volume : option num,
    match value_at (j_volume quote0) i with
    | Some v => ∃ v', int v = Returns v' ∧ cell_of volume = Val v'
    | None => cell_of volume = Null
    end →
    match (ref ← alloc (Row (Val date) (cell_of (value_at (j_open quote0) i))
                            (cell_of (value_at (j_high quote0) i))
                            (cell_of (value_at (j_low quote0) i))
                            (cell_of (value_at (j_close quote0) i))
                            (cell_of volume));
           mret (l ++ [ref])) w1 with
    | (Returns l', w') =>
      w_trace w' = w_trace w ∧ w_heap w ⊆ w_heap w' ∧
      NoDup l' ∧ length l' = S i ∧
      (∀ ref, ref ∈ l' → w_heap w !! ref = None) ∧
      (∀ j ref, l' !! j = Some ref →
         ∃ r, w_heap w' !! ref = Some r ∧ parsed_at timestamps quote0 j r)
    | (Raises e, w') => False
    end) as Halloc.
  { intros volume Hvolume.
    unfold mbind at 1, F_bind at 1, alloc. cbn [w_trace w_heap].
    unfold mret, F_ret. cbn [w_trace w_heap].
    set (ref := fresh (dom (w_heap w1))).
    assert (w_heap w1 !! ref = None) as Hfresh.
    { apply not_elem_of_dom, is_fresh. }
    assert (ref ∉ l) as Hnotin.
    { intros [j Hj]%list_elem_of_lookup.
      destruct (Hrows j ref Hj) as (r & Hr & _). congruence. }
    split; [done|]. split.
    { etrans; [exact Hsub|]. by apply insert_subseteq. }
    split.
    { apply NoDup_app. split; [done|]. split; [|apply NoDup_singleton].
      intros ref' Hin ->%list_elem_of_singleton. done. }
    split; [rewrite length_app; simpl; lia|]. split.
    { intros ref' [Hin| ->%list_elem_of_singleton]%elem_of_app; [by apply Hnew|].
      by eapply lookup_weaken_None. }
    intros j ref' Hj. apply lookup_snoc_Some in Hj as [[Hlt Hj]|[-> <-]].
    - destruct (Hrows j ref' Hj) as (r & Hr & Hat). exists r.
      split; [|done]. rewrite lookup_insert_ne; [done|]. congruence.
    - rewrite Hlen. rewrite lookup_insert_eq. eexists. split; [done|].
      split; [by eauto|]. done. }
  destruct (value_at (j_volume quote0) i) as [v|] eqn:Hv; cbv beta iota.
  - unfold mbind at 1, F_bind at 1. rewrite F_bind_library.
    destruct (int v) as [v'|e] eqn:Hint.
    2: { split; [done|]. split; [done|]. exists i. split; [done|]. right. eauto. }
    unfold mret at 1, F_ret at 1.
    specialize (Halloc (Some v')).
    match type of Halloc with _ → match ?m with _ => _ end =>
      destruct m as [[l'|e] w'] eqn:Hm
    end; [apply Halloc|exfalso; apply Halloc]; eauto.
  - rewrite F_bind_mret.
    specialize (Halloc None).
    match type of Halloc with _ → match ?m with _ => _ end =>
      destruct m as [[l'|e] w'] eqn:Hm
    end; [apply Halloc|exfalso; apply Halloc]; done.
Qed.

(** Every run of [_parse_chart_json]. *)
Lemma parse_chart_json_run raw w :
  ∃ r w',
    _parse_chart_json raw w = (r, w') ∧
    w_trace w' = w_trace w ∧ w_heap w ⊆ w_heap w' ∧
    match r with
    | Returns l =>
      ∃ data timestamps quote0,
        json_loads raw = Returns data ∧
        chart_series data = Some (timestamps, quote0) ∧
        NoDup l ∧ length l = length timestamps ∧
        (∀ ref, ref ∈ l → w_heap w !! ref = None) ∧
        (∀ i ref, l !! i = Some ref →
           ∃ r, w_heap w' !! ref = Some r ∧ parsed_at timestamps quote0 i r)
    | Raises e =>
      (∃ e', json_loads raw = Raises e' ∧ w' = w ∧
             e = match e' with
                 | JSONDecodeError msg =>
                   ValueError ("JSON decode error: " +:+ msg)
                 | _ => e'
                 end) ∨
      (∃ data msg, json_loads raw = Returns data ∧
                   chart_series data = None ∧ e = ValueError msg ∧ w' = w ∧
                   msg ∈ missing_component_messages) ∨
      (∃ data timestamps quote0 i,
         json_loads raw = Returns data ∧
         chart_series data = Some (timestamps, quote0) ∧
         i < length timestamps ∧
         ((∃ timestamp, timestamps !! i = Some timestamp ∧
                        _unix_to_date timestamp = Raises e) ∨
          (∃ v, value_at (j_volume quote0) i = Some v ∧ int v = Raises e)))
    end.
Proof.
  destruct (json_loads raw) as [data|e'] eqn:Hloads.
  2: { eexists _, w. split; [by apply parse_chart_json_undecoded|].
       split; [done|]. split; [done|]. left. by exists e'. }
  destruct (chart_series data) as [[timestamps quote0]|] eqn:Hseries.
  2: { destruct (parse_chart_json_incomplete raw data w Hloads Hseries)
         as (msg & Hrun & Hmsg).
       eexists _, w. split; [exact Hrun|]. split; [done|]. split; [done|].
       right. left. by exists data, msg. }
  rewrite (parse_chart_json_decoded raw data timestamps quote0 w Hloads Hseries).
  match goal with |- context [chart_rows ?ts ?o ?h ?l ?c ?v w] =>
    pose proof (chart_rows_run ts quote0 o h l c v w) as Hrows;
    destruct (chart_rows ts o h l c v w) as [[l'|e] w'] eqn:Hrun
  end.
  - destruct Hrows as (Htrace & Hsub & Hnd & Hlen & Hnew & Hat);
      try (intros i Hi; by apply padded_lookup).
    eexists _, w'. split; [done|]. split; [done|]. split; [done|].
    by exists data, timestamps, quote0.
  - destruct Hrows as (Htrace & Hsub & i & Hi & Hfail);
      try (intros i Hi; by apply padded_lookup).
    eexists _, w'. split; [done|]. split; [done|]. split; [done|].
    right. right. by exists data, timestamps, quote0, i.
Qed.

Lemma parsed_at_complete timestamps quote0 i r :
  parsed_at timestamps quote0 i r → complete r ∧ is_null (Date r) = false.
Proof.
  intros ((timestamp & date & _ & _ & Hdate) & Hopen & Hhigh & Hlow & Hclose
          & Hvolume).
  unfold complete, is_null. rewrite Hdate, Hopen, Hhigh, Hlow, Hclose.
  destruct (value_at (j_volume quote0) i);
    [destruct Hvolume as (v' & _ & ->)|rewrite Hvolume];
    destruct (value_at (j_open quote0) i), (value_at (j_high quote0) i),
      (value_at (j_low quote0) i), (value_at (j_close quote0) i);
    split_and!; done.
Qed.

(** Records found position by position make a series. *)
Lemma series_in_of_lookup (h : heap) l : ∀ (P : nat → row → Prop),
  (∀ i ref, l !! i = Some ref → ∃ r, h !! ref = Some r ∧ P i r) →
  ∃ rows, series_in h l rows ∧ ∀ i r, rows !! i = Some r → P i r.
Proof.
  induction l as [|ref l IH]; intros P Hat.
  { exists []. split; [constructor|]. by intros i r ?. }
  destruct (Hat 0 ref eq_refl) as (r & Hr & HP).
  destruct (IH (λ i, P (S i))) as (rows & Hs & Hall).
  { intros i ref' Hi. by apply (Hat (S i)). }
  exists (r :: rows). split; [by constructor|].
  intros [|i] r' Hi; [by injection Hi as <-|by apply Hall].
Qed.

(** X16: the list [_parse_chart_json] returns holds records that were not
    in the store before the call and that are pairwise distinct objects: no
    dict sits at two positions.  There is one record per timestamp of the
    response, and every record has its six keys, with a string under Date.
    Whether the call returns or raises, it makes no request, pauses nowhere
    and leaves every record of the store as it was. *)
Theorem parse_chart_json_fresh_rows (raw_bytes : string) (w : world) :
  ∃ r w',
    _parse_chart_json raw_bytes w = (r, w') ∧
    w_trace w' = w_trace w ∧
    w_heap w ⊆ w_heap w' ∧
    ∀ l, r = Returns l →
      NoDup l ∧
      (∀ ref, ref ∈ l → w_heap w !! ref = None) ∧
      (∃ rows,
         series_in (w_heap w') l rows ∧
         Forall (λ r, complete r ∧ is_null (Date r) = false) rows) ∧
      ∃ data timestamps quote0,
        json_loads raw_bytes = Returns data ∧
        chart_series data = Some (timestamps, quote0) ∧
        length l = length timestamps.
Proof.
  destruct (parse_chart_json_run raw_bytes w)
    as (r & w' & Hrun & Htrace & Hsub & Hr).
  exists r, w'. split; [done|]. split; [done|]. split; [done|].
  intros l ->.
  destruct Hr as (data & timestamps & quote0 & Hloads & Hseries & Hnd & Hlen
                  & Hnew & Hat).
  split; [done|]. split; [done|]. split; [|by exists data, timestamps, quote0].
  destruct (series_in_of_lookup (w_heap w') l
              (parsed_at timestamps quote0) Hat) as (rows & Hs & Hrows).
  exists rows. split; [done|]. apply Forall_lookup. intros i r Hi.
  eapply parsed_at_complete. by apply (Hrows i).
Qed.

(** X17: what [_parse_chart_json] returns on a response that decodes and
    has its components, when the library converts every timestamp and every
    volume: one record per timestamp, in order; the record at position [i]
    carries the date of the [i]-th timestamp, and under each of Open, High,
    Low, Close and Volume the [i]-th value of the list of the response
    (Volume through [int]), or null where that list is missing, is shorter,
    or holds null there.  Values beyond the number of timestamps are
    dropped. *)
Theorem parse_chart_json_rows (raw_bytes : string) (w : world)
    (data : response_json) (timestamps : list Z) (quote0 : quote_json) :
  json_loads raw_bytes = Returns data →
  chart_series data = Some (timestamps, quote0) →
  (∀ timestamp, timestamp ∈ timestamps →
                ∃ date, _unix_to_date timestamp = Returns date) →
  (∀ i v, i < length timestamps → value_at (j_volume quote0) i = Some v →
          ∃ v', int v = Returns v') →
  ∃ l rows w',
    _parse_chart_json raw_bytes w = (Returns l, w') ∧
    series_in (w_heap w') l rows ∧
    length rows = length timestamps ∧
    ∀ i r, rows !! i = Some r → parsed_at timestamps quote0 i r.
Proof.
  intros Hloads Hseries Hdates Hints.
  destruct (parse_chart_json_run raw_bytes w)
    as (r & w' & Hrun & Htrace & Hsub & Hr).
  destruct r as [l|e].
  - destruct Hr as (data' & timestamps' & quote0' & Hloads' & Hseries' & Hnd
                    & Hlen & Hnew & Hat).
    assert (data' = data) as -> by congruence.
    assert (timestamps' = timestamps ∧ quote0' = quote0) as [-> ->].
    { rewrite Hseries in Hseries'. by injection Hseries' as <- <-. }
    destruct (series_in_of_lookup (w_heap w') l
                (parsed_at timestamps quote0) Hat) as (rows & Hs & Hrows).
    exists l, rows, w'. split; [done|]. split; [done|].
    split; [|done]. by rewrite <- (series_in_length _ _ _ Hs).
  - exfalso.
    destruct Hr as [(e' & He' & _)|[(data' & msg & Hloads' & Hnone & _)|Hr]].
    + congruence.
    + assert (data' = data) as -> by congruence. congruence.
    + destruct Hr as (data' & timestamps' & quote0' & i & Hloads' & Hseries'
                      & Hi & Hfail).
      assert (data' = data) as -> by congruence.
      assert (timestamps' = timestamps ∧ quote0' = quote0) as [-> ->].
      { rewrite Hseries in Hseries'. by injection Hseries' as <- <-. }
      destruct Hfail as [(timestamp & Hts & Hfail)|(v & Hv & Hfail)].
      * destruct (Hdates timestamp) as [date Hdate];
          [by eapply list_elem_of_lookup_2|]. congruence.
      * destruct (Hints i v Hi Hv) as [v' Hv']. congruence.
Qed.

(** X18: how [_parse_chart_json] raises, by what the decoder gave: it
    raised, or it returned a response of the expected shape
    ([response_json]; a body that is valid JSON of another shape, on which
    [.get] or the indexing raises, has no decoded response here and is not
    covered).  When the decoder raised, a [JSONDecodeError] is turned into a
    [ValueError] and any other error passes through.  When the response
    decoded and a component of it is missing, the error is a [ValueError]
    with one of the five messages of the parser.  In both cases the world is
    as it was.  When the response decoded with its components, the error is
    what the library raised on the timestamp or the volume of some
    position: on such a response the parser's own indexing raises
    nothing. *)
Theorem parse_chart_json_raises (raw_bytes : string) (w w' : world)
    (e : error) :
  _parse_chart_json raw_bytes w = (Raises e, w') →
  match json_loads raw_bytes with
  | Raises e' =>
    w' = w ∧
    e = match e' with
        | JSONDecodeError msg => ValueError ("JSON decode error: " +:+ msg)
        | _ => e'
        end
  | Returns data =>
    match chart_series data with
    | None =>
      w' = w ∧ ∃ msg, e = ValueError msg ∧ msg ∈ missing_component_messages
    | Some (timestamps, quote0) =>
      ∃ i, i < length timestamps ∧
           ((∃ timestamp, timestamps !! i = Some timestamp ∧
                          _unix_to_date timestamp = Raises e) ∨
            (∃ v, value_at (j_volume quote0) i = Some v ∧ int v = Raises e))
    end
  end.
Proof.
  intros Hrun.
  destruct (parse_chart_json_run raw_bytes w)
    as (r & w1 & Hrun' & _ & _ & Hr).
  rewrite Hrun in Hrun'. injection Hrun' as <- <-.
  destruct Hr as [(e' & -> & -> & ->)
                 |[(data & msg & -> & -> & -> & -> & Hmsg)
                  |(data & timestamps & quote0 & i & -> & -> & Hi & Hfail)]].
  - done.
  - split; [done|]. by exists msg.
  - by exists i.
Qed.

(** ** fetch_asset_data *)

(** What a returned list of new records looks like. *)
Lemma parse_chart_json_safe raw w :
  ∃ r w',
    _parse_chart_json raw w = (r, w') ∧
    w_trace w' = w_trace w ∧
    w_heap w ⊆ w_heap w' ∧
    ∀ l, r = Returns l →
      NoDup l ∧
      (∀ ref, ref ∈ l → w_heap w !! ref = None) ∧
      ∃ rows,
        series_in (w_heap w') l rows ∧
        Forall (λ r, complete r ∧ is_null (Date r) = false) rows.
Proof.
  destruct (parse_chart_json_run raw w)
    as (r & w' & Hrun & Htrace & Hsub & Hr).
  exists r, w'. split; [done|]. split; [done|]. split; [done|].
  intros l ->.
  destruct Hr as (data & timestamps & quote0 & _ & _ & Hnd & _ & Hnew & Hat).
  split; [done|]. split; [done|].
  destruct (series_in_of_lookup (w_heap w') l
              (parsed_at timestamps quote0) Hat) as (rows & Hs & Hrows).
  exists rows. split; [done|]. apply Forall_lookup. intros i r Hi.
  eapply parsed_at_complete. by apply (Hrows i).
Qed.

Lemma fetch_asset_data_run symbol start_date end_date delay w :
  ∃ r w',
    fetch_asset_data symbol start_date end_date delay w = (r, w') ∧
    w_heap w ⊆ w_heap w' ∧
    (∀ l, r = Returns l →
       NoDup l ∧
       (∀ ref, ref ∈ l → w_heap w !! ref = None) ∧
       ∃ rows,
         series_in (w_heap w') l rows ∧
         Forall (λ r, complete r ∧ is_null (Date r) = false) rows) ∧
    match _date_to_unix start_date, _date_to_unix end_date with
    | Returns period1, Returns period2 =>
      ∃ k, k < 3 ∧
        (∀ j, j < k →
           ∃ msg,
             http_response
               (w_trace w ++
                  retries (_build_chart_url symbol period1 period2)
                          (secs 90) (secs 2) j)
               (_build_chart_url symbol period1 period2)
               (secs 90)
             = Raises (RuntimeError msg) ∧
             is_timeout msg = true) ∧
        match http_response
                (w_trace w ++
                   retries (_build_chart_url symbol period1 period2)
                           (secs 90) (secs 2) k)
                (_build_chart_url symbol period1 period2)
                (secs 90) with
        | Returns raw =>
          if negative delay
          then
            r = Raises (ValueError "sleep length must be non-negative") ∧
            w' = World (w_trace w ++
                        retries (_build_chart_url symbol period1 period2)
                                (secs 90) (secs 2) k ++
                        [Get (_build_chart_url symbol period1 period2)
                             (secs 90)])
                       (w_heap w)
          else
            w_trace w' =
              w_trace w ++
              retries (_build_chart_url symbol period1 period2)
                      (secs 90) (secs 2) k ++
              [Get (_build_chart_url symbol period1 period2)
                   (secs 90);
               Sleep delay]
        | Raises e =>
          r = Raises e ∧
          w' = World (w_trace w ++
                      retries (_build_chart_url symbol period1 period2)
                              (secs 90) (secs 2) k ++
                      [Get (_build_chart_url symbol period1 period2)
                           (secs 90)])
                     (w_heap w)
        end
    | Raises e, _ => r = Raises e ∧ w' = w
    | Returns _, Raises e => r = Raises e ∧ w' = w
    end.
Proof.
  unfold fetch_asset_data. rewrite F_bind_library.
  destruct (_date_to_unix start_date) as [period1|e].
  2: { by eexists _, w. }
  rewrite F_bind_library.
  destruct (_date_to_unix end_date) as [period2|e].
  2: { by eexists _, w. }
  cbv zeta.
  set (url := _build_chart_url symbol period1 period2).
  destruct (do_http_get_with_retry_run url (secs 90) 3
              (secs 2) w) as (k & Hk & Hrun & Hbefore & _);
    [lia|reflexivity|].
  unfold mbind at 1, F_bind at 1. rewrite Hrun.
  destruct (http_response _ url _) as [raw|e] eqn:Hresp.
  2: { eexists _, _. split; [done|]. cbn [w_heap]. split; [done|].
       split; [done|]. exists k. split; [lia|]. split; [done|].
       by rewrite Hresp. }
  unfold mbind at 1, F_bind at 1.
  destruct (negative delay) eqn:Hd.
  { rewrite (sleep_negative _ _ Hd).
    eexists _, _. split; [done|]. cbn [w_heap]. split; [done|].
    split; [done|]. exists k. split; [lia|]. split; [done|].
    by rewrite Hresp. }
  rewrite (sleep_run _ _ Hd). cbn [w_trace w_heap].
  match goal with |- context [_parse_chart_json raw ?w0] =>
    destruct (parse_chart_json_safe raw w0)
      as (r & w' & Hparse & Htrace & Hsub & Hr)
  end.
  cbn [w_trace w_heap] in *.
  exists r, w'. split; [done|]. split; [done|]. split; [done|].
  exists k. split; [lia|]. split; [done|]. rewrite Hresp, Htrace.
  by rewrite <- !app_assoc.
Qed.


(** ** fetch_multiple_assets *)

Lemma series_in_weaken (h h' : heap) l rows :
  h ⊆ h' → series_in h l rows → series_in h' l rows.
Proof.
  intros Hsub Hs. unfold series_in in *. eapply Forall2_impl; [exact Hs|].
  intros ref r Hr. simpl in Hr. exact (lookup_weaken _ _ _ _ Hr Hsub).
Qed.

Lemma size_list_to_set_le (l : list string) :
  size (list_to_set l : gset string) ≤ length l.
Proof.
  induction l as [|x l IH]; [by rewrite list_to_set_nil, size_empty|].
  rewrite list_to_set_cons, size_union_alt, size_singleton. simpl.
  assert (size (list_to_set l ∖ {[x]} : gset string)
          ≤ size (list_to_set l : gset string)).
  { apply subseteq_size. set_solver. }
  lia.
Qed.

(** The loop of [fetch_multiple_assets]. *)
Lemma fetch_loop_run symbols start_date end_date delay w :
  ∃ (result : gmap string (list loc)) errors w',
    for_each symbols
      (λ sym '(result, errors),
         r ← try_except (fetch_asset_data sym start_date end_date delay);
         match r with
         | Returns rows => mret (<[sym := rows]> result, errors)
         | Raises e => mret (<[sym := []]> result, errors ++ [(sym, e)])
         end)
      ((∅ : gmap string (list loc)), ([] : list (string * error))) w
    = (Returns (result, errors), w') ∧
    w_heap w ⊆ w_heap w' ∧
    (∀ sym, is_Some (result !! sym) ↔ sym ∈ symbols) ∧
    (∀ sym e, (sym, e) ∈ errors → sym ∈ symbols) ∧
    unshared result ∧
    (∀ sym l, result !! sym = Some l →
       (∀ ref, ref ∈ l → w_heap w !! ref = None) ∧
       ∃ rows,
         series_in (w_heap w') l rows ∧
         Forall (λ r, complete r ∧ is_null (Date r) = false) rows).
Proof.
  edestruct (for_each_F_returns
    (λ i '(result, errors) w',
       w_heap w ⊆ w_heap w' ∧
       (∀ sym, is_Some ((result : gmap string (list loc)) !! sym) ↔
               sym ∈ take i symbols) ∧
       (∀ sym (e : error), (sym, e) ∈ (errors : list (string * error)) →
                           sym ∈ symbols) ∧
       unshared result ∧
       (∀ sym l, result !! sym = Some l →
          (∀ ref, ref ∈ l → w_heap w !! ref = None) ∧
          ∃ rows,
            series_in (w_heap w') l rows ∧
            Forall (λ r, complete r ∧ is_null (Date r) = false) rows))
    symbols) as ([result errors] & w' & Hrun & Hinv).
  3: { exists result, errors, w'. split; [exact Hrun|].
       by rewrite firstn_all in Hinv. }
  { split; [done|]. split.
    { intros sym. rewrite lookup_empty, take_0. split; [by intros [? ?]|].
      by intros ?%elem_of_nil. }
    split; [by intros sym e ?%elem_of_nil|]. split.
    { split; intros ?; intros; by rewrite lookup_empty in *. }
    intros sym l. by rewrite lookup_empty. }
  intros i sym [result errors] w1 Hsym (Hsub & Hdom & Herrors & [Hnd Hdisj] & Hrows).
  assert (∀ sym', sym' ∈ take (S i) symbols ↔ sym' = sym ∨ sym' ∈ take i symbols)
    as Htake.
  { intros sym'. rewrite (take_S_r _ _ _ Hsym), elem_of_app, list_elem_of_singleton.
    tauto. }
  destruct (fetch_asset_data_run sym start_date end_date delay w1)
    as (r & w2 & Hfetch & Hsub2 & Hr & _).
  unfold mbind at 1, F_bind at 1, try_except. rewrite Hfetch.
  assert (∀ l : list loc,
    NoDup l →
    (∀ ref, ref ∈ l → w_heap w1 !! ref = None) →
    (∃ rows, series_in (w_heap w2) l rows ∧
             Forall (λ r, complete r ∧ is_null (Date r) = false) rows) →
    w_heap w ⊆ w_heap w2 ∧
    (∀ sym', is_Some (<[sym := l]> result !! sym') ↔
             sym' ∈ take (S i) symbols) ∧
    unshared (<[sym := l]> result) ∧
    (∀ sym' l', <[sym := l]> result !! sym' = Some l' →
       (∀ ref, ref ∈ l' → w_heap w !! ref = None) ∧
       ∃ rows,
         series_in (w_heap w2) l' rows ∧
         Forall (λ r, complete r ∧ is_null (Date r) = false) rows)) as Hnew.
  { intros l Hl Hfresh Hseries.
    assert (∀ sym' l' ref, result !! sym' = Some l' → ref ∈ l' →
                           is_Some (w_heap w1 !! ref)) as Hold.
    { intros sym' l' ref Hl' Hin.
      destruct (Hrows sym' l' Hl') as (_ & rows & Hs & _).
      by eapply series_in_allocated. }
    split; [by etrans|]. split.
    { intros sym'. rewrite lookup_insert_is_Some, Htake, Hdom.
      destruct (decide (sym = sym')); naive_solver. }
    split; [split|].
    - intros sym' l'. rewrite lookup_insert_Some.
      intros [[_ <-]|[_ Hl']]; [done|by eapply Hnd].
    - intros s1 s2 l1 l2 Hne. rewrite !lookup_insert_Some.
      intros [[<- <-]|[_ Hl1]] [[<- <-]|[_ Hl2]] ref Hin1 Hin2; try done.
      + destruct (Hold s2 l2 ref Hl2 Hin2) as [r0 Hr0].
        rewrite (Hfresh ref Hin1) in Hr0. done.
      + destruct (Hold s1 l1 ref Hl1 Hin1) as [r0 Hr0].
        rewrite (Hfresh ref Hin2) in Hr0. done.
      + by eapply (Hdisj s1 s2 l1 l2).
    - intros sym' l'. rewrite lookup_insert_Some.
      intros [[_ <-]|[_ Hl']].
      + split; [|done]. intros ref Hin.
        eapply lookup_weaken_None; [by apply Hfresh|done].
      + destruct (Hrows sym' l' Hl') as (Hf & rows & Hs & Hall).
        split; [done|]. exists rows. split; [|done].
        by eapply series_in_weaken. }
  destruct r as [l|e].
  - destruct (Hr l eq_refl) as (Hl & Hfresh & Hseries).
    destruct (Hnew l Hl Hfresh Hseries) as (H1 & H2 & H3 & H4).
    eexists (_, _), _. split; [reflexivity|]. done.
  - destruct (Hnew []) as (H1 & H2 & H3 & H4).
    { constructor. }
    { by intros ref ?%elem_of_nil. }
    { exists []. split; constructor. }
    eexists (_, _), _. split; [reflexivity|].
    split; [done|]. split; [done|]. split; [|done].
    intros sym' e' [Hin|[= -> ->]%list_elem_of_singleton]%elem_of_app.
    + by eapply Herrors.
    + by eapply list_elem_of_lookup_2.
Qed.


(** ** From the download to the master table *)

(** X21: [run_etl] on what [fetch_multiple_assets] returns, when the
    responses that decoded had the expected shape (numbers or null in the
    lists of values, as [response_json] has them), in whatever order the
    symbols are visited.  The download
    builds every record as a new object, so no record is shared and the
    transformation does to each asset exactly what it does to that asset
    alone: the cleaned series of a symbol with data is its downloaded series
    without the null-Close records it starts with, and its records carry the
    forward fill of their own series.  The transformation raises nothing,
    leaves the records that were in the store before the download as they
    were, and the keys of every row of the master table are "Date" followed
    by one "<symbol>_Close" for each symbol with data, in the lexicographic
    order of the symbols: at least [min_success] of them and at most one per
    requested symbol. *)
Theorem fetch_then_run_etl (symbols : list string)
    (start_date end_date : string) (delay_seconds : seconds)
    (min_success : Z) (w w' : world)
    (all_assets_data : gmap string (list loc))
    (items : list (string * list loc)) :
  fetch_multiple_assets symbols start_date end_date delay_seconds
                        min_success w = (Returns all_assets_data, w') →
  items_of all_assets_data items →
  ∃ e h' with_data,
    run_etl items (w_heap w') = Ok (e, h') ∧
    (∀ ref r, w_heap w !! ref = Some r → h' !! ref = Some r) ∧
    (∀ symbol l rows,
       all_assets_data !! symbol = Some l → l ≠ [] →
       series_in (w_heap w') l rows →
       cleaned_data e !! symbol = Some (drop (leading_nulls rows) l) ∧
       series_in h' l (forward_filled rows)) ∧
    with_data = sorted (keys (cleaned_data e)) ∧
    NoDup with_data ∧
    (∀ symbol, symbol ∈ with_data ↔
               symbol ∈ symbols ∧
               ∃ l, all_assets_data !! symbol = Some l ∧ l ≠ []) ∧
    (min_success ≤ Z.of_nat (length with_data))%Z ∧
    length with_data ≤ length symbols ∧
    (∀ row, row ∈ master_dataset e →
            row.*1 = "Date" :: (close_column <$> with_data) ∧
            (min_success ≤ Z.of_nat (length row) - 1)%Z ∧
            length row ≤ S (length symbols)).
Proof.
  intros Hfetch Hitems.
  destruct (fetch_loop_run symbols start_date end_date delay_seconds w)
    as (result & errors & w1 & Hloop & Hsub & Hdom & _ & Hun & Hrows).
  unfold fetch_multiple_assets in Hfetch.
  unfold mbind at 1, F_bind at 1 in Hfetch. rewrite Hloop in Hfetch.
  cbv zeta in Hfetch.
  destruct (decide (Z.of_nat (length (filter (λ v, v ≠ [])
                                        (map_to_list result).*2))
                    < min_success)%Z) as [Hfew|Henough]; [done|].
  injection Hfetch as <- <-.
  assert (universe_in (w_heap w1) result) as Hu.
  { intros symbol l Hl. destruct (Hrows symbol l Hl) as (_ & rows & Hs & _).
    by exists rows. }
  destruct (run_etl_unshared_run (w_heap w1) result items Hitems Hu Hun)
    as (e & h' & Hrun & Hdone & Hframe).
  destruct (run_etl_keys_run (w_heap w1) result items Hitems Hu)
    as (e' & h'' & Hrun' & Hnd & Hin & Hlen & Hkeys).
  rewrite Hrun in Hrun'. injection Hrun' as <- <-.
  assert (length (sorted (keys (cleaned_data e))) ≤ length symbols) as Hmost.
  { rewrite Hlen. etrans; [apply length_filter|]. rewrite length_fmap.
    rewrite length_map_to_list, <- size_dom.
    assert (dom result ⊆ list_to_set symbols) as Hdomsub.
    { intros sym Hs%elem_of_dom. apply elem_of_list_to_set. by apply Hdom. }
    etrans; [by apply subseteq_size|]. apply size_list_to_set_le. }
  exists e, h', (sorted (keys (cleaned_data e))).
  split_and!; try done.
  - intros ref r Hr. rewrite Hframe; [by eapply lookup_weaken|].
    intros symbol l Hl Hin'.
    destruct (Hrows symbol l Hl) as (Hfresh & _).
    rewrite (Hfresh ref Hin') in Hr. done.
  - intros symbol. rewrite Hin. split; [|naive_solver].
    intros (l & Hl & Hne). split; [|by exists l].
    apply Hdom. by exists l.
  - lia.
  - intros row Hrow. rewrite (Hkeys row Hrow). split; [done|].
    assert (length row = S (length (sorted (keys (cleaned_data e))))) as ->.
    { rewrite <- (length_fmap fst row), (Hkeys row Hrow). simpl.
      by rewrite length_fmap. }
    lia.
Qed.

End fetcher_proofs.

(** * The theorems on the fetcher at concrete inputs *)



Lemma do_http_get_with_retry_no_attempt_witness :
  (0 ≤ 0)%Z ∧
  _do_http_get_with_retry "VOO" (secs 90) 0 (secs 2) empty_world =
    (Raises (TypeError "exceptions must derive from BaseException"),
     empty_world).
Proof.
  split; [lia|].
  apply (do_http_get_with_retry_no_attempt "VOO" (secs 90) 0 (secs 2)). lia.
Defined.

Lemma parse_chart_json_rows_witness :
  json_loads "VOO" = Returns example_response ∧
  chart_series example_response = Some (example_timestamps, example_quote) ∧
  ∃ l rows w',
    _parse_chart_json "VOO" empty_world = (Returns l, w') ∧
    series_in (w_heap w') l rows ∧
    length rows = 2 ∧
    ∃ r, rows !! 1 = Some r ∧
         Open r = Null ∧ High r = Null ∧ Low r = price 11 ∧
         Close r = price 11 ∧ Volume r = Null.
Proof.
  split; [reflexivity|]. split; [reflexivity|].
  destruct (parse_chart_json_rows "VOO" empty_world example_response
              example_timestamps example_quote)
    as (l & rows & w' & Hrun & Hs & Hlen & Hrows);
    [reflexivity|reflexivity| | |].
  - intros timestamp Hin. apply list_elem_of_In in Hin.
    destruct Hin as [<-|[<-|[]]]; eexists; reflexivity.
  - intros i v _ _. eexists. reflexivity.
  - exists l, rows, w'. split; [exact Hrun|]. split; [exact Hs|].
    split; [exact Hlen|].
    assert (is_Some (rows !! 1)) as [r Hr].
    { apply lookup_lt_is_Some. rewrite Hlen. simpl. lia. }
    exists r. split; [exact Hr|].
    destruct (Hrows 1 r Hr) as (_ & Hopen & Hhigh & Hlow & Hclose & Hvolume).
    split; [exact Hopen|]. split; [exact Hhigh|]. split; [exact Hlow|].
    split; [exact Hclose|exact Hvolume].
Defined.

Lemma parse_chart_json_raises_witness :
  _parse_chart_json "garbage" empty_world =
    (Raises (ValueError
       "JSON decode error: Expecting value: line 1 column 1 (char 0)"),
     empty_world) ∧
  json_loads "garbage" =
    Raises (JSONDecodeError "Expecting value: line 1 column 1 (char 0)") ∧
  empty_world = empty_world ∧
  ValueError "JSON decode error: Expecting value: line 1 column 1 (char 0)" =
    ValueError
      ("JSON decode error: " +:+ "Expecting value: line 1 column 1 (char 0)").
Proof.
  assert (_parse_chart_json "garbage" empty_world =
            (Raises (ValueError
               "JSON decode error: Expecting value: line 1 column 1 (char 0)"),
             empty_world)) as Hrun by reflexivity.
  split; [exact Hrun|]. split; [reflexivity|].
  exact (parse_chart_json_raises "garbage" empty_world empty_world _ Hrun).
Defined.


Lemma fetch_then_run_etl_witness :
  ∃ w',
    fetch_multiple_assets ["VOO"; "DOWN"; "SPY"] "2024-01-01" "2024-01-31"
                          (secs 1) 2 empty_world
      = (Returns (list_to_map fetched_items), w') ∧
    items_of (list_to_map fetched_items) fetched_items ∧
    ∃ e h',
      run_etl fetched_items (w_heap w') = Ok (e, h') ∧
      ∀ row, row ∈ master_dataset e →
             row.*1 = ["Date"; "SPY_Close"; "VOO_Close"].
Proof.
  set (w' := snd (fetch_multiple_assets ["VOO"; "DOWN"; "SPY"] "2024-01-01"
                                        "2024-01-31" (secs 1) 2 empty_world)).
  assert (fetch_multiple_assets ["VOO"; "DOWN"; "SPY"] "2024-01-01"
                                "2024-01-31" (secs 1) 2 empty_world
          = (Returns (list_to_map fetched_items), w')) as Hfetch
    by (vm_compute; reflexivity).
  assert (items_of (list_to_map fetched_items) fetched_items) as Hitems
    by (apply items_of_list_to_map; compute_done).
  exists w'. split; [exact Hfetch|]. split; [exact Hitems|].
  destruct (fetch_then_run_etl _ _ _ _ _ _ _ _ _ Hfetch Hitems)
    as (e & h' & with_data & Hrun & _ & _ & Hwith & _ & _ & _ & _ & Hrows).
  exists e, h'. split; [exact Hrun|].
  assert ((λ e, sorted (keys (cleaned_data e))) <$>
            returned (run_etl fetched_items (w_heap w'))
          = Some ["SPY"; "VOO"]) as Hkeys by (vm_compute; reflexivity).
  rewrite Hrun in Hkeys. injection Hkeys as Hkeys.
  intros row Hrow. destruct (Hrows row Hrow) as [-> _].
  rewrite Hwith, Hkeys. reflexivity.
Defined.
